(** * The History Analyzer of repo-therapist, embedded in Rocq

    This development embeds [src/historian/analyze-history.ts] (the file that
    defines [analyzeGitHistory] and its passes) together with the interfaces
    of [src/historian/types.ts], and proves or refutes statements of the
    specification about it. It also embeds the two places an analysis goes
    to next: the cache of [src/cache.ts], and the tool [whyIsThisWeird] of
    [src/tools/get-history.ts] that reports on one file of a cached history.

    Conventions of the embedding.

    - A JavaScript [number] that only ever holds a count or an epoch
      millisecond value is a [Z]; a [number] that may hold a fraction (the
      apportioned line totals, quotients of time spans) is a [Q]. The
      weekly commit average, whose rounding decides the commit pattern, is
      computed as the engine computes it, every operation rounded to the
      nearest double ([JS.double]). The other fractions (the apportioned
      line totals, the quotients behind a percentage or a score) are kept
      exact, and what is stated of the line totals is stated up to the
      rounding of the doubles they are in the engine.
    - An ISO date string is represented by the instant it denotes, in epoch
      milliseconds, because the analyzer only ever reads a date through
      [new Date(d)]; dates are assumed parseable.
    - A [Record<string, V>] (a plain object used as a dictionary) is an
      association list in insertion order, which is the order of
      [Object.keys], [Object.values] and [Object.entries] for keys that are
      not array indices. A lookup [record[key]] also finds the properties
      every object inherits from [Object.prototype]: the passes are given
      twice, as functions of the log for keys that are none of these
      properties, and in [Run] as the engine runs them, where such a key
      makes the pass throw.
    - [Array.prototype.sort] is stable; it is modelled by a stable insertion
      sort, which yields the same array as any other stable sort whenever the
      comparator orders by a key.
    - [throw]/[try]/[catch] is an explicit error type; [await] is sequencing. *)

From Stdlib Require Import ZArith QArith Qround Qminmax Qabs List String Bool
  Lia Lqa Permutation Sorted DecimalString.
Import ListNotations.

#[local] Open Scope string_scope.
#[local] Open Scope list_scope.
#[local] Open Scope Z_scope.

(** ** JavaScript primitives used by the analyzer *)

Module JS.

(** [Math.round]: the nearest integer, halves rounded up. *)
Definition Math_round (x : Q) : Z := Qfloor (x + (1 # 2))%Q.

Definition Math_floor (x : Q) : Z := Qfloor x.

(** [a / b] on numbers that hold integers. The analyzer never divides by
    zero; [Qinv 0 = 0] is therefore never observed. *)
Definition div (a b : Z) : Q := (inject_Z a / inject_Z b)%Q.

(** The integer nearest to [n / d] for [0 < d], the even one of two that
    are equally near. *)
Definition nearestEven (n d : Z) : Z :=
  let q := n / d in
  match 2 * (n mod d) ?= d with
  | Lt => q
  | Gt => q + 1
  | Eq => if Z.even q then q else q + 1
  end.

(** The fraction [p / q * 2 ^ k] as a numerator and a denominator. *)
Definition shifted (p q k : Z) : Z * Z :=
  if 0 <=? k then (p * 2 ^ k, q) else (p, q * 2 ^ (- k)).

(** The double nearest to the positive fraction [p / q]: the exponent [k]
    is the one that brings [p / q * 2 ^ k] into [2 ^ 52, 2 ^ 53), where the
    doubles are the integers, and the significand is rounded to the nearest
    integer, ties to even. *)
Definition doublePos (p q : positive) : Q :=
  let k0 := 52 - (Z.log2 (Zpos p) - Z.log2 (Zpos q)) in
  let k :=
    if fst (shifted (Zpos p) (Zpos q) k0) / snd (shifted (Zpos p) (Zpos q) k0)
       <? 2 ^ 52
    then k0 + 1 else k0 in
  let m :=
    nearestEven (fst (shifted (Zpos p) (Zpos q) k))
      (snd (shifted (Zpos p) (Zpos q) k)) in
  if 0 <=? k then (inject_Z m / inject_Z (2 ^ k))%Q
  else inject_Z (m * 2 ^ (- k)).

(** The value a [number] takes when an operation yields the real [x]: the
    nearest double, as IEEE 754 rounds to nearest. Overflow and subnormal
    results are not modelled: every quantity that is rounded here lies
    between [2 ^ -1022] and [2 ^ 1024] in magnitude, or is zero. *)
Definition double (x : Q) : Q :=
  match Qnum x with
  | Z0 => 0
  | Zpos p => doublePos p (Qden x)
  | Zneg p => - doublePos p (Qden x)
  end.

(** [x > y], [x >= y], [x < y] between a fraction and an integer literal. *)
Definition gtb (x : Q) (n : Z) : bool :=
  match (x ?= inject_Z n)%Q with Gt => true | _ => false end.
Definition geb (x : Q) (n : Z) : bool :=
  match (x ?= inject_Z n)%Q with Lt => false | _ => true end.
Definition ltb (x : Q) (n : Z) : bool :=
  match (x ?= inject_Z n)%Q with Lt => true | _ => false end.

(** [hay.includes(needle)]. *)
Fixpoint includes (hay needle : string) : bool :=
  String.prefix needle hay
  || match hay with
     | EmptyString => false
     | String _ rest => includes rest needle
     end.

(** [s.endsWith(suffix)]. *)
Definition endsWith (s suffix : string) : bool :=
  let n := String.length s in
  let m := String.length suffix in
  (m <=? n)%nat && String.eqb (String.substring (n - m) m s) suffix.

(** [xs.includes(x)] on an array of strings. *)
Definition arr_includes (xs : list string) (x : string) : bool :=
  existsb (String.eqb x) xs.

(** [xs.slice(0, n)]. *)
Definition slice0 {A : Type} (n : nat) (xs : list A) : list A := firstn n xs.

(** [xs.length] as a number. *)
Definition len {A : Type} (xs : list A) : Z := Z.of_nat (List.length xs).

(** Stable sort with a comparator [cmp a b] whose sign says whether [a]
    goes before ([< 0]) or after ([> 0]) [b]. *)
Section Sort.
Context {A : Type} (cmp : A -> A -> Z).

Fixpoint insert (x : A) (l : list A) : list A :=
  match l with
  | [] => [x]
  | y :: l' => if cmp x y <=? 0 then x :: l else y :: insert x l'
  end.

Definition sort (l : list A) : list A := fold_right insert [] l.
End Sort.

End JS.

(** ** Objects used as dictionaries *)

Module Rec.

Definition t (V : Type) : Type := list (string * V).

Definition empty {V : Type} : t V := [].

(** [r[k]] ([None] is [undefined]). *)
Fixpoint get {V : Type} (k : string) (r : t V) : option V :=
  match r with
  | [] => None
  | (k', v) :: r' => if String.eqb k k' then Some v else get k r'
  end.

(** [r[k] = v]: an existing key keeps its place, a new key goes last. *)
Fixpoint set {V : Type} (k : string) (v : V) (r : t V) : t V :=
  match r with
  | [] => [(k, v)]
  | (k', v') :: r' =>
      if String.eqb k k' then (k, v) :: r' else (k', v') :: set k v r'
  end.

Definition keys {V : Type} (r : t V) : list string := map fst r.
Definition values {V : Type} (r : t V) : list V := map snd r.
Definition entries {V : Type} (r : t V) : list (string * V) := r.

End Rec.

(** ** Interfaces of [types.ts] *)

(** An ISO date string, represented by its instant in epoch milliseconds. *)
Definition ISODate : Type := Z.

(** [new Date(d).getTime()]. *)
Definition Date_getTime (d : ISODate) : Z := d.

Definition dayMs : Z := 24 * 60 * 60 * 1000.

Module CommitInfo.
Record t : Type := mk {
  hash : string;
  shortHash : string;
  author : string;
  email : string;
  date : ISODate;
  timestamp : Z;
  message : string;
  messageFirstLine : string;
  filesChanged : list string;
  insertions : Z;
  deletions : Z;
  isMerge : bool;
  isRevert : bool;
  isRefactor : bool;
  isFix : bool;
  isFeature : bool
}.
End CommitInfo.

Module FileChurn.
Record t : Type := mk {
  path : string;
  totalCommits : Z;
  totalInsertions : Q;
  totalDeletions : Q;
  netChange : Q;
  authors : list string;
  authorCount : Z;
  firstCommit : ISODate;
  lastCommit : ISODate;
  daysSinceLastChange : Z;
  commitsLast30Days : Z;
  commitsLast90Days : Z;
  churnScore : Z
}.
End FileChurn.

(** ** File churn aggregation *)

Import FileChurn.

(** The record created at the first sight of [file]. *)
Definition newFileChurn (file : string) (commit : CommitInfo.t) : FileChurn.t :=
  {| path := file;
     totalCommits := 0;
     totalInsertions := 0;
     totalDeletions := 0;
     netChange := 0;
     authors := [];
     authorCount := 0;
     firstCommit := CommitInfo.date commit;
     lastCommit := CommitInfo.date commit;
     daysSinceLastChange := 0;
     commitsLast30Days := 0;
     commitsLast90Days := 0;
     churnScore := 0 |}.

(** The body of the inner loop after [const fc = churn[file]]. *)
Definition accumulate (now : Z) (commit : CommitInfo.t) (fc : FileChurn.t)
  : FileChurn.t :=
  let thirtyDaysAgo := now - 30 * 24 * 60 * 60 * 1000 in
  let ninetyDaysAgo := now - 90 * 24 * 60 * 60 * 1000 in
  let nfiles := Z.max (JS.len (CommitInfo.filesChanged commit)) 1 in
  {| path := path fc;
     totalCommits := totalCommits fc + 1;
     totalInsertions :=
       (totalInsertions fc + JS.div (CommitInfo.insertions commit) nfiles)%Q;
     totalDeletions :=
       (totalDeletions fc + JS.div (CommitInfo.deletions commit) nfiles)%Q;
     netChange := netChange fc;
     authors :=
       if JS.arr_includes (authors fc) (CommitInfo.author commit)
       then authors fc
       else authors fc ++ [CommitInfo.author commit];
     authorCount := authorCount fc;
     firstCommit :=
       if Date_getTime (CommitInfo.date commit) <? Date_getTime (firstCommit fc)
       then CommitInfo.date commit else firstCommit fc;
     lastCommit :=
       if Date_getTime (CommitInfo.date commit) >? Date_getTime (lastCommit fc)
       then CommitInfo.date commit else lastCommit fc;
     daysSinceLastChange := daysSinceLastChange fc;
     commitsLast30Days :=
       if CommitInfo.timestamp commit >? thirtyDaysAgo
       then commitsLast30Days fc + 1 else commitsLast30Days fc;
     commitsLast90Days :=
       if CommitInfo.timestamp commit >? ninetyDaysAgo
       then commitsLast90Days fc + 1 else commitsLast90Days fc;
     churnScore := churnScore fc |}.

(** One iteration of [for (const file of commit.filesChanged)]. *)
Definition churnFile (now : Z) (commit : CommitInfo.t)
    (churn : Rec.t FileChurn.t) (file : string) : Rec.t FileChurn.t :=
  let fc :=
    match Rec.get file churn with
    | Some fc => fc
    | None => newFileChurn file commit
    end in
  Rec.set file (accumulate now commit fc) churn.

(** One iteration of [for (const commit of commits)]. *)
Definition churnCommit (now : Z) (churn : Rec.t FileChurn.t)
    (commit : CommitInfo.t) : Rec.t FileChurn.t :=
  fold_left (churnFile now commit) (CommitInfo.filesChanged commit) churn.

(** [calculateChurnScore]: [score] only ever holds a sum of integers;
    [Math.round] is applied to it as to any number. *)
Definition calculateChurnScore (fc : FileChurn.t) : Z :=
  let score := 0 in
  (* Base score from total commits *)
  let score := score + Z.min (totalCommits fc * 2) 30 in
  (* Bonus for multiple authors *)
  let score :=
    if authorCount fc >? 1 then score + (authorCount fc - 1) * 5 else score in
  let score := if authorCount fc >? 3 then score + 10 else score in
  (* Recent activity weight *)
  let score := score + commitsLast30Days fc * 3 in
  let score := score + commitsLast90Days fc * 1 in
  (* High insertion/deletion ratio suggests rewrites *)
  let totalChanges := (totalInsertions fc + totalDeletions fc)%Q in
  let score := if JS.gtb totalChanges 500 then score + 10 else score in
  let score := if JS.gtb totalChanges 1000 then score + 10 else score in
  JS.Math_round (inject_Z score).

(** The body of the second loop, [for (const file of Object.keys(churn))]. *)
Definition deriveChurn (now : Z) (fc : FileChurn.t) : FileChurn.t :=
  let fc1 :=
    {| path := path fc;
       totalCommits := totalCommits fc;
       totalInsertions := totalInsertions fc;
       totalDeletions := totalDeletions fc;
       netChange := (totalInsertions fc - totalDeletions fc)%Q;
       authors := authors fc;
       authorCount := JS.len (authors fc);
       firstCommit := firstCommit fc;
       lastCommit := lastCommit fc;
       daysSinceLastChange :=
         JS.Math_floor (JS.div (now - Date_getTime (lastCommit fc))
                               (24 * 60 * 60 * 1000));
       commitsLast30Days := commitsLast30Days fc;
       commitsLast90Days := commitsLast90Days fc;
       churnScore := churnScore fc |} in
  {| path := path fc1;
     totalCommits := totalCommits fc1;
     totalInsertions := totalInsertions fc1;
     totalDeletions := totalDeletions fc1;
     netChange := netChange fc1;
     authors := authors fc1;
     authorCount := authorCount fc1;
     firstCommit := firstCommit fc1;
     lastCommit := lastCommit fc1;
     daysSinceLastChange := daysSinceLastChange fc1;
     commitsLast30Days := commitsLast30Days fc1;
     commitsLast90Days := commitsLast90Days fc1;
     churnScore := calculateChurnScore fc1 |}.

(** [analyzeFileChurn]; [now] is the value of [Date.now()]. The second loop
    updates every record in place, which leaves the keys and their order as
    they are. *)
Definition analyzeFileChurn (now : Z) (commits : list CommitInfo.t)
  : Rec.t FileChurn.t :=
  let churn := fold_left (churnCommit now) commits Rec.empty in
  map (fun e => (fst e, deriveChurn now (snd e))) churn.

(** ** Remaining interfaces *)

Module AuthorStats.
Record t : Type := mk {
  name : string;
  email : string;
  totalCommits : Z;
  totalInsertions : Z;
  totalDeletions : Z;
  filesOwned : list string;
  filesContributed : list string;
  firstCommit : ISODate;
  lastCommit : ISODate;
  activeDays : Z;
  averageCommitsPerDay : Q
}.
End AuthorStats.

Module Contributor.
Record t : Type := mk {
  author : string;
  commits : Z;
  percent : Z;
  lastCommit : ISODate
}.
End Contributor.

Inductive OwnershipClarity : Type := clear | shared | disputed.

Module FileOwnership.
Record t : Type := mk {
  path : string;
  primaryAuthor : option string;
  primaryAuthorPercent : Z;
  contributors : list Contributor.t;
  ownershipClarity : OwnershipClarity
}.
End FileOwnership.

Inductive RiskLevel : Type := high | medium | low.

Module HotPath.
Record t : Type := mk {
  path : string;
  reason : string;
  churnScore : Z;
  recentCommits : Z;
  authorCount : Z;
  riskLevel : RiskLevel
}.
End HotPath.

Inductive EvidenceType : Type :=
  | high_churn | many_authors | frequent_fixes | recent_rewrites
  | yo_yo_changes.

Module Evidence.
Record t : Type := mk {
  type : EvidenceType;
  detail : string;
  severity : Z
}.
End Evidence.

Module FragileFile.
Record t : Type := mk {
  path : string;
  reasons : list string;
  evidence : list Evidence.t;
  fragileScore : Z;
  recommendation : string
}.
End FragileFile.

Inductive EventType : Type :=
  | ev_commit | ev_burst | ev_quiet_period | ev_ownership_change
  | ev_major_refactor.

Module TimelineEvent.
Record t : Type := mk {
  date : ISODate;
  type : EventType;
  description : string;
  files : option (list string);
  author : option string
}.
End TimelineEvent.

Inductive PatternType : Type :=
  | steady | burst | sporadic | abandoned | active.

Module BusiestPeriod.
Record t : Type := mk {
  start : ISODate;
  end_ : ISODate;
  commits : Z
}.
End BusiestPeriod.

Module CommitPattern.
Record t : Type := mk {
  type : PatternType;
  description : string;
  averageCommitsPerWeek : Q;
  longestGapDays : Z;
  busiestPeriod : option BusiestPeriod.t
}.
End CommitPattern.

(** ** Number formatting in template literals *)

(** [`${n}`] for a number holding an integer. *)
Definition show (n : Z) : string := NilZero.string_of_int (Z.to_int n).

(** [`${k / 10}`] for a non-negative number of tenths: the shortest decimal,
    hence no fractional part when [k] is a multiple of ten. *)
Definition show_tenths (k : Z) : string :=
  if k mod 10 =? 0 then show (k / 10)
  else (show (k / 10) ++ "." ++ show (k mod 10))%string.

(** ** Author aggregation *)

Definition newAuthorStats (commit : CommitInfo.t) : AuthorStats.t :=
  {| AuthorStats.name := CommitInfo.author commit;
     AuthorStats.email := CommitInfo.email commit;
     AuthorStats.totalCommits := 0;
     AuthorStats.totalInsertions := 0;
     AuthorStats.totalDeletions := 0;
     AuthorStats.filesOwned := [];
     AuthorStats.filesContributed := [];
     AuthorStats.firstCommit := CommitInfo.date commit;
     AuthorStats.lastCommit := CommitInfo.date commit;
     AuthorStats.activeDays := 0;
     AuthorStats.averageCommitsPerDay := 0 |}.

(** [for (const file of commit.filesChanged)] pushing the new paths. *)
Definition contribute (files contributed : list string) : list string :=
  fold_left
    (fun acc file => if JS.arr_includes acc file then acc else acc ++ [file])
    files contributed.

Definition authorCommit (stats : Rec.t AuthorStats.t) (commit : CommitInfo.t)
  : Rec.t AuthorStats.t :=
  let key := CommitInfo.author commit in
  let a :=
    match Rec.get key stats with
    | Some a => a
    | None => newAuthorStats commit
    end in
  Rec.set key
    {| AuthorStats.name := AuthorStats.name a;
       AuthorStats.email := AuthorStats.email a;
       AuthorStats.totalCommits := AuthorStats.totalCommits a + 1;
       AuthorStats.totalInsertions :=
         AuthorStats.totalInsertions a + CommitInfo.insertions commit;
       AuthorStats.totalDeletions :=
         AuthorStats.totalDeletions a + CommitInfo.deletions commit;
       AuthorStats.filesOwned := AuthorStats.filesOwned a;
       AuthorStats.filesContributed :=
         contribute (CommitInfo.filesChanged commit)
                    (AuthorStats.filesContributed a);
       AuthorStats.firstCommit :=
         if Date_getTime (CommitInfo.date commit)
            <? Date_getTime (AuthorStats.firstCommit a)
         then CommitInfo.date commit else AuthorStats.firstCommit a;
       AuthorStats.lastCommit :=
         if Date_getTime (CommitInfo.date commit)
            >? Date_getTime (AuthorStats.lastCommit a)
         then CommitInfo.date commit else AuthorStats.lastCommit a;
       AuthorStats.activeDays := AuthorStats.activeDays a;
       AuthorStats.averageCommitsPerDay := AuthorStats.averageCommitsPerDay a |}
    stats.

Definition deriveAuthor (a : AuthorStats.t) : AuthorStats.t :=
  let daySpan :=
    Z.max 1
      (JS.Math_floor
         (JS.div (Date_getTime (AuthorStats.lastCommit a)
                  - Date_getTime (AuthorStats.firstCommit a))
                 (24 * 60 * 60 * 1000))) in
  {| AuthorStats.name := AuthorStats.name a;
     AuthorStats.email := AuthorStats.email a;
     AuthorStats.totalCommits := AuthorStats.totalCommits a;
     AuthorStats.totalInsertions := AuthorStats.totalInsertions a;
     AuthorStats.totalDeletions := AuthorStats.totalDeletions a;
     AuthorStats.filesOwned := AuthorStats.filesOwned a;
     AuthorStats.filesContributed := AuthorStats.filesContributed a;
     AuthorStats.firstCommit := AuthorStats.firstCommit a;
     AuthorStats.lastCommit := AuthorStats.lastCommit a;
     AuthorStats.activeDays := daySpan;
     AuthorStats.averageCommitsPerDay :=
       (inject_Z
          (JS.Math_round
             (JS.div (AuthorStats.totalCommits a) daySpan * 100)) / 100)%Q |}.

(** [analyzeAuthorStats]; the second loop updates every record in place. *)
Definition analyzeAuthorStats (commits : list CommitInfo.t)
  : Rec.t AuthorStats.t :=
  let stats := fold_left authorCommit commits Rec.empty in
  map (fun e => (fst e, deriveAuthor (snd e))) stats.

(** ** Ownership classification *)

(** The value type of the inner tally,
    [{ count: number; lastCommit: string }]. *)
Module Tally.
Record t : Type := mk {
  count : Z;
  lastCommit : ISODate
}.
End Tally.

(** One iteration of the inner tally loop for [file] of [commit]. *)
Definition tallyFile (commit : CommitInfo.t)
    (fileAuthorCommits : Rec.t (Rec.t Tally.t)) (file : string)
  : Rec.t (Rec.t Tally.t) :=
  let byAuthor :=
    match Rec.get file fileAuthorCommits with
    | Some m => m
    | None => Rec.empty
    end in
  let t0 :=
    match Rec.get (CommitInfo.author commit) byAuthor with
    | Some t0 => t0
    | None => {| Tally.count := 0; Tally.lastCommit := CommitInfo.date commit |}
    end in
  let t1 :=
    {| Tally.count := Tally.count t0 + 1;
       Tally.lastCommit :=
         if Date_getTime (CommitInfo.date commit)
            >? Date_getTime (Tally.lastCommit t0)
         then CommitInfo.date commit else Tally.lastCommit t0 |} in
  Rec.set file (Rec.set (CommitInfo.author commit) t1 byAuthor)
    fileAuthorCommits.

Definition tallyCommit (fileAuthorCommits : Rec.t (Rec.t Tally.t))
    (commit : CommitInfo.t) : Rec.t (Rec.t Tally.t) :=
  fold_left (tallyFile commit) (CommitInfo.filesChanged commit)
    fileAuthorCommits.

(** [Math.round((count / totalCommits) * 100)]. *)
Definition percentOf (count totalCommits : Z) : Z :=
  JS.Math_round (JS.div count totalCommits * 100).

(** The full contributor array of one file: mapped, then sorted by
    [(a, b) => b.commits - a.commits]. *)
Definition contributorsOf (authorData : Rec.t Tally.t) (totalCommits : Z)
  : list Contributor.t :=
  JS.sort
    (fun a b => Contributor.commits b - Contributor.commits a)
    (map
       (fun e =>
          {| Contributor.author := fst e;
             Contributor.commits := Tally.count (snd e);
             Contributor.percent := percentOf (Tally.count (snd e)) totalCommits;
             Contributor.lastCommit := Tally.lastCommit (snd e) |})
       (Rec.entries authorData)).

(** [contributors[0].percent < bound], read only once the array is known to
    be non-empty. *)
Definition topPercentBelow (contributors : list Contributor.t) (bound : Z)
  : bool :=
  match contributors with
  | c :: _ => Contributor.percent c <? bound
  | [] => false
  end.

(** The ownership-clarity decision on the full contributor array. *)
Definition clarityOf (contributors : list Contributor.t) : OwnershipClarity :=
  if (JS.len contributors >=? 3) && topPercentBelow contributors 50
  then disputed
  else if (JS.len contributors >=? 2) && topPercentBelow contributors 70
  then shared
  else clear.

(** The record built for one key of [fileChurn]. *)
Definition ownershipOf (fileAuthorCommits : Rec.t (Rec.t Tally.t))
    (file : string) (fc : FileChurn.t) : FileOwnership.t :=
  let authorData :=
    match Rec.get file fileAuthorCommits with
    | Some m => m
    | None => Rec.empty
    end in
  let totalCommits := FileChurn.totalCommits fc in
  let contributors := contributorsOf authorData totalCommits in
  {| FileOwnership.path := file;
     FileOwnership.primaryAuthor :=
       match contributors with
       | c :: _ => Some (Contributor.author c)
       | [] => None
       end;
     FileOwnership.primaryAuthorPercent :=
       match contributors with
       | c :: _ => Contributor.percent c
       | [] => 0
       end;
     FileOwnership.contributors := JS.slice0 5 contributors;
     FileOwnership.ownershipClarity := clarityOf contributors |}.

(** [analyzeFileOwnership]. In the second loop [fileChurn[file]] is read for
    a key of [fileChurn] itself, so the [None] branch is never taken. *)
Definition analyzeFileOwnership (fileChurn : Rec.t FileChurn.t)
    (commits : list CommitInfo.t) : Rec.t FileOwnership.t :=
  let fileAuthorCommits := fold_left tallyCommit commits Rec.empty in
  fold_left
    (fun ownership file =>
       match Rec.get file fileChurn with
       | Some fc =>
           Rec.set file (ownershipOf fileAuthorCommits file fc) ownership
       | None => ownership
       end)
    (Rec.keys fileChurn) Rec.empty.

(** ** Insight derivers *)

(** [if (riskLevel === "low") riskLevel = "medium"]. *)
Definition lowToMedium (riskLevel : RiskLevel) : RiskLevel :=
  match riskLevel with
  | low => medium
  | _ => riskLevel
  end.

Definition isLockfile (path : string) : bool :=
  JS.includes path "package-lock" || JS.includes path "yarn.lock".

(** The reasons and the risk level of one file, as the three [if]
    statements of the loop body leave them. *)
Definition hotReasons (churn : FileChurn.t) : list string * RiskLevel :=
  let reasons : list string := [] in
  let riskLevel := low in
  let '(reasons, riskLevel) :=
    if FileChurn.churnScore churn >? 50 then
      (reasons ++ [("Very high churn (score: "
                    ++ show (FileChurn.churnScore churn) ++ ")")%string],
       high)
    else if FileChurn.churnScore churn >? 30 then
      (reasons ++ [("High churn (score: "
                    ++ show (FileChurn.churnScore churn) ++ ")")%string],
       lowToMedium riskLevel)
    else (reasons, riskLevel) in
  let '(reasons, riskLevel) :=
    if FileChurn.commitsLast30Days churn >=? 5 then
      (reasons ++ [(show (FileChurn.commitsLast30Days churn)
                    ++ " commits in last 30 days")%string],
       high)
    else (reasons, riskLevel) in
  let '(reasons, riskLevel) :=
    if FileChurn.authorCount churn >=? 4 then
      (reasons ++ [(show (FileChurn.authorCount churn)
                    ++ " different authors")%string],
       lowToMedium riskLevel)
    else (reasons, riskLevel) in
  (reasons, riskLevel).

(** One iteration of the loop of [identifyHotPaths]. *)
Definition hotPathStep (hotPaths : list HotPath.t) (e : string * FileChurn.t)
  : list HotPath.t :=
  let '(path, churn) := e in
  if isLockfile path then hotPaths
  else
    let '(reasons, riskLevel) := hotReasons churn in
    if JS.len reasons >? 0 then
      hotPaths ++
        [{| HotPath.path := path;
            HotPath.reason := String.concat "; " reasons;
            HotPath.churnScore := FileChurn.churnScore churn;
            HotPath.recentCommits := FileChurn.commitsLast30Days churn;
            HotPath.authorCount := FileChurn.authorCount churn;
            HotPath.riskLevel := riskLevel |}]
    else hotPaths.

(** The array [hotPaths] before it is sorted and sliced. *)
Definition hotPathCandidates (fileChurn : Rec.t FileChurn.t) : list HotPath.t :=
  fold_left hotPathStep (Rec.entries fileChurn) [].

Definition identifyHotPaths (fileChurn : Rec.t FileChurn.t) : list HotPath.t :=
  JS.slice0 20
    (JS.sort (fun a b => HotPath.churnScore b - HotPath.churnScore a)
       (hotPathCandidates fileChurn)).

Definition identifyStableCore (fileChurn : Rec.t FileChurn.t) : list string :=
  map fst
    (JS.slice0 15
       (JS.sort
          (fun a b => FileChurn.churnScore (snd a) - FileChurn.churnScore (snd b))
          (filter
             (fun e : string * FileChurn.t =>
                let '(path, churn) := e in
                if FileChurn.totalCommits churn <? 2 then false
                else if FileChurn.daysSinceLastChange churn <? 60 then false
                else if FileChurn.churnScore churn >? 15 then false
                else if JS.includes path "config" || JS.endsWith path ".json"
                then false
                else true)
             (Rec.entries fileChurn)))).

(** [x || 0] for [x] a stored count or [undefined]. *)
Definition orZero (x : option Z) : Z :=
  match x with
  | Some n => n
  | None => 0
  end.

(** The fix-commit map built by the first loop of [identifyFragileFiles]. *)
Definition fixCommitsPerFile (commits : list CommitInfo.t) : Rec.t Z :=
  fold_left
    (fun fixes commit =>
       if CommitInfo.isFix commit then
         fold_left
           (fun fixes file =>
              Rec.set file (orZero (Rec.get file fixes) + 1) fixes)
           (CommitInfo.filesChanged commit) fixes
       else fixes)
    commits Rec.empty.

(** [fixCommitsPerFile[path] || 0]. *)
Definition fixesOf (fixes : Rec.t Z) (path : string) : Z :=
  orZero (Rec.get path fixes).

(** The evidence and reason arrays of one file, after the five tests. *)
Definition fragileEvidence (churn : FileChurn.t) (fixes : Z)
  : list Evidence.t * list string :=
  let evidence : list Evidence.t := [] in
  let reasons : list string := [] in
  (* High churn *)
  let '(evidence, reasons) :=
    if FileChurn.churnScore churn >? 40 then
      (evidence ++
         [{| Evidence.type := high_churn;
             Evidence.detail :=
               ("Changed " ++ show (FileChurn.totalCommits churn)
                ++ " times with churn score "
                ++ show (FileChurn.churnScore churn))%string;
             Evidence.severity :=
               Z.min 10
                 (JS.Math_floor (JS.div (FileChurn.churnScore churn) 5)) |}],
       reasons ++ ["Frequently rewritten"])
    else (evidence, reasons) in
  (* Many authors *)
  let '(evidence, reasons) :=
    if FileChurn.authorCount churn >=? 4 then
      (evidence ++
         [{| Evidence.type := many_authors;
             Evidence.detail :=
               (show (FileChurn.authorCount churn)
                ++ " different people have modified this file")%string;
             Evidence.severity := Z.min 10 (FileChurn.authorCount churn) |}],
       reasons ++ ["Unclear ownership"])
    else (evidence, reasons) in
  (* Frequent fixes *)
  let '(evidence, reasons) :=
    if fixes >=? 3 then
      (evidence ++
         [{| Evidence.type := frequent_fixes;
             Evidence.detail :=
               (show fixes ++ " bug fix commits reference this file")%string;
             Evidence.severity := Z.min 10 fixes |}],
       reasons ++ ["Bug-prone"])
    else (evidence, reasons) in
  (* Recent rewrites *)
  let '(evidence, reasons) :=
    if (FileChurn.commitsLast30Days churn >=? 5)
       && (FileChurn.totalCommits churn <=? 10) then
      (evidence ++
         [{| Evidence.type := recent_rewrites;
             Evidence.detail :=
               (show (FileChurn.commitsLast30Days churn) ++ " of "
                ++ show (FileChurn.totalCommits churn)
                ++ " total commits were in last 30 days")%string;
             Evidence.severity := 7 |}],
       reasons ++ ["Recently volatile"])
    else (evidence, reasons) in
  (* Yo-yo changes *)
  let totalChange :=
    (FileChurn.totalInsertions churn + FileChurn.totalDeletions churn)%Q in
  let '(evidence, reasons) :=
    if JS.gtb totalChange 1000 && (FileChurn.totalCommits churn >? 5) then
      (evidence ++
         [{| Evidence.type := yo_yo_changes;
             Evidence.detail :=
               (show (JS.Math_round totalChange) ++ " lines changed across "
                ++ show (FileChurn.totalCommits churn) ++ " commits")%string;
             Evidence.severity :=
               Z.min 10 (JS.Math_floor (totalChange / 200)%Q) |}],
       reasons ++ ["Heavily modified"])
    else (evidence, reasons) in
  (evidence, reasons).

(** The recommendation of a fragile file: a default and two assignments. *)
Definition recommend (authorCount fixes : Z) : string :=
  let recommendation := "Review this file for potential refactoring." in
  let recommendation :=
    if authorCount >=? 4
    then "Assign clear ownership and document expected behavior."
    else recommendation in
  let recommendation :=
    if fixes >=? 3
    then "Add comprehensive tests and consider a rewrite."
    else recommendation in
  recommendation.

(** One iteration of the second loop of [identifyFragileFiles]. *)
Definition fragileStep (fixes : Rec.t Z) (fragileFiles : list FragileFile.t)
    (e : string * FileChurn.t) : list FragileFile.t :=
  let '(path, churn) := e in
  let fixes := fixesOf fixes path in
  let '(evidence, reasons) := fragileEvidence churn fixes in
  if JS.len evidence >? 0 then
    let fragileScore :=
      fold_left (fun sum e => sum + Evidence.severity e) evidence 0 in
    fragileFiles ++
      [{| FragileFile.path := path;
          FragileFile.reasons := reasons;
          FragileFile.evidence := evidence;
          FragileFile.fragileScore := fragileScore;
          FragileFile.recommendation :=
            recommend (FileChurn.authorCount churn) fixes |}]
  else fragileFiles.

(** The array [fragileFiles] before it is sorted and sliced. *)
Definition fragileCandidates (fileChurn : Rec.t FileChurn.t)
    (commits : list CommitInfo.t) : list FragileFile.t :=
  fold_left (fragileStep (fixCommitsPerFile commits)) (Rec.entries fileChurn) [].

(** [identifyFragileFiles]; the body never reads [fileOwnership[path]]
    beyond binding it. *)
Definition identifyFragileFiles (fileChurn : Rec.t FileChurn.t)
    (fileOwnership : Rec.t FileOwnership.t) (commits : list CommitInfo.t)
  : list FragileFile.t :=
  JS.slice0 20
    (JS.sort (fun a b => FragileFile.fragileScore b - FragileFile.fragileScore a)
       (fragileCandidates fileChurn commits)).

(** ** Commit pattern *)

(** The pairs [(commits[i], commits[i + 1])] for [i < commits.length - 1]. *)
Definition adjacent {A : Type} (l : list A) : list (A * A) :=
  combine l (tl l).

(** The loop that finds the longest gap, in whole days. *)
Definition longestGap (commits : list CommitInfo.t) : Z :=
  fold_left
    (fun longestGapDays p =>
       let gap :=
         JS.div (CommitInfo.timestamp (fst p) - CommitInfo.timestamp (snd p))
                (24 * 60 * 60 * 1000) in
       if JS.gtb gap longestGapDays then JS.Math_floor gap else longestGapDays)
    (adjacent commits) 0.

(** [new Date(ms).toISOString().split("T")[0]]: the UTC day of an instant,
    represented by its midnight. *)
Definition isoDay (ms : Z) : ISODate := ms / dayMs * dayMs.

(** The sliding-window loop: the state is [(busiestPeriod, maxCommits)]. *)
Definition busiest (commits : list CommitInfo.t)
  : option BusiestPeriod.t * Z :=
  fold_left
    (fun st ci =>
       let '(busiestPeriod, maxCommits) := st in
       let windowEnd := CommitInfo.timestamp ci in
       let windowStart := windowEnd - 30 * 24 * 60 * 60 * 1000 in
       let windowCommits :=
         filter
           (fun c =>
              (CommitInfo.timestamp c >=? windowStart)
              && (CommitInfo.timestamp c <=? windowEnd))
           commits in
       if JS.len windowCommits >? maxCommits then
         (Some {| BusiestPeriod.start := isoDay windowStart;
                  BusiestPeriod.end_ := isoDay windowEnd;
                  BusiestPeriod.commits := JS.len windowCommits |},
          JS.len windowCommits)
       else st)
    commits (None, 0).

(** [Math.round((commits.length / weekSpan) * 10)], the average in tenths of
    a commit per week. The two timestamps and their difference are integers
    that a double holds exactly; each of the three divisions and the
    multiplication yields the double nearest to its exact result. *)
Definition averageTenths (commits : list CommitInfo.t)
    (newest : CommitInfo.t) : Z :=
  let firstCommit := last commits newest in
  let daySpan :=
    Qmax 1
      (JS.double
         (JS.div
            (CommitInfo.timestamp newest - CommitInfo.timestamp firstCommit)
            (24 * 60 * 60 * 1000))) in
  let weekSpan := JS.double (daySpan / 7) in
  JS.Math_round
    (JS.double (JS.double (inject_Z (JS.len commits) / weekSpan) * 10)).

(** [analyzeCommitPattern]; [now] is the value of [Date.now()]. *)
Definition analyzeCommitPattern (now : Z) (commits : list CommitInfo.t)
  : CommitPattern.t :=
  match commits with
  | [] =>
      {| CommitPattern.type := abandoned;
         CommitPattern.description := "No commits found";
         CommitPattern.averageCommitsPerWeek := 0;
         CommitPattern.longestGapDays := 0;
         CommitPattern.busiestPeriod := None |}
  | newest :: _ =>
      let lastCommitAge :=
        JS.div (now - CommitInfo.timestamp newest) (24 * 60 * 60 * 1000) in
      (* Check if abandoned *)
      if JS.gtb lastCommitAge 180 then
        {| CommitPattern.type := abandoned;
           CommitPattern.description :=
             ("No commits in " ++ show (JS.Math_floor lastCommitAge)
              ++ " days")%string;
           CommitPattern.averageCommitsPerWeek := 0;
           CommitPattern.longestGapDays := JS.Math_floor lastCommitAge;
           CommitPattern.busiestPeriod := None |}
      else
        let tenths := averageTenths commits newest in
        let averageCommitsPerWeek := (inject_Z tenths / 10)%Q in
        let longestGapDays := longestGap commits in
        let busiestPeriod := fst (busiest commits) in
        let '(type, description) :=
          if JS.geb averageCommitsPerWeek 5 then
            (active,
             ("Highly active with ~" ++ show_tenths tenths
              ++ " commits/week")%string)
          else if JS.geb averageCommitsPerWeek 1 then
            (steady,
             ("Steady development with ~" ++ show_tenths tenths
              ++ " commits/week")%string)
          else if longestGapDays >? 30 then
            (sporadic,
             ("Sporadic activity with gaps up to " ++ show longestGapDays
              ++ " days")%string)
          else
            (burst,
             ("Development in bursts, currently "
              ++ (if JS.ltb lastCommitAge 7 then "active" else "quiet"))%string)
        in
        {| CommitPattern.type := type;
           CommitPattern.description := description;
           CommitPattern.averageCommitsPerWeek := averageCommitsPerWeek;
           CommitPattern.longestGapDays := longestGapDays;
           CommitPattern.busiestPeriod := busiestPeriod |}
  end.

(** ** Timeline *)

(** The event pushed for a commit that is not a merge. *)
Definition commitEvent (commit : CommitInfo.t) : TimelineEvent.t :=
  let type := ev_commit in
  let description := CommitInfo.messageFirstLine commit in
  let '(type, description) :=
    if CommitInfo.isRefactor commit then
      (ev_major_refactor,
       ("Refactor: " ++ CommitInfo.messageFirstLine commit)%string)
    else (type, description) in
  let description :=
    if JS.len (CommitInfo.filesChanged commit) >? 10 then
      ("Large change (" ++ show (JS.len (CommitInfo.filesChanged commit))
       ++ " files): " ++ CommitInfo.messageFirstLine commit)%string
    else description in
  {| TimelineEvent.date := CommitInfo.date commit;
     TimelineEvent.type := type;
     TimelineEvent.description := description;
     TimelineEvent.files := Some (JS.slice0 5 (CommitInfo.filesChanged commit));
     TimelineEvent.author := Some (CommitInfo.author commit) |}.

(** The first loop: [for (const commit of commits.slice(0, 20))]. *)
Definition recentEvents (commits : list CommitInfo.t) : list TimelineEvent.t :=
  fold_left
    (fun events commit =>
       if CommitInfo.isMerge commit then events
       else events ++ [commitEvent commit])
    (JS.slice0 20 commits) [].

(** The second loop, appending the quiet periods to [events]. *)
Definition quietEvents (commits : list CommitInfo.t)
    (events : list TimelineEvent.t) : list TimelineEvent.t :=
  fold_left
    (fun events p =>
       let gap :=
         JS.div (CommitInfo.timestamp (fst p) - CommitInfo.timestamp (snd p))
                (24 * 60 * 60 * 1000) in
       if JS.gtb gap 14 then
         events ++
           [{| TimelineEvent.date := CommitInfo.date (snd p);
               TimelineEvent.type := ev_quiet_period;
               TimelineEvent.description :=
                 (show (JS.Math_floor gap) ++ " day gap in development")%string;
               TimelineEvent.files := None;
               TimelineEvent.author := None |}]
       else events)
    (adjacent commits) events.

Definition buildTimeline (commits : list CommitInfo.t)
    (fileChurn : Rec.t FileChurn.t) : list TimelineEvent.t :=
  JS.sort
    (fun a b =>
       Date_getTime (TimelineEvent.date b) - Date_getTime (TimelineEvent.date a))
    (quietEvents commits (recentEvents commits)).

(** ** The aggregate root *)

Module DateRange.
Record t : Type := mk {
  start : ISODate;
  end_ : ISODate
}.
End DateRange.

Module GitHistory.
Record t : Type := mk {
  historyVersion : string;
  analyzedAt : ISODate;
  repoPath : string;
  totalCommits : Z;
  totalAuthors : Z;
  firstCommit : option CommitInfo.t;
  lastCommit : option CommitInfo.t;
  dateRange : option DateRange.t;
  fileChurn : Rec.t FileChurn.t;
  fileOwnership : Rec.t FileOwnership.t;
  authorStats : Rec.t AuthorStats.t;
  hotPaths : list HotPath.t;
  stableCore : list string;
  fragileFiles : list FragileFile.t;
  commitPattern : CommitPattern.t;
  recentCommits : list CommitInfo.t;
  timeline : list TimelineEvent.t;
  highChurnFiles : list string;
  multiAuthorFiles : list string;
  recentlyFragile : list string
}.
End GitHistory.

(** ** Promises and exceptions *)

(** The outcome of an awaited call: a value, or a thrown error. *)
Inductive Outcome (A : Type) : Type :=
  | Resolved (value : A)
  | Rejected (error : string).
Arguments Resolved {A} value.
Arguments Rejected {A} error.

Definition bind {A B : Type} (m : Outcome A) (k : A -> Outcome B) : Outcome B :=
  match m with
  | Resolved a => k a
  | Rejected e => Rejected e
  end.

Notation "x <- m ;; k" := (bind m (fun x => k))
  (at level 61, m at next level, right associativity).


(** A loop whose body may throw: the iterations run in order from the
    state [init], and the first one that throws ends the loop. *)
Fixpoint foldM {A B : Type} (body : A -> B -> Outcome A) (l : list B)
    (init : A) : Outcome A :=
  match l with
  | [] => Resolved init
  | b :: l' => state <- body init b ;; foldM body l' state
  end.

(** ** The outside world of one analysis run *)

Module LogEntry.
Record t : Type := mk {
  hash : string;
  date : ISODate;
  message : string;
  author_name : string;
  author_email : string
}.
End LogEntry.

Module LogResult.
Record t : Type := mk {
  all : list LogEntry.t;
  total : Z
}.
End LogResult.

(** What the two regular expressions capture in the output of
    [git diff --stat]: the number before [insertion(s)(+)] and the number
    before [deletion(s)(-)], when present. *)
Module StatMatch.
Record t : Type := mk {
  statsMatch : option Z;
  delMatch : option Z
}.
End StatMatch.

Module World.
Record t : Type := mk {
  (** [fs.existsSync(path.join(repoPath, ".git"))] *)
  gitDirExists : bool;
  (** [git.log({ maxCount: 1000, "--stat": null })] *)
  log : Outcome LogResult.t;
  (** [git.diff([hash^, hash, "--name-only"])], by hash *)
  diffNameOnly : string -> Outcome string;
  (** [git.diff([hash^, hash, "--stat", ...])], by hash, already matched *)
  diffStat : string -> Outcome StatMatch.t;
  (** [Date.now()] as read by [analyzeFileChurn] *)
  nowChurn : Z;
  (** [Date.now()] as read by [analyzeCommitPattern] *)
  nowPattern : Z;
  (** [new Date().toISOString()] *)
  nowAnalyzed : ISODate
}.
End World.

(** ** Commit extraction *)

Definition lowerAscii (c : Ascii.ascii) : Ascii.ascii :=
  let n := Ascii.nat_of_ascii c in
  if ((65 <=? n) && (n <=? 90))%nat then Ascii.ascii_of_nat (n + 32) else c.

(** [s.toLowerCase()], on the ASCII letters. *)
Fixpoint toLowerCase (s : string) : string :=
  match s with
  | EmptyString => EmptyString
  | String c rest => String (lowerAscii c) (toLowerCase rest)
  end.

Definition newline : Ascii.ascii := Ascii.ascii_of_nat 10.

(** [s.split("\n")], with the line being read carried in [line]. *)
Fixpoint splitLines (line : string) (s : string) : list string :=
  match s with
  | EmptyString => [line]
  | String c rest =>
      if Ascii.eqb c newline then line :: splitLines EmptyString rest
      else splitLines (line ++ String c EmptyString)%string rest
  end.

Definition split_newline (s : string) : list string := splitLines EmptyString s.

(** The [try]/[catch] around the two diffs of one log entry: the file list
    and the two totals as they stand when the block is left. *)
Definition changesOf (w : World.t) (hash : string) : list string * Z * Z :=
  match World.diffNameOnly w hash with
  | Rejected _ => ([], 0, 0)
  | Resolved diff =>
      let filesChanged :=
        filter (fun f => negb (JS.includes f "node_modules"))
          (filter (fun f => negb (String.eqb f "")) (split_newline diff)) in
      match World.diffStat w hash with
      | Rejected _ => (filesChanged, 0, 0)
      | Resolved stats =>
          (filesChanged,
           match StatMatch.statsMatch stats with Some n => n | None => 0 end,
           match StatMatch.delMatch stats with Some n => n | None => 0 end)
      end
  end.

(** One iteration of the loop of [processCommits]: the record pushed for
    [entry]. *)
Definition processEntry (w : World.t) (entry : LogEntry.t) : CommitInfo.t :=
  let '(filesChanged, insertions, deletions) :=
    changesOf w (LogEntry.hash entry) in
  let message := LogEntry.message entry in
  let messageLower := toLowerCase message in
  {| CommitInfo.hash := LogEntry.hash entry;
     CommitInfo.shortHash := String.substring 0 7 (LogEntry.hash entry);
     CommitInfo.author := LogEntry.author_name entry;
     CommitInfo.email := LogEntry.author_email entry;
     CommitInfo.date := LogEntry.date entry;
     CommitInfo.timestamp := Date_getTime (LogEntry.date entry);
     CommitInfo.message := message;
     CommitInfo.messageFirstLine := hd EmptyString (split_newline message);
     CommitInfo.filesChanged := filesChanged;
     CommitInfo.insertions := insertions;
     CommitInfo.deletions := deletions;
     CommitInfo.isMerge := String.prefix "merge" (toLowerCase message);
     CommitInfo.isRevert := JS.includes messageLower "revert";
     CommitInfo.isRefactor := JS.includes messageLower "refactor";
     CommitInfo.isFix :=
       JS.includes messageLower "fix" || JS.includes messageLower "bug";
     CommitInfo.isFeature :=
       JS.includes messageLower "feat" || JS.includes messageLower "add"
       || JS.includes messageLower "implement" |}.

(** [processCommits]: the inner [try] catches every rejection, so the
    promise always resolves. *)
Definition processCommits (w : World.t) (log : LogResult.t)
  : Outcome (list CommitInfo.t) :=
  Resolved
    (fold_left (fun commits entry => commits ++ [processEntry w entry])
       (LogResult.all log) []).

(** ** The analysis *)

(** The [recentlyFragile] quick lookup, from the value of [fragileFiles]. *)
Definition recentlyFragileOf (fragileFiles : list FragileFile.t) : list string :=
  map FragileFile.path
    (JS.slice0 10
       (filter (fun f => FragileFile.fragileScore f >? 5) fragileFiles)).

(** The rest of the [try] block of [analyzeGitHistory], once the commits
    are processed: the passes, the quick lookups and the aggregate. *)
Definition buildHistory (w : World.t) (repoPath : string)
    (commits : list CommitInfo.t) : GitHistory.t :=
  let fileChurn := analyzeFileChurn (World.nowChurn w) commits in
  let authorStats := analyzeAuthorStats commits in
  let fileOwnership := analyzeFileOwnership fileChurn commits in
  let hotPaths := identifyHotPaths fileChurn in
  let stableCore := identifyStableCore fileChurn in
  let fragileFiles := identifyFragileFiles fileChurn fileOwnership commits in
  let commitPattern := analyzeCommitPattern (World.nowPattern w) commits in
  let timeline := buildTimeline commits fileChurn in
  let highChurnFiles :=
    map FileChurn.path
      (JS.slice0 10
         (JS.sort (fun a b => FileChurn.churnScore b - FileChurn.churnScore a)
            (Rec.values fileChurn))) in
  let multiAuthorFiles :=
    map FileChurn.path
      (filter (fun f => FileChurn.authorCount f >=? 3) (Rec.values fileChurn)) in
  let recentlyFragile := recentlyFragileOf fragileFiles in
  {| GitHistory.historyVersion := "1.0";
     GitHistory.analyzedAt := World.nowAnalyzed w;
     GitHistory.repoPath := repoPath;
     GitHistory.totalCommits := JS.len commits;
     GitHistory.totalAuthors := JS.len (Rec.keys authorStats);
     GitHistory.firstCommit :=
       match commits with [] => None | c :: _ => Some (last commits c) end;
     GitHistory.lastCommit :=
       match commits with [] => None | c :: _ => Some c end;
     GitHistory.dateRange :=
       match commits with
       | [] => None
       | c :: _ =>
           Some {| DateRange.start := CommitInfo.date (last commits c);
                   DateRange.end_ := CommitInfo.date c |}
       end;
     GitHistory.fileChurn := fileChurn;
     GitHistory.fileOwnership := fileOwnership;
     GitHistory.authorStats := authorStats;
     GitHistory.hotPaths := hotPaths;
     GitHistory.stableCore := stableCore;
     GitHistory.fragileFiles := fragileFiles;
     GitHistory.commitPattern := commitPattern;
     GitHistory.recentCommits := JS.slice0 50 commits;
     GitHistory.timeline := timeline;
     GitHistory.highChurnFiles := highChurnFiles;
     GitHistory.multiAuthorFiles := multiAuthorFiles;
     GitHistory.recentlyFragile := recentlyFragile |}.

(** ** Lookups that reach [Object.prototype] *)

(** The names that a lookup finds in every plain object, whatever its own
    keys: the properties of [Object.prototype]. *)
Definition inheritedProperty (key : string) : bool :=
  existsb (String.eqb key)
    ["constructor"; "hasOwnProperty"; "isPrototypeOf";
     "propertyIsEnumerable"; "toLocaleString"; "toString"; "valueOf";
     "__proto__"; "__defineGetter__"; "__defineSetter__";
     "__lookupGetter__"; "__lookupSetter__"].

(** The two passes that build a dictionary keyed by names taken from the
    log, as the engine runs them. [churn] and [stats] are plain objects, so
    that [churn[file]] and [stats[key]] find an inherited property when the
    object has no such key of its own. The definitions of the same name
    outside this module are what these do on every other key. *)
Module Run.

(** One iteration of [for (const file of commit.filesChanged)] in
    [analyzeFileChurn]. When [churn] has no key [file] and [file] names an
    inherited property, [!churn[file]] is false and no record is created;
    [fc] is that property, a function or the prototype itself, to which the
    three updates add properties; then [fc.authors] is [undefined] and
    [fc.authors.includes] throws a [TypeError]. *)
Definition churnFile (now : Z) (commit : CommitInfo.t)
    (churn : Rec.t FileChurn.t) (file : string) : Outcome (Rec.t FileChurn.t) :=
  match Rec.get file churn with
  | Some _ => Resolved (churnFile now commit churn file)
  | None =>
      if inheritedProperty file then Rejected "TypeError"
      else Resolved (churnFile now commit churn file)
  end.

Definition churnCommit (now : Z) (churn : Rec.t FileChurn.t)
    (commit : CommitInfo.t) : Outcome (Rec.t FileChurn.t) :=
  foldM (churnFile now commit) (CommitInfo.filesChanged commit) churn.

(** [analyzeFileChurn(commits)]. *)
Definition analyzeFileChurn (now : Z) (commits : list CommitInfo.t)
  : Outcome (Rec.t FileChurn.t) :=
  churn <- foldM (churnCommit now) commits Rec.empty ;;
  Resolved (map (fun e => (fst e, deriveChurn now (snd e))) churn).

(** One iteration of [for (const commit of commits)] in
    [analyzeAuthorStats]. When [stats] has no key [commit.author] and the
    name is that of an inherited property, no record is created and
    [author] is that property: the three updates add properties to it;
    [author.filesContributed] is [undefined], so that the first iteration of
    the loop over [commit.filesChanged] throws a [TypeError]; with no file
    to loop over, both date tests compare with an invalid date and are
    false, and [stats] is left as it was. *)
Definition authorCommit (stats : Rec.t AuthorStats.t) (commit : CommitInfo.t)
  : Outcome (Rec.t AuthorStats.t) :=
  match Rec.get (CommitInfo.author commit) stats with
  | Some _ => Resolved (authorCommit stats commit)
  | None =>
      if inheritedProperty (CommitInfo.author commit) then
        match CommitInfo.filesChanged commit with
        | [] => Resolved stats
        | _ :: _ => Rejected "TypeError"
        end
      else Resolved (authorCommit stats commit)
  end.

(** [analyzeAuthorStats(commits)]. *)
Definition analyzeAuthorStats (commits : list CommitInfo.t)
  : Outcome (Rec.t AuthorStats.t) :=
  stats <- foldM authorCommit commits Rec.empty ;;
  Resolved (map (fun e => (fst e, deriveAuthor (snd e))) stats).

End Run.

(** The [try] block of [analyzeGitHistory] from the ownership pass on, given
    the two dictionaries built before it. The later passes index their
    dictionaries by the changed paths and by the authors of commits with
    changed paths, which are ordinary names once the first two passes have
    returned. *)
Definition aggregate (w : World.t) (repoPath : string)
    (commits : list CommitInfo.t) (fileChurn : Rec.t FileChurn.t)
    (authorStats : Rec.t AuthorStats.t) : GitHistory.t :=
  let fileOwnership := analyzeFileOwnership fileChurn commits in
  let hotPaths := identifyHotPaths fileChurn in
  let stableCore := identifyStableCore fileChurn in
  let fragileFiles := identifyFragileFiles fileChurn fileOwnership commits in
  let commitPattern := analyzeCommitPattern (World.nowPattern w) commits in
  let timeline := buildTimeline commits fileChurn in
  let highChurnFiles :=
    map FileChurn.path
      (JS.slice0 10
         (JS.sort (fun a b => FileChurn.churnScore b - FileChurn.churnScore a)
            (Rec.values fileChurn))) in
  let multiAuthorFiles :=
    map FileChurn.path
      (filter (fun f => FileChurn.authorCount f >=? 3) (Rec.values fileChurn)) in
  let recentlyFragile := recentlyFragileOf fragileFiles in
  {| GitHistory.historyVersion := "1.0";
     GitHistory.analyzedAt := World.nowAnalyzed w;
     GitHistory.repoPath := repoPath;
     GitHistory.totalCommits := JS.len commits;
     GitHistory.totalAuthors := JS.len (Rec.keys authorStats);
     GitHistory.firstCommit :=
       match commits with [] => None | c :: _ => Some (last commits c) end;
     GitHistory.lastCommit :=
       match commits with [] => None | c :: _ => Some c end;
     GitHistory.dateRange :=
       match commits with
       | [] => None
       | c :: _ =>
           Some {| DateRange.start := CommitInfo.date (last commits c);
                   DateRange.end_ := CommitInfo.date c |}
       end;
     GitHistory.fileChurn := fileChurn;
     GitHistory.fileOwnership := fileOwnership;
     GitHistory.authorStats := authorStats;
     GitHistory.hotPaths := hotPaths;
     GitHistory.stableCore := stableCore;
     GitHistory.fragileFiles := fragileFiles;
     GitHistory.commitPattern := commitPattern;
     GitHistory.recentCommits := JS.slice0 50 commits;
     GitHistory.timeline := timeline;
     GitHistory.highChurnFiles := highChurnFiles;
     GitHistory.multiAuthorFiles := multiAuthorFiles;
     GitHistory.recentlyFragile := recentlyFragile |}.


(** ** The analysis cache ([cache.ts]) *)

(** [RepoAnalysis] and [RepoSnapshot] are the types of the other two cached
    values; the cache never looks inside them. *)
Module CachedRepo.
Record t (Analysis Snapshot : Type) : Type := mk {
  analysis : Analysis;
  snapshot : Snapshot;
  history : option GitHistory.t
}.
Arguments mk {Analysis Snapshot} analysis snapshot history.
Arguments analysis {Analysis Snapshot} t.
Arguments snapshot {Analysis Snapshot} t.
Arguments history {Analysis Snapshot} t.
End CachedRepo.

(** The class [RepoCache]: its two private fields, and each method as a
    function of the object it is called on. A [Map<string, CachedRepo>]
    keeps its keys in insertion order and replaces the value of a key it
    already holds, as [Rec.set] does. *)
Module RepoCache.
Record t (Analysis Snapshot : Type) : Type := mk {
  cache : Rec.t (CachedRepo.t Analysis Snapshot);
  lastAnalyzedPath : option string
}.
Arguments mk {Analysis Snapshot} cache lastAnalyzedPath.
Arguments cache {Analysis Snapshot} t.
Arguments lastAnalyzedPath {Analysis Snapshot} t.

(** [new RepoCache()]. *)
Definition new {Analysis Snapshot : Type} : t Analysis Snapshot :=
  {| cache := Rec.empty; lastAnalyzedPath := None |}.

Definition set {Analysis Snapshot : Type} (path : string)
    (analysis : Analysis) (snapshot : Snapshot)
    (history : option GitHistory.t) (this : t Analysis Snapshot)
  : t Analysis Snapshot :=
  {| cache :=
       Rec.set path
         {| CachedRepo.analysis := analysis;
            CachedRepo.snapshot := snapshot;
            CachedRepo.history := history |}
         (cache this);
     lastAnalyzedPath := Some path |}.

(** A string or [null]/[undefined] read as a condition: the empty string is
    as false as an absent one. *)
Definition truthy (s : option string) : option string :=
  match s with
  | Some EmptyString => None
  | Some p => Some p
  | None => None
  end.

(** [const targetPath = path || this.lastAnalyzedPath], then
    [if (!targetPath) return null]: the key to look up, if any. *)
Definition targetPath {Analysis Snapshot : Type} (path : option string)
    (this : t Analysis Snapshot) : option string :=
  truthy
    match truthy path with
    | Some p => Some p
    | None => lastAnalyzedPath this
    end.

(** [this.cache.get(targetPath)?.analysis || null]: an analysis is an
    object, hence never replaced by [null]. *)
Definition get {Analysis Snapshot : Type} (path : option string)
    (this : t Analysis Snapshot) : option Analysis :=
  match targetPath path this with
  | None => None
  | Some p => option_map CachedRepo.analysis (Rec.get p (cache this))
  end.

Definition getSnapshot {Analysis Snapshot : Type} (path : option string)
    (this : t Analysis Snapshot) : option Snapshot :=
  match targetPath path this with
  | None => None
  | Some p => option_map CachedRepo.snapshot (Rec.get p (cache this))
  end.

(** [this.cache.get(targetPath)?.history || null]. *)
Definition getHistory {Analysis Snapshot : Type} (path : option string)
    (this : t Analysis Snapshot) : option GitHistory.t :=
  match targetPath path this with
  | None => None
  | Some p =>
      match Rec.get p (cache this) with
      | Some entry => CachedRepo.history entry
      | None => None
      end
  end.

Definition getCached {Analysis Snapshot : Type} (path : option string)
    (this : t Analysis Snapshot) : option (CachedRepo.t Analysis Snapshot) :=
  match targetPath path this with
  | None => None
  | Some p => Rec.get p (cache this)
  end.

Definition getLastPath {Analysis Snapshot : Type}
    (this : t Analysis Snapshot) : option string :=
  lastAnalyzedPath this.

Definition has {Analysis Snapshot : Type} (path : string)
    (this : t Analysis Snapshot) : bool :=
  match Rec.get path (cache this) with
  | Some _ => true
  | None => false
  end.

Definition clear {Analysis Snapshot : Type} (this : t Analysis Snapshot)
  : t Analysis Snapshot :=
  {| cache := Rec.empty; lastAnalyzedPath := None |}.
End RepoCache.

(** ** The history question tool ([get-history.ts]) *)

(** The characters that a Rocq string cannot hold as they are. *)
Definition dq : string := String (Ascii.ascii_of_nat 34) EmptyString.
Definition nl : string := String newline EmptyString.

(** An [OwnershipClarity] in a template literal: the string it is. *)
Definition clarityText (clarity : OwnershipClarity) : string :=
  match clarity with
  | clear => "clear"
  | shared => "shared"
  | disputed => "disputed"
  end.

(** [primaryAuthor || "None"]. *)
Definition orNone (author : option string) : string :=
  match author with
  | Some EmptyString => "None"
  | Some a => a
  | None => "None"
  end.

(** [whyIsThisWeird] fills one array, [lines], by successive [push]es and
    joins it at the end. The array is given here block by block: each of
    the three definitions below lists what one block of the function
    pushes, in order, and [reportLines] is the array before the final
    [join]. *)

(** The initial element, the second line and the block
    [// Churn analysis]. *)
Definition changeHistoryLines (filePath : string) (churn : FileChurn.t)
  : list string :=
  let lines := [("# Why is " ++ dq ++ filePath ++ dq
                 ++ " the way it is?" ++ nl)%string] in
  let lines := lines ++ [("*Based on git history analysis*" ++ nl)%string] in
  let lines := lines ++ ["## Change History"] in
  let lines :=
    lines ++ [("- **Total commits:** "
               ++ show (FileChurn.totalCommits churn))%string] in
  let lines :=
    lines ++ [("- **Authors:** " ++ show (FileChurn.authorCount churn)
               ++ " (" ++ String.concat ", " (FileChurn.authors churn)
               ++ ")")%string] in
  let lines :=
    lines ++ [("- **Churn score:** " ++ show (FileChurn.churnScore churn)
               ++ " "
               ++ (if FileChurn.churnScore churn >? 40 then "‚ö†Ô∏è HIGH"
                   else if FileChurn.churnScore churn >? 20 then "üü° MEDIUM"
                   else "üü¢ LOW"))%string] in
  let lines :=
    lines ++ [("- **Last changed:** "
               ++ show (FileChurn.daysSinceLastChange churn)
               ++ " days ago")%string] in
  let lines :=
    lines ++ [("- **Recent activity:** "
               ++ show (FileChurn.commitsLast30Days churn)
               ++ " commits in last 30 days")%string] in
  lines ++ [""].

(** The block [// If it's weird, explain why]. *)
Definition verdictLines (churn : FileChurn.t) (fragile : option FragileFile.t)
  : list string :=
  if (FileChurn.churnScore churn >? 30)
     || (FileChurn.authorCount churn >=? 3)
     || (match fragile with Some _ => true | None => false end)
  then
    let lines := [("## üîç Why It's Unusual" ++ nl)%string] in
    let lines :=
      if FileChurn.totalCommits churn >? 20 then
        (lines
         ++ [("**Heavily modified:** This file has been changed "
              ++ show (FileChurn.totalCommits churn)
              ++ " times. That's a lot of iterations - the requirements may have been unclear or the implementation keeps needing fixes.")%string])
        ++ [""]
      else lines in
    let lines :=
      if FileChurn.authorCount churn >=? 3 then
        (lines
         ++ [("**Many hands:** " ++ show (FileChurn.authorCount churn)
              ++ " different people have modified this file. Shared ownership can lead to inconsistent patterns and "
              ++ dq ++ "design by committee" ++ dq ++ " code.")%string])
        ++ [""]
      else lines in
    let lines :=
      if FileChurn.commitsLast30Days churn >=? 5 then
        (lines
         ++ [("**Currently volatile:** "
              ++ show (FileChurn.commitsLast30Days churn)
              ++ " commits in the last 30 days suggests active work or recent problems being addressed.")%string])
        ++ [""]
      else lines in
    match fragile with
    | Some fragile =>
        ((lines
          ++ [("**Identified as fragile:** "
               ++ String.concat ", " (FragileFile.reasons fragile))%string])
         ++ [(nl ++ "**Recommendation:** "
              ++ FragileFile.recommendation fragile)%string])
        ++ [""]
    | None => lines
    end
  else
    [("## ‚úÖ This file looks healthy" ++ nl)%string;
     "No significant concerns detected. The file has normal change patterns."].

(** The block [// Ownership]. *)
Definition ownershipLines (ownership : option FileOwnership.t) : list string :=
  match ownership with
  | Some ownership =>
      let lines := ["## Ownership"] in
      let lines :=
        lines ++ [("- **Primary author:** "
                   ++ orNone (FileOwnership.primaryAuthor ownership)
                   ++ " ("
                   ++ show (FileOwnership.primaryAuthorPercent ownership)
                   ++ "%)")%string] in
      let lines :=
        lines ++ [("- **Ownership clarity:** "
                   ++ clarityText (FileOwnership.ownershipClarity ownership))%string] in
      match FileOwnership.ownershipClarity ownership with
      | disputed =>
          lines ++ [(nl ++ "‚ö†Ô∏è No clear owner - consider assigning ownership.")%string]
      | _ => lines
      end
  | None => []
  end.

Definition reportLines (filePath : string) (churn : FileChurn.t)
    (ownership : option FileOwnership.t) (fragile : option FragileFile.t)
  : list string :=
  (changeHistoryLines filePath churn ++ verdictLines churn fragile)
  ++ ownershipLines ownership.

(** [whyIsThisWeird], with the module-level [repoCache] it reads as an
    argument. [filePath] is an argument, not a key of the dictionary: when
    [history.fileChurn] has no such key and [filePath] names an inherited
    property, [churn] is that property (a function, or the prototype
    itself), which passes the test [!churn] and has no [authors], so that
    [churn.authors.join] throws a [TypeError] and the promise rejects. When
    [history.fileChurn] has the key, the convention on keys makes the
    lookup in [history.fileOwnership] one of an own key or of nothing. *)
Definition whyIsThisWeird {Analysis Snapshot : Type}
    (repoCache : RepoCache.t Analysis Snapshot)
    (filePath : string) (repoPath : option string) : Outcome string :=
  match RepoCache.getHistory repoPath repoCache with
  | None =>
      Resolved
        "Cannot analyze - no git history available. Run analyze_repo first."
  | Some history =>
      let churn := Rec.get filePath (GitHistory.fileChurn history) in
      let ownership := Rec.get filePath (GitHistory.fileOwnership history) in
      let fragile :=
        find (fun f => String.eqb (FragileFile.path f) filePath)
          (GitHistory.fragileFiles history) in
      match churn with
      | None =>
          if inheritedProperty filePath then Rejected "TypeError"
          else
            Resolved
              ("No history found for " ++ dq ++ filePath ++ dq
               ++ ". The file may be new or the path may be incorrect.")%string
      | Some churn =>
          Resolved
            (String.concat nl (reportLines filePath churn ownership fragile))
      end
  end.

(** * Notions used in the statements *)

(** Comparators of the form [(a, b) => key(b) - key(a)]. *)
Definition descending {A : Type} (key : A -> Z) (a b : A) : Z := key b - key a.

(** The order such a comparator sorts into. *)
Definition ge_key {A : Type} (key : A -> Z) (a b : A) : Prop := key b <= key a.

(** The counters of a folded churn record. *)
Definition counted (fc : FileChurn.t) : Prop :=
  1 <= totalCommits fc
  /\ 0 <= commitsLast30Days fc <= commitsLast90Days fc
  /\ commitsLast90Days fc <= totalCommits fc.

(** Case analysis on every integer test [a >? b] of the goal. *)
Ltac split_gtb :=
  repeat match goal with
         | |- context [?a >? ?b] => destruct (Z.gtb_spec a b)
         end.

(** The score formula as the specification writes it. *)
Definition specChurnScore
    (totalCommits authorCount commitsLast30Days commitsLast90Days : Z)
    (totalChanges : Q) : Z :=
  JS.Math_round
    (inject_Z
       (Z.min (totalCommits * 2) 30
        + (if authorCount >? 1 then (authorCount - 1) * 5 else 0)
        + (if authorCount >? 3 then 10 else 0)
        + commitsLast30Days * 3
        + commitsLast90Days * 1
        + (if JS.gtb totalChanges 500 then 10 else 0)
        + (if JS.gtb totalChanges 1000 then 10 else 0))).

(** [totalInsertions + totalDeletions]. *)
Definition totalChangesOf (fc : FileChurn.t) : Q :=
  (totalInsertions fc + totalDeletions fc)%Q.

(** A commit by [author] at instant [time] that touches [files]. *)
Definition commitAt (author : string) (time : Z) (files : list string)
    (insertions deletions : Z) (message : string) (isMerge isFix : bool)
  : CommitInfo.t :=
  {| CommitInfo.hash := "0000000000000000000000000000000000000000";
     CommitInfo.shortHash := "0000000";
     CommitInfo.author := author;
     CommitInfo.email := "";
     CommitInfo.date := time;
     CommitInfo.timestamp := time;
     CommitInfo.message := message;
     CommitInfo.messageFirstLine := message;
     CommitInfo.filesChanged := files;
     CommitInfo.insertions := insertions;
     CommitInfo.deletions := deletions;
     CommitInfo.isMerge := isMerge;
     CommitInfo.isRevert := false;
     CommitInfo.isRefactor := false;
     CommitInfo.isFix := isFix;
     CommitInfo.isFeature := false |}.

(** How often [file] occurs in an array of paths. *)
Fixpoint countZ (file : string) (files : list string) : Z :=
  match files with
  | [] => 0
  | g :: rest => (if String.eqb file g then 1 else 0) + countZ file rest
  end.

(** How many times the two loops [for commit] / [for file] visit [file]. *)
Fixpoint touches (file : string) (commits : list CommitInfo.t) : Z :=
  match commits with
  | [] => 0
  | c :: rest => countZ file (CommitInfo.filesChanged c) + touches file rest
  end.

Definition sumZ (l : list Z) : Z := fold_right Z.add 0 l.

(** [fileAuthorCommits[file] || {}] after the tally loop. *)
Definition tallyOf (commits : list CommitInfo.t) (file : string)
  : Rec.t Tally.t :=
  match Rec.get file (fold_left tallyCommit commits Rec.empty) with
  | Some m => m
  | None => Rec.empty
  end.

(** The full, untruncated contributor array of [file]. *)
Definition fullContributors (commits : list CommitInfo.t) (file : string)
    (fc : FileChurn.t) : list Contributor.t :=
  contributorsOf (tallyOf commits file) (FileChurn.totalCommits fc).

(** [churn[file].totalCommits], or 0 while [file] has no record. *)
Definition commitsOf (file : string) (churn : Rec.t FileChurn.t) : Z :=
  match Rec.get file churn with
  | Some fc => totalCommits fc
  | None => 0
  end.

Definition sumCounts (byAuthor : Rec.t Tally.t) : Z :=
  sumZ (map (fun e => Tally.count (snd e)) byAuthor).

(** The sum of the tallies of [file], or 0 while [file] has none. *)
Definition talliedOf (file : string) (fileAuthorCommits : Rec.t (Rec.t Tally.t))
  : Z :=
  match Rec.get file fileAuthorCommits with
  | Some m => sumCounts m
  | None => 0
  end.

(** Every stored tally counts at least one commit. *)
Definition talliesPositive (fileAuthorCommits : Rec.t (Rec.t Tally.t)) : Prop :=
  Forall (fun e => Forall (fun a => 1 <= Tally.count (snd a)) (snd e))
    fileAuthorCommits.

(** Events of type [commit] or [major-refactor]. *)
Definition isCommitEvent (e : TimelineEvent.t) : bool :=
  match TimelineEvent.type e with
  | ev_commit | ev_major_refactor => true
  | _ => false
  end.

Definition notMerge (c : CommitInfo.t) : bool := negb (CommitInfo.isMerge c).

(** The three qualifying clauses of a hot path. *)
Definition qualifiesHot (churn : FileChurn.t) : Prop :=
  30 < FileChurn.churnScore churn
  \/ 5 <= FileChurn.commitsLast30Days churn
  \/ 4 <= FileChurn.authorCount churn.

(** The record that the loop of [identifyHotPaths] pushes for a file. *)
Definition hotPathOf (path : string) (churn : FileChurn.t) : HotPath.t :=
  {| HotPath.path := path;
     HotPath.reason := String.concat "; " (fst (hotReasons churn));
     HotPath.churnScore := FileChurn.churnScore churn;
     HotPath.recentCommits := FileChurn.commitsLast30Days churn;
     HotPath.authorCount := FileChurn.authorCount churn;
     HotPath.riskLevel := snd (hotReasons churn) |}.

(** How many records of [l] have a strictly higher fragile score than [f]. *)
Definition strictlyAbove (f : FragileFile.t) (l : list FragileFile.t) : nat :=
  List.length
    (filter (fun g => FragileFile.fragileScore g >? FragileFile.fragileScore f)
       l).

(** The visits that the double loop [for commit] / [for file] pays to
    [file], each as the commit that makes it, in loop order. *)
Definition touchList (file : string) (commits : list CommitInfo.t)
  : list CommitInfo.t :=
  flat_map
    (fun c =>
       map (fun _ => c) (filter (String.eqb file) (CommitInfo.filesChanged c)))
    commits.

(** [commit.filesChanged.includes(file)]. *)
Definition touchesFile (file : string) (c : CommitInfo.t) : bool :=
  JS.arr_includes (CommitInfo.filesChanged c) file.

(** What one visit by [c] does to the record of the visited file, if any. *)
Definition churnStep (now : Z) (file : string) (o : option FileChurn.t)
    (c : CommitInfo.t) : option FileChurn.t :=
  Some (accumulate now c
          match o with
          | Some fc => fc
          | None => newFileChurn file c
          end).

(** The names of [names] in order of first occurrence. *)
Definition distinct (names : list string) : list string :=
  fold_left
    (fun acc a => if JS.arr_includes acc a then acc else acc ++ [a])
    names [].

(** [commit.insertions / Math.max(commit.filesChanged.length, 1)]. *)
Definition insertionShare (c : CommitInfo.t) : Q :=
  JS.div (CommitInfo.insertions c)
    (Z.max (JS.len (CommitInfo.filesChanged c)) 1).

Definition deletionShare (c : CommitInfo.t) : Q :=
  JS.div (CommitInfo.deletions c)
    (Z.max (JS.len (CommitInfo.filesChanged c)) 1).

Definition sumQ (l : list Q) : Q := fold_right Qplus 0%Q l.

(** [commit.timestamp > now - days * 24 * 60 * 60 * 1000]. *)
Definition within (now days : Z) (c : CommitInfo.t) : bool :=
  CommitInfo.timestamp c >? now - days * 24 * 60 * 60 * 1000.



(** What one visit by [c] does to the tallies of the visited file. *)
Definition tallyStep (byAuthor : Rec.t Tally.t) (c : CommitInfo.t)
  : Rec.t Tally.t :=
  let t0 :=
    match Rec.get (CommitInfo.author c) byAuthor with
    | Some t0 => t0
    | None => {| Tally.count := 0; Tally.lastCommit := CommitInfo.date c |}
    end in
  Rec.set (CommitInfo.author c)
    {| Tally.count := Tally.count t0 + 1;
       Tally.lastCommit :=
         if Date_getTime (CommitInfo.date c)
            >? Date_getTime (Tally.lastCommit t0)
         then CommitInfo.date c else Tally.lastCommit t0 |}
    byAuthor.

(** The visits of [l] made by commits of [author]. *)
Definition visitsBy (author : string) (l : list CommitInfo.t)
  : list CommitInfo.t :=
  filter (fun c => String.eqb author (CommitInfo.author c)) l.

(** What one commit does to the statistics of its author, if any. *)
Definition authorStep (o : option AuthorStats.t) (c : CommitInfo.t)
  : option AuthorStats.t :=
  Rec.get (CommitInfo.author c)
    (authorCommit
       match o with
       | Some a => [(CommitInfo.author c, a)]
       | None => []
       end c).

(** The sum of an integer field over all records of a dictionary. *)
Definition sumField {V : Type} (field : V -> Z) (r : Rec.t V) : Z :=
  sumZ (map (fun e => field (snd e)) r).

(** The test of the filter of [identifyStableCore]. *)
Definition stableTest (e : string * FileChurn.t) : bool :=
  let '(path, churn) := e in
  if FileChurn.totalCommits churn <? 2 then false
  else if FileChurn.daysSinceLastChange churn <? 60 then false
  else if FileChurn.churnScore churn >? 15 then false
  else if JS.includes path "config" || JS.endsWith path ".json" then false
  else true.

(** What that test demands of a file. *)
Definition isStable (path : string) (churn : FileChurn.t) : Prop :=
  2 <= FileChurn.totalCommits churn
  /\ 60 <= FileChurn.daysSinceLastChange churn
  /\ FileChurn.churnScore churn <= 15
  /\ JS.includes path "config" = false
  /\ JS.endsWith path ".json" = false.

(** The order that comparators of the form [(a, b) => key(a) - key(b)] sort
    into. *)
Definition le_key {A : Type} (key : A -> Z) (a b : A) : Prop := key a <= key b.

(** The condition under which [identifyFragileFiles] records evidence of
    type [ty] for a file with [fixes] fix commits. *)
Definition evidenceFires (churn : FileChurn.t) (fixes : Z) (ty : EvidenceType)
  : Prop :=
  match ty with
  | high_churn => 40 < FileChurn.churnScore churn
  | many_authors => 4 <= FileChurn.authorCount churn
  | frequent_fixes => 3 <= fixes
  | recent_rewrites =>
      5 <= FileChurn.commitsLast30Days churn
      /\ FileChurn.totalCommits churn <= 10
  | yo_yo_changes =>
      JS.gtb (totalChangesOf churn) 1000 = true
      /\ 5 < FileChurn.totalCommits churn
  end.

(** [gap > 14] for the pair [(commits[i], commits[i + 1])], in
    milliseconds. *)
Definition longGap (p : CommitInfo.t * CommitInfo.t) : bool :=
  CommitInfo.timestamp (fst p) - CommitInfo.timestamp (snd p) >? 14 * dayMs.

(** The event pushed for such a pair. *)
Definition quietEvent (p : CommitInfo.t * CommitInfo.t) : TimelineEvent.t :=
  {| TimelineEvent.date := CommitInfo.date (snd p);
     TimelineEvent.type := ev_quiet_period;
     TimelineEvent.description :=
       (show ((CommitInfo.timestamp (fst p) - CommitInfo.timestamp (snd p))
              / dayMs)
        ++ " day gap in development")%string;
     TimelineEvent.files := None;
     TimelineEvent.author := None |}.

Definition isQuietEvent (e : TimelineEvent.t) : bool :=
  match TimelineEvent.type e with
  | ev_quiet_period => true
  | _ => false
  end.

(** The number of commits in the 30-day window that ends at [c]. *)
Definition windowCount (commits : list CommitInfo.t) (c : CommitInfo.t) : Z :=
  JS.len
    (filter
       (fun c' =>
          (CommitInfo.timestamp c'
           >=? CommitInfo.timestamp c - 30 * 24 * 60 * 60 * 1000)
          && (CommitInfo.timestamp c' <=? CommitInfo.timestamp c))
       commits).

(** The busiest-period record of the window that ends at [c]. *)
Definition windowOf (commits : list CommitInfo.t) (c : CommitInfo.t)
  : BusiestPeriod.t :=
  {| BusiestPeriod.start :=
       isoDay (CommitInfo.timestamp c - 30 * 24 * 60 * 60 * 1000);
     BusiestPeriod.end_ := isoDay (CommitInfo.timestamp c);
     BusiestPeriod.commits := windowCount commits c |}.

(** [s] holds no line break. *)
Fixpoint singleLine (s : string) : bool :=
  match s with
  | EmptyString => true
  | String c rest => negb (Ascii.eqb c newline) && singleLine rest
  end.

(** Whether some line of a report starts with [title]. *)
Definition mentions (title : string) (lines : list string) : bool :=
  existsb (String.prefix title) lines.

(** The two fixed answers of [whyIsThisWeird] and the titles of the report
    that the statements name. *)
Definition cannotAnalyze : string :=
  "Cannot analyze - no git history available. Run analyze_repo first.".

Definition noHistoryFound (filePath : string) : string :=
  ("No history found for " ++ dq ++ filePath ++ dq
   ++ ". The file may be new or the path may be incorrect.")%string.

Definition unusualTitle : string := "## üîç Why It's Unusual".
Definition healthyTitle : string := "## ‚úÖ This file looks healthy".
Definition noOwnerTitle : string := (nl ++ "‚ö†Ô∏è No clear owner")%string.

(** The test that opens the unusual section of the report. *)
Definition looksUnusual (churn : FileChurn.t) (fragile : option FragileFile.t)
  : bool :=
  (FileChurn.churnScore churn >? 30)
  || (FileChurn.authorCount churn >=? 3)
  || (match fragile with Some _ => true | None => false end).

(** [history.fragileFiles.find((f) => f.path === filePath)]. *)
Definition fragileRecord (history : GitHistory.t) (filePath : string)
  : option FragileFile.t :=
  find (fun f => String.eqb (FragileFile.path f) filePath)
    (GitHistory.fragileFiles history).

(** The average number of commits per week as the specification computes
    it, in exact arithmetic: the number of commits over the span in weeks
    from the last commit of the log to its first, a span of less than one
    day counting as one day. *)
Definition specWeeklyAverage (commits : list CommitInfo.t) : Q :=
  match commits with
  | [] => 0
  | newest :: _ =>
      let oldest := last commits newest in
      let daySpan :=
        Qmax 1
          (inject_Z (CommitInfo.timestamp newest - CommitInfo.timestamp oldest)
           / 86400000) in
      let weekSpan := (daySpan / 7)%Q in
      (inject_Z (JS.len commits) / weekSpan)%Q
  end.

(** The relative error of one rounding to the nearest double, [2 ^ -53],
    and a bound on what four of them add up to, [2 ^ -50]. *)
Definition halfUlp : Q := 1 # 9007199254740992.
Definition roundingSlack : Q := 1 # 1125899906842624.


(** A dictionary none of whose keys names an inherited property. *)
Definition ordinaryKeys {V : Type} (r : Rec.t V) : Prop :=
  forall k, In k (Rec.keys r) -> inheritedProperty k = false.

(** The commits on which the churn pass and the author pass throw: one
    that changes a path named like an inherited property, and one whose
    author is so named and that changes some path. *)
Definition strangePath (c : CommitInfo.t) : bool :=
  existsb inheritedProperty (CommitInfo.filesChanged c).

Definition strangeAuthor (c : CommitInfo.t) : bool :=
  inheritedProperty (CommitInfo.author c)
  && match CommitInfo.filesChanged c with [] => false | _ :: _ => true end.

(** A commit that the author pass counts. *)
Definition ordinaryAuthor (c : CommitInfo.t) : bool :=
  negb (inheritedProperty (CommitInfo.author c)).





(** ** Example inputs *)

(** The five commits of one file by three authors, two of them fixes. *)
Definition fiveCommits : list CommitInfo.t :=
  [ commitAt "Bob" 5000 ["src/auth.ts"] 1 1 "Fix another auth bug" false true;
    commitAt "Charlie" 4000 ["src/auth.ts"] 1 1 "Add feature" false false;
    commitAt "Alice" 3000 ["src/auth.ts"] 1 1 "Refactor auth" false false;
    commitAt "Bob" 2000 ["src/auth.ts"] 1 1 "Fix auth bug" false true;
    commitAt "Alice" 1000 ["src/auth.ts"] 2 0 "Add auth module" false false ].

(** One recent commit by one author that rewrites 2000 lines of one file. *)
Definition oneBigCommit : list CommitInfo.t :=
  [ commitAt "Alice" 1000 ["a.ts"] 2000 0 "Add a" false false ].

(** Four authors, three of whose commits are fixes, on one file. *)
Definition fourAuthorsThreeFixes : list CommitInfo.t :=
  [ commitAt "Dan" 4000 ["x.ts"] 1 1 "fix crash" false true;
    commitAt "Carol" 3000 ["x.ts"] 1 1 "fix typo" false true;
    commitAt "Bob" 2000 ["x.ts"] 1 1 "bug in x" false true;
    commitAt "Alice" 1000 ["x.ts"] 1 1 "create x" false false ].

(** A merge commit followed by twenty ordinary commits. *)
Definition mergeThenTwenty : list CommitInfo.t :=
  commitAt "Alice" 21000 ["f"] 0 0 "Merge branch dev" true false
  :: map (fun n => commitAt "Alice" (Z.of_nat n * 1000) ["f"] 1 1 "work"
                     false false)
       (rev (seq 1 20)).

(** Two commits thirty and a half days apart, the newer one just made. *)
Definition thirtyDaysAndAHalf : list CommitInfo.t :=
  [ commitAt "Alice" 2635200000 ["f"] 1 1 "second" false false;
    commitAt "Alice" 0 ["f"] 1 1 "first" false false ].

(** Seven authors who each touch twenty files; all but one also touch
    [z.ts]. *)
Definition crowdedFiles : list string :=
  map (fun n => ("f" ++ show (Z.of_nat n) ++ ".ts")%string) (seq 1 20).

Definition crowded : list CommitInfo.t :=
  [ commitAt "Gus" 7000 crowdedFiles 0 0 "work" false false;
    commitAt "Fay" 6000 ("z.ts" :: crowdedFiles) 0 0 "work" false false;
    commitAt "Eve" 5000 ("z.ts" :: crowdedFiles) 0 0 "work" false false;
    commitAt "Dan" 4000 ("z.ts" :: crowdedFiles) 0 0 "work" false false;
    commitAt "Carol" 3000 ("z.ts" :: crowdedFiles) 0 0 "work" false false;
    commitAt "Bob" 2000 ("z.ts" :: crowdedFiles) 0 0 "work" false false;
    commitAt "Alice" 1000 ("z.ts" :: crowdedFiles) 0 0 "work" false false ].

(** A world whose clocks read a hundred days after the epoch. *)
Definition lateWorld : World.t :=
  {| World.gitDirExists := true;
     World.log := Rejected "";
     World.diffNameOnly := fun _ => Rejected "";
     World.diffStat := fun _ => Rejected "";
     World.nowChurn := 100 * dayMs;
     World.nowPattern := 100 * dayMs;
     World.nowAnalyzed := 100 * dayMs |}.


(** Two old commits by one author on one file. *)
Definition settled : list CommitInfo.t :=
  [ commitAt "Alice" 2000 ["lib/util.ts"] 3 1 "tidy util" false false;
    commitAt "Alice" 1000 ["lib/util.ts"] 10 0 "create util" false false ].


(** A hundred and twenty-one commits, one every 123200 seconds: the log
    spans 14784000000 ms, and its exact weekly average is 4.95. *)
Definition evenlySpaced : list CommitInfo.t :=
  map (fun n => commitAt "Alice" (Z.of_nat n * 123200000) ["f"] 1 1 "work"
                  false false)
    (rev (seq 0 121)).

(** * Properties *)

(** ** Rounding *)

Lemma Math_round_integer (z : Z) : JS.Math_round (inject_Z z) = z.
Proof.
  unfold JS.Math_round, Qfloor, Qplus, inject_Z; simpl.
  symmetry; apply (Z.div_unique_pos _ 2 z 1); lia.
Qed.

Lemma Math_floor_div (a : Z) (p : positive) :
  JS.Math_floor (JS.div a (Zpos p)) = a / Zpos p.
Proof.
  unfold JS.Math_floor, JS.div, Qfloor, Qdiv, Qmult, Qinv, inject_Z; simpl.
  now rewrite Z.mul_1_r.
Qed.

Lemma gtb_div_spec (a : Z) (p : positive) (n : Z) :
  JS.gtb (JS.div a (Zpos p)) n = (a >? n * Zpos p).
Proof.
  unfold JS.gtb, JS.div, Qcompare, Qdiv, Qmult, Qinv, inject_Z; simpl.
  rewrite !Z.mul_1_r, Z.gtb_ltb, Z.ltb_compare, (Z.compare_antisym a).
  now destruct (a ?= n * Zpos p).
Qed.

(** ** The stable sort *)

Lemma in_firstn {A : Type} (n : nat) (l : list A) (x : A) :
  In x (firstn n l) -> In x l.
Proof.
  intros H. rewrite <- (firstn_skipn n l). apply in_or_app. now left.
Qed.

Section SortFacts.
Context {A : Type}.

Lemma insert_perm (cmp : A -> A -> Z) (x : A) (l : list A) :
  Permutation (JS.insert cmp x l) (x :: l).
Proof.
  induction l as [|y l IH]; simpl; [reflexivity|].
  destruct (cmp x y <=? 0); [reflexivity|].
  rewrite IH. apply perm_swap.
Qed.

Lemma sort_perm (cmp : A -> A -> Z) (l : list A) :
  Permutation (JS.sort cmp l) l.
Proof.
  induction l as [|x l IH]; simpl; [reflexivity|].
  rewrite insert_perm. now constructor.
Qed.

Variable key : A -> Z.

Lemma insert_sorted (x : A) (l : list A) :
  StronglySorted (ge_key key) l -> StronglySorted (ge_key key) (JS.insert (descending key) x l).
Proof.
  induction 1 as [|y l Hl IH Hy]; simpl.
  - repeat constructor.
  - unfold descending at 1. destruct (Z.leb_spec (key y - key x) 0) as [Hle|Hgt].
    + constructor; [now constructor|].
      constructor; [unfold ge_key; lia|].
      eapply Forall_impl; [|exact Hy]. unfold ge_key; intros; lia.
    + constructor; [exact IH|].
      eapply Permutation_Forall; [symmetry; apply insert_perm|].
      constructor; [unfold ge_key; lia | exact Hy].
Qed.

Lemma sort_sorted (l : list A) :
  StronglySorted (ge_key key) (JS.sort (descending key) l).
Proof.
  induction l as [|x l IH]; simpl; [constructor|].
  now apply insert_sorted.
Qed.

Lemma sorted_firstn (n : nat) (l : list A) :
  StronglySorted (ge_key key) l -> StronglySorted (ge_key key) (firstn n l).
Proof.
  intros H; revert n. induction H as [|x l Hl IH Hx]; intros [|n]; simpl;
    try constructor; auto.
  rewrite Forall_forall in *. intros y Hy. apply Hx.
  now apply (in_firstn n).
Qed.

(** In a (descending key) array, nothing behind position [n] exceeds anything
    in front of it. *)
Lemma sorted_split (n : nat) (l : list A) :
  StronglySorted (ge_key key) l ->
  forall a b, In a (firstn n l) -> In b (skipn n l) -> key b <= key a.
Proof.
  intros H; revert n. induction H as [|x l Hl IH Hx]; intros n a b Ha Hb.
  - now rewrite firstn_nil in Ha.
  - destruct n as [|n]; simpl in *; [contradiction|].
    destruct Ha as [<-|Ha].
    + rewrite Forall_forall in Hx. apply Hx.
      rewrite <- (firstn_skipn n l). apply in_or_app. now right.
    + eauto.
Qed.
End SortFacts.

(** ** Dictionaries *)

Section RecFacts.
Context {V : Type}.
Implicit Types (r : Rec.t V) (k : string) (v : V).

Lemma get_In k r v : Rec.get k r = Some v -> In (k, v) r.
Proof.
  induction r as [|[k' v'] r IH]; simpl; [discriminate|].
  destruct (String.eqb_spec k k') as [->|_].
  - intros [= ->]. now left.
  - intros H. right. now apply IH.
Qed.

Lemma set_In k v r e : In e (Rec.set k v r) -> e = (k, v) \/ In e r.
Proof.
  induction r as [|[k' v'] r IH]; simpl.
  - intros [<-|[]]. now left.
  - destruct (String.eqb k k'); simpl.
    + intros [<-|H]; auto.
    + intros [<-|H]; auto. destruct (IH H); auto.
Qed.

Lemma get_set_same k v r : Rec.get k (Rec.set k v r) = Some v.
Proof.
  induction r as [|[k' v'] r IH]; simpl.
  - now rewrite String.eqb_refl.
  - destruct (String.eqb k k') eqn:E; simpl.
    + now rewrite String.eqb_refl.
    + now rewrite E.
Qed.

Lemma get_set_other k k' v r :
  k <> k' -> Rec.get k (Rec.set k' v r) = Rec.get k r.
Proof.
  intros Hne. induction r as [|[k2 v2] r IH]; simpl.
  - now destruct (String.eqb_spec k k').
  - destruct (String.eqb_spec k' k2) as [->|Hk]; simpl.
    + now destruct (String.eqb_spec k k2).
    + now rewrite IH.
Qed.

Lemma keys_set k v r k' :
  In k' (Rec.keys (Rec.set k v r)) <-> k' = k \/ In k' (Rec.keys r).
Proof.
  unfold Rec.keys. induction r as [|[k2 v2] r IH]; simpl.
  - intuition.
  - destruct (String.eqb_spec k k2) as [->|Hk]; simpl; intuition.
Qed.

Lemma NoDup_keys_set k v r :
  NoDup (Rec.keys r) -> NoDup (Rec.keys (Rec.set k v r)).
Proof.
  unfold Rec.keys. induction r as [|[k2 v2] r IH]; simpl; intros H.
  - repeat constructor. intros [].
  - inversion_clear H as [|? ? Hnotin Hnd].
    destruct (String.eqb_spec k k2) as [->|Hk]; simpl.
    + now constructor.
    + constructor; [|now apply IH].
      intros Hin. apply (keys_set k v r k2) in Hin. intuition.
Qed.

Lemma NoDup_get k v r :
  NoDup (Rec.keys r) -> In (k, v) r -> Rec.get k r = Some v.
Proof.
  unfold Rec.keys. induction r as [|[k2 v2] r IH]; simpl; [intros _ []|].
  intros H Hin. inversion_clear H as [|? ? Hnotin Hnd].
  destruct Hin as [[= -> ->]|Hin].
  - now rewrite String.eqb_refl.
  - destruct (String.eqb_spec k k2) as [->|_]; [|now apply IH].
    exfalso. apply Hnotin. now apply (in_map fst) in Hin.
Qed.

Lemma get_map {W : Type} (f : V -> W) k r :
  Rec.get k (map (fun e => (fst e, f (snd e))) r)
  = option_map f (Rec.get k r).
Proof.
  induction r as [|[k2 v2] r IH]; simpl; [reflexivity|].
  now destruct (String.eqb k k2).
Qed.

Lemma keys_map {W : Type} (f : V -> W) r :
  Rec.keys (map (fun e => (fst e, f (snd e))) r) = Rec.keys r.
Proof.
  unfold Rec.keys. rewrite map_map. now apply map_ext.
Qed.
End RecFacts.

(** ** Invariants of the churn fold *)

Section ChurnFold.
Variable now : Z.

(** A property of records that holds after the first accumulation and is
    kept by every later one holds of every record of the fold. *)
Lemma churn_fold_Forall (P : FileChurn.t -> Prop) :
  (forall file commit, P (accumulate now commit (newFileChurn file commit))) ->
  (forall commit fc, P fc -> P (accumulate now commit fc)) ->
  forall commits churn,
    Forall (fun e => P (snd e)) churn ->
    Forall (fun e => P (snd e)) (fold_left (churnCommit now) commits churn).
Proof.
  intros Hnew Hacc.
  assert (Hfile : forall commit files churn,
             Forall (fun e => P (snd e)) churn ->
             Forall (fun e => P (snd e))
               (fold_left (churnFile now commit) files churn)).
  { intros commit files. induction files as [|f files IH]; simpl; auto.
    intros churn Hc. apply IH. unfold churnFile.
    rewrite Forall_forall in *. intros e He.
    apply set_In in He. destruct He as [->|He]; [|now apply Hc].
    simpl. destruct (Rec.get f churn) as [fc|] eqn:G; [|apply Hnew].
    apply Hacc. apply get_In in G. exact (Hc _ G). }
  intros commits. induction commits as [|c commits IH]; simpl; auto.
  intros churn Hc. apply IH. now apply Hfile.
Qed.

Lemma churn_fold_NoDup commits churn :
  NoDup (Rec.keys churn) ->
  NoDup (Rec.keys (fold_left (churnCommit now) commits churn)).
Proof.
  revert churn. induction commits as [|c commits IH]; simpl; auto.
  intros churn Hc. apply IH. unfold churnCommit.
  generalize (CommitInfo.filesChanged c). intros files. revert churn Hc.
  induction files as [|f files IHf]; simpl; auto.
  intros churn Hc. apply IHf. now apply NoDup_keys_set.
Qed.

Lemma analyzeFileChurn_NoDup commits :
  NoDup (Rec.keys (analyzeFileChurn now commits)).
Proof.
  unfold analyzeFileChurn. rewrite keys_map.
  apply churn_fold_NoDup. constructor.
Qed.

(** Every record of the result is a folded record with its derived fields
    filled in. *)
Lemma analyzeFileChurn_In commits file fc :
  In (file, fc) (analyzeFileChurn now commits) ->
  exists fc0,
    In (file, fc0) (fold_left (churnCommit now) commits Rec.empty)
    /\ fc = deriveChurn now fc0.
Proof.
  unfold analyzeFileChurn. rewrite in_map_iff.
  intros [[k fc0] [[= <- <-] Hin]]. now exists fc0.
Qed.

Lemma churn_fold_counted commits :
  Forall (fun e => counted (snd e))
    (fold_left (churnCommit now) commits Rec.empty).
Proof.
  apply churn_fold_Forall; [| |constructor].
  - intros file commit. unfold counted; simpl. split_gtb; lia.
  - intros commit fc. unfold counted; simpl. split_gtb; lia.
Qed.
End ChurnFold.

(** ** The churn score *)

Lemma gtb_Qeq (x y : Q) (n : Z) : (x == y)%Q -> JS.gtb x n = JS.gtb y n.
Proof.
  intros H. unfold JS.gtb. now rewrite H.
Qed.

Lemma calculateChurnScore_spec (fc : FileChurn.t) :
  calculateChurnScore fc
  = specChurnScore (totalCommits fc) (authorCount fc) (commitsLast30Days fc)
      (commitsLast90Days fc) (totalChangesOf fc).
Proof.
  unfold calculateChurnScore, specChurnScore, totalChangesOf.
  rewrite !Math_round_integer.
  destruct (authorCount fc >? 1), (authorCount fc >? 3),
    (JS.gtb (totalInsertions fc + totalDeletions fc) 500),
    (JS.gtb (totalInsertions fc + totalDeletions fc) 1000); lia.
Qed.

Lemma deriveChurn_score (now : Z) (fc0 : FileChurn.t) :
  let fc := deriveChurn now fc0 in
  churnScore fc
  = specChurnScore (totalCommits fc) (authorCount fc) (commitsLast30Days fc)
      (commitsLast90Days fc) (totalChangesOf fc).
Proof.
  unfold deriveChurn. cbv zeta. cbn [churnScore].
  now rewrite calculateChurnScore_spec.
Qed.

Lemma specChurnScore_lower (tc ac c30 c90 : Z) (ch : Q) :
  0 <= tc -> 0 <= c30 -> 0 <= c90 ->
  c30 * 3 <= specChurnScore tc ac c30 c90 ch.
Proof.
  intros Htc H30 H90. unfold specChurnScore. rewrite Math_round_integer.
  destruct (Z.gtb_spec ac 1), (Z.gtb_spec ac 3), (JS.gtb ch 500),
    (JS.gtb ch 1000); lia.
Qed.

Lemma analyzeFileChurn_counted (now : Z) (commits : list CommitInfo.t)
    (file : string) (fc : FileChurn.t) :
  In (file, fc) (analyzeFileChurn now commits) ->
  counted fc /\ authorCount fc = JS.len (authors fc).
Proof.
  intros H. apply analyzeFileChurn_In in H. destruct H as [fc0 [Hin ->]].
  pose proof (churn_fold_counted now commits) as Hc.
  rewrite Forall_forall in Hc. specialize (Hc _ Hin). now split.
Qed.

(** Repeating a recent one-file commit raises the 30-day counter each time. *)
Lemma churn_repeat (now : Z) (n : nat) (fc0 : FileChurn.t) :
  let c := commitAt "a" now ["f"] 0 0 "" false false in
  exists fc,
    fold_left (churnCommit now) (repeat c n) [("f", fc0)] = [("f", fc)]
    /\ commitsLast30Days fc = commitsLast30Days fc0 + Z.of_nat n.
Proof.
  cbv zeta. revert fc0. induction n as [|n IH]; intros fc0.
  - exists fc0. split; [reflexivity|simpl; lia].
  - cbn [repeat fold_left].
    change (churnCommit now [("f", fc0)]
              (commitAt "a" now ["f"] 0 0 "" false false))
      with [("f", accumulate now (commitAt "a" now ["f"] 0 0 "" false false) fc0)].
    destruct (IH (accumulate now (commitAt "a" now ["f"] 0 0 "" false false) fc0))
      as [fc [Hfold Hc]].
    exists fc. split; [exact Hfold|]. rewrite Hc.
    cbn [accumulate commitsLast30Days commitAt CommitInfo.timestamp].
    destruct (Z.gtb_spec now (now - 30 * 24 * 60 * 60 * 1000)); lia.
Qed.

(** C1. Every record that [analyzeFileChurn] produces carries the churn
    score of the formula of the specification, rounded: the capped commit
    term, the two author bonuses, the weighted 30-day and 90-day counters and
    the two cumulative bonuses for more than 500 and more than 1000 changed
    lines. That score is never negative; [calculateChurnScore] depends on
    its argument only through the five quantities of the formula; and no
    bound holds for all repositories. *)
Theorem churnScore_is_spec_formula :
  (forall now commits file fc,
      In (file, fc) (analyzeFileChurn now commits) ->
      churnScore fc
      = specChurnScore (totalCommits fc) (authorCount fc)
          (commitsLast30Days fc) (commitsLast90Days fc) (totalChangesOf fc)
      /\ 0 <= churnScore fc)
  /\ (forall fc1 fc2,
         totalCommits fc1 = totalCommits fc2 ->
         authorCount fc1 = authorCount fc2 ->
         commitsLast30Days fc1 = commitsLast30Days fc2 ->
         commitsLast90Days fc1 = commitsLast90Days fc2 ->
         (totalChangesOf fc1 == totalChangesOf fc2)%Q ->
         calculateChurnScore fc1 = calculateChurnScore fc2)
  /\ (forall now bound,
         exists commits file fc,
           In (file, fc) (analyzeFileChurn now commits)
           /\ bound < churnScore fc).
Proof.
  split; [|split].
  - intros now commits file fc Hin.
    destruct (analyzeFileChurn_counted _ _ _ _ Hin) as [[Htc [H30 H90]] Hac].
    apply analyzeFileChurn_In in Hin. destruct Hin as [fc0 [_ ->]].
    rewrite deriveChurn_score. split; [reflexivity|].
    etransitivity; [|apply specChurnScore_lower]; lia.
  - intros fc1 fc2 Htc Hac H30 H90 Hch.
    rewrite !calculateChurnScore_spec, Htc, Hac, H30, H90.
    unfold specChurnScore. now rewrite !(gtb_Qeq _ _ _ Hch).
  - intros now bound.
    set (c := commitAt "a" now ["f"] 0 0 "" false false).
    destruct (churn_repeat now (Z.to_nat bound)
                (accumulate now c (newFileChurn "f" c))) as [fc0 [Hfold Hc]].
    exists (c :: repeat c (Z.to_nat bound)), "f", (deriveChurn now fc0).
    assert (Hin : In ("f", deriveChurn now fc0)
                    (analyzeFileChurn now (c :: repeat c (Z.to_nat bound)))).
    { unfold analyzeFileChurn. cbn [fold_left].
      change (churnCommit now Rec.empty c)
        with [("f", accumulate now c (newFileChurn "f" c))].
      fold c in Hfold. rewrite Hfold. now left. }
    split; [exact Hin|].
    destruct (analyzeFileChurn_counted _ _ _ _ Hin) as [[Htc [H30 H90]] _].
    rewrite deriveChurn_score.
    eapply Z.lt_le_trans; [|apply specChurnScore_lower; lia].
    change (commitsLast30Days (deriveChurn now fc0))
      with (commitsLast30Days fc0).
    rewrite Hc. subst c.
    cbn [accumulate commitsLast30Days newFileChurn commitAt
           CommitInfo.timestamp].
    destruct (Z.gtb_spec now (now - 30 * 24 * 60 * 60 * 1000)); lia.
Qed.

Lemma churnScore_is_spec_formula_witness :
  match Rec.get "src/auth.ts" (analyzeFileChurn 6000 fiveCommits) with
  | Some fc =>
      In ("src/auth.ts", fc) (analyzeFileChurn 6000 fiveCommits)
      /\ churnScore fc
         = specChurnScore (totalCommits fc) (authorCount fc)
             (commitsLast30Days fc) (commitsLast90Days fc) (totalChangesOf fc)
      /\ 0 <= churnScore fc
  | None => False
  end.
Proof.
  destruct (Rec.get "src/auth.ts" (analyzeFileChurn 6000 fiveCommits))
    as [fc|] eqn:G.
  - split; [apply get_In, G|].
    apply (proj1 churnScore_is_spec_formula 6000 fiveCommits "src/auth.ts").
    apply get_In, G.
  - vm_compute in G. discriminate G.
Defined.

(** ** The two folds count the same visits *)

Lemma Forall_set {V : Type} (P : string * V -> Prop) (k : string) (v : V)
    (r : Rec.t V) :
  Forall P r -> P (k, v) -> Forall P (Rec.set k v r).
Proof.
  rewrite !Forall_forall. intros Hr Hv e He.
  apply set_In in He. destruct He as [->|He]; auto.
Qed.

Lemma churnFile_commitsOf (now : Z) (c : CommitInfo.t)
    (churn : Rec.t FileChurn.t) (f g : string) :
  commitsOf f (churnFile now c churn g)
  = commitsOf f churn + (if String.eqb f g then 1 else 0).
Proof.
  unfold commitsOf, churnFile.
  destruct (String.eqb_spec f g) as [->|Hne].
  - rewrite get_set_same. now destruct (Rec.get g churn).
  - rewrite get_set_other by assumption. lia.
Qed.

Lemma churnFold_commitsOf (now : Z) (f : string) (commits : list CommitInfo.t) :
  forall churn,
    commitsOf f (fold_left (churnCommit now) commits churn)
    = commitsOf f churn + touches f commits.
Proof.
  induction commits as [|c commits IH]; intros churn; simpl; [lia|].
  rewrite IH. unfold churnCommit.
  enough (H : forall files churn,
             commitsOf f (fold_left (churnFile now c) files churn)
             = commitsOf f churn + countZ f files) by (rewrite H; lia).
  clear. induction files as [|g files IHf]; intros churn; simpl; [lia|].
  rewrite IHf, churnFile_commitsOf. lia.
Qed.

Lemma analyzeFileChurn_touches (now : Z) (commits : list CommitInfo.t)
    (file : string) (fc : FileChurn.t) :
  In (file, fc) (analyzeFileChurn now commits) ->
  totalCommits fc = touches file commits.
Proof.
  intros Hin. apply analyzeFileChurn_In in Hin. destruct Hin as [fc0 [Hin ->]].
  apply NoDup_get in Hin; [|apply churn_fold_NoDup; constructor].
  pose proof (churnFold_commitsOf now file commits Rec.empty) as H.
  unfold commitsOf in H. rewrite Hin in H. simpl in H. exact H.
Qed.

Lemma sumCounts_set (a : string) (t : Tally.t) (m : Rec.t Tally.t) :
  sumCounts (Rec.set a t m)
  = sumCounts m
    - match Rec.get a m with Some t0 => Tally.count t0 | None => 0 end
    + Tally.count t.
Proof.
  unfold sumCounts. induction m as [|[a' t'] m IH]; simpl; [lia|].
  destruct (String.eqb a a'); simpl; [lia|]. rewrite IH. lia.
Qed.

Lemma tallyFile_talliedOf (c : CommitInfo.t) (fac : Rec.t (Rec.t Tally.t))
    (f g : string) :
  talliedOf f (tallyFile c fac g)
  = talliedOf f fac + (if String.eqb f g then 1 else 0).
Proof.
  unfold talliedOf, tallyFile.
  destruct (String.eqb_spec f g) as [->|Hne].
  - rewrite get_set_same, sumCounts_set.
    destruct (Rec.get g fac) as [m|]; simpl.
    + destruct (Rec.get (CommitInfo.author c) m); simpl; lia.
    + unfold sumCounts; simpl. lia.
  - rewrite get_set_other by assumption. lia.
Qed.

Lemma tallyFold_talliedOf (f : string) (commits : list CommitInfo.t) :
  forall fac,
    talliedOf f (fold_left tallyCommit commits fac)
    = talliedOf f fac + touches f commits.
Proof.
  induction commits as [|c commits IH]; intros fac; simpl; [lia|].
  rewrite IH. unfold tallyCommit.
  enough (H : forall files fac,
             talliedOf f (fold_left (tallyFile c) files fac)
             = talliedOf f fac + countZ f files) by (rewrite H; lia).
  clear. induction files as [|g files IHf]; intros fac; simpl; [lia|].
  rewrite IHf, tallyFile_talliedOf. lia.
Qed.

Lemma tallyOf_touches (commits : list CommitInfo.t) (file : string) :
  sumCounts (tallyOf commits file) = touches file commits.
Proof.
  pose proof (tallyFold_talliedOf file commits Rec.empty) as H.
  unfold talliedOf in H. unfold tallyOf.
  destruct (Rec.get file (fold_left tallyCommit commits Rec.empty));
    simpl in H; exact H.
Qed.

Lemma tallyFold_positive (commits : list CommitInfo.t) :
  forall fac,
    talliesPositive fac -> talliesPositive (fold_left tallyCommit commits fac).
Proof.
  induction commits as [|c commits IH]; intros fac Hfac; simpl; auto.
  apply IH. unfold tallyCommit.
  generalize (CommitInfo.filesChanged c). intros files. revert fac Hfac.
  induction files as [|g files IHf]; intros fac Hfac; simpl; auto.
  apply IHf. unfold tallyFile, talliesPositive in *.
  apply Forall_set; [exact Hfac|]. cbn [snd].
  assert (Hm : Forall (fun a : string * Tally.t => 1 <= Tally.count (snd a))
                 match Rec.get g fac with Some m => m | None => Rec.empty end).
  { destruct (Rec.get g fac) as [m|] eqn:G; [|constructor].
    apply get_In in G. rewrite Forall_forall in Hfac. exact (Hfac _ G). }
  apply Forall_set; [exact Hm|]. cbn [snd Tally.count].
  destruct (Rec.get (CommitInfo.author c) _) as [t0|] eqn:G; simpl; [|lia].
  apply get_In in G. rewrite Forall_forall in Hm. specialize (Hm _ G).
  simpl in Hm. lia.
Qed.

Lemma tallyOf_positive (commits : list CommitInfo.t) (file : string) :
  Forall (fun a => 1 <= Tally.count (snd a)) (tallyOf commits file).
Proof.
  unfold tallyOf.
  destruct (Rec.get file _) as [m|] eqn:G; [|constructor].
  apply get_In in G.
  pose proof (tallyFold_positive commits Rec.empty (Forall_nil _)) as H.
  unfold talliesPositive in H. rewrite Forall_forall in H. exact (H _ G).
Qed.

Lemma sumZ_perm (l l' : list Z) : Permutation l l' -> sumZ l = sumZ l'.
Proof.
  induction 1; simpl; lia.
Qed.

(** The contributor array is a rearrangement of the mapped tallies. *)
Lemma contributorsOf_perm (m : Rec.t Tally.t) (total : Z) :
  Permutation (contributorsOf m total)
    (map (fun e =>
            {| Contributor.author := fst e;
               Contributor.commits := Tally.count (snd e);
               Contributor.percent := percentOf (Tally.count (snd e)) total;
               Contributor.lastCommit := Tally.lastCommit (snd e) |}) m).
Proof.
  apply sort_perm.
Qed.

Lemma contributorsOf_commits (m : Rec.t Tally.t) (total : Z) :
  sumZ (map Contributor.commits (contributorsOf m total)) = sumCounts m.
Proof.
  rewrite (sumZ_perm _ _ (Permutation_map _ (contributorsOf_perm m total))).
  unfold sumCounts. now rewrite map_map.
Qed.

Lemma contributorsOf_length (m : Rec.t Tally.t) (total : Z) :
  List.length (contributorsOf m total) = List.length m.
Proof.
  rewrite (Permutation_length (contributorsOf_perm m total)).
  apply length_map.
Qed.

Lemma percentOf_div (c : Z) (p : positive) :
  percentOf c (Zpos p) = (200 * c + Zpos p) / (2 * Zpos p).
Proof.
  unfold percentOf, JS.Math_round, JS.div, Qfloor, Qplus, Qdiv, Qmult, Qinv,
    inject_Z; cbn [Qnum Qden].
  f_equal; lia.
Qed.

Lemma percentOf_bounds (c total : Z) :
  0 < total ->
  2 * total * percentOf c total <= 200 * c + total
  /\ 200 * c + total < 2 * total * percentOf c total + 2 * total.
Proof.
  intros Ht. destruct total as [|p|p]; try lia.
  rewrite percentOf_div.
  pose proof (Z.mul_div_le (200 * c + Zpos p) (2 * Zpos p)).
  pose proof (Z.mul_succ_div_gt (200 * c + Zpos p) (2 * Zpos p)).
  lia.
Qed.

Lemma contributorsOf_percent (m : Rec.t Tally.t) (total : Z) :
  0 < total ->
  let ps := sumZ (map Contributor.percent (contributorsOf m total)) in
  let n := JS.len m in
  2 * total * ps <= 200 * sumCounts m + n * total
  /\ 200 * sumCounts m - n * total <= 2 * total * ps.
Proof.
  intros Ht.
  rewrite (sumZ_perm _ _ (Permutation_map _ (contributorsOf_perm m total))).
  rewrite map_map. cbn [Contributor.percent]. unfold sumCounts, JS.len.
  induction m as [|[a t] m IH];
    cbn [map sumZ fold_right List.length snd]; [lia|].
  pose proof (percentOf_bounds (Tally.count t) total Ht).
  fold (sumZ (map (fun x : string * Tally.t =>
                     percentOf (Tally.count (snd x)) total) m)).
  fold (sumZ (map (fun e : string * Tally.t => Tally.count (snd e)) m)).
  cbv zeta in IH. rewrite Nat2Z.inj_succ. lia.
Qed.

(** ** Building a dictionary from the entries of another *)

Section Rebuild.
Context {V W : Type} (src : Rec.t V) (g : string -> V -> W).

Let step (acc : Rec.t W) (k : string) : Rec.t W :=
  match Rec.get k src with
  | Some v => Rec.set k (g k v) acc
  | None => acc
  end.

Lemma rebuild_In (ks : list string) :
  forall acc e,
    In e (fold_left step ks acc) ->
    In e acc \/ exists v, Rec.get (fst e) src = Some v /\ snd e = g (fst e) v.
Proof.
  induction ks as [|k ks IH]; intros acc e; simpl; auto.
  intros H. apply IH in H. destruct H as [H|H]; [|now right].
  unfold step in H. destruct (Rec.get k src) as [v|] eqn:G; [|now left].
  apply set_In in H. destruct H as [->|H]; [|now left].
  right. exists v. simpl. auto.
Qed.

Lemma rebuild_get_other (ks : list string) (k : string) :
  ~ In k ks ->
  forall acc, Rec.get k (fold_left step ks acc) = Rec.get k acc.
Proof.
  induction ks as [|k' ks IH]; intros Hk acc; simpl; auto.
  simpl in Hk. rewrite IH by tauto. unfold step.
  destruct (Rec.get k' src); [|reflexivity].
  apply get_set_other. intros ->. tauto.
Qed.

Lemma rebuild_get (ks : list string) (k : string) (v : V) :
  NoDup ks -> In k ks -> Rec.get k src = Some v ->
  forall acc, Rec.get k (fold_left step ks acc) = Some (g k v).
Proof.
  induction ks as [|k' ks IH]; intros Hnd Hin Hget acc; [destruct Hin|].
  inversion_clear Hnd as [|? ? Hnotin Hnd'].
  destruct Hin as [->|Hin]; simpl.
  - rewrite rebuild_get_other by exact Hnotin.
    unfold step. rewrite Hget. apply get_set_same.
  - now apply IH.
Qed.
End Rebuild.

Lemma analyzeFileOwnership_get (fileChurn : Rec.t FileChurn.t)
    (commits : list CommitInfo.t) (file : string) (fc : FileChurn.t) :
  NoDup (Rec.keys fileChurn) -> In (file, fc) fileChurn ->
  Rec.get file (analyzeFileOwnership fileChurn commits)
  = Some (ownershipOf (fold_left tallyCommit commits Rec.empty) file fc).
Proof.
  intros Hnd Hin. unfold analyzeFileOwnership.
  apply (rebuild_get fileChurn (ownershipOf _)).
  - exact Hnd.
  - unfold Rec.keys. now apply (in_map fst) in Hin.
  - now apply NoDup_get.
Qed.

Lemma analyzeFileOwnership_In (fileChurn : Rec.t FileChurn.t)
    (commits : list CommitInfo.t) (file : string) (o : FileOwnership.t) :
  In (file, o) (analyzeFileOwnership fileChurn commits) ->
  exists fc,
    In (file, fc) fileChurn
    /\ o = ownershipOf (fold_left tallyCommit commits Rec.empty) file fc.
Proof.
  intros Hin. unfold analyzeFileOwnership in Hin.
  apply (rebuild_In fileChurn (ownershipOf _)) in Hin.
  destruct Hin as [[]|[fc [Hget Heq]]]. exists fc.
  split; [now apply get_In|exact Heq].
Qed.

(** ** Ownership and churn agree *)

(** C9. For every file that the churn pass knows, the commit counts of its
    full contributor array, as the ownership pass builds it, add up to the
    file's [totalCommits], and its rounded percentages add up to 100 within
    half a point per contributor; the stored contributors are the first
    five of that array. *)
Theorem ownership_counts_agree_with_churn (now : Z)
    (commits : list CommitInfo.t) (file : string) (fc : FileChurn.t) :
  In (file, fc) (analyzeFileChurn now commits) ->
  let full := fullContributors commits file fc in
  sumZ (map Contributor.commits full) = totalCommits fc
  /\ Z.abs (2 * (sumZ (map Contributor.percent full) - 100)) <= JS.len full
  /\ exists o,
       Rec.get file
         (analyzeFileOwnership (analyzeFileChurn now commits) commits) = Some o
       /\ FileOwnership.contributors o = JS.slice0 5 full.
Proof.
  intros Hin full.
  pose proof (analyzeFileChurn_touches _ _ _ _ Hin) as Htc.
  destruct (analyzeFileChurn_counted _ _ _ _ Hin) as [[Hpos _] _].
  assert (Hsum : sumZ (map Contributor.commits full) = totalCommits fc).
  { unfold full, fullContributors.
    now rewrite contributorsOf_commits, tallyOf_touches. }
  split; [exact Hsum|]. split.
  - assert (Ht : 0 < totalCommits fc) by lia.
    pose proof (contributorsOf_percent (tallyOf commits file) _ Ht) as Hp.
    cbv zeta in Hp. fold (fullContributors commits file fc) in Hp.
    fold full in Hp.
    rewrite tallyOf_touches, <- Htc in Hp.
    unfold JS.len in *.
    replace (List.length full) with (List.length (tallyOf commits file))
      by (symmetry; apply contributorsOf_length).
    nia.
  - eexists. split.
    + apply analyzeFileOwnership_get; [apply analyzeFileChurn_NoDup|exact Hin].
    + reflexivity.
Qed.

Lemma ownership_counts_agree_with_churn_witness :
  match Rec.get "src/auth.ts" (analyzeFileChurn 6000 fiveCommits) with
  | Some fc =>
      In ("src/auth.ts", fc) (analyzeFileChurn 6000 fiveCommits)
      /\ let full := fullContributors fiveCommits "src/auth.ts" fc in
         sumZ (map Contributor.commits full) = totalCommits fc
         /\ Z.abs (2 * (sumZ (map Contributor.percent full) - 100))
            <= JS.len full
         /\ exists o,
              Rec.get "src/auth.ts"
                (analyzeFileOwnership (analyzeFileChurn 6000 fiveCommits)
                   fiveCommits) = Some o
              /\ FileOwnership.contributors o = JS.slice0 5 full
  | None => False
  end.
Proof.
  destruct (Rec.get "src/auth.ts" (analyzeFileChurn 6000 fiveCommits))
    as [fc|] eqn:G.
  - split.
    + apply get_In, G.
    + apply (ownership_counts_agree_with_churn 6000 fiveCommits).
      apply get_In, G.
  - vm_compute in G. discriminate G.
Defined.

(** ** The clarity verdict *)

Lemma clarityOf_rule (full : list Contributor.t) :
  let top := match full with c :: _ => Contributor.percent c | [] => 0 end in
  let isDisputed := 3 <= JS.len full /\ top < 50 in
  let isShared := 2 <= JS.len full /\ top < 70 in
  (clarityOf full = disputed <-> isDisputed)
  /\ (clarityOf full = shared <-> ~ isDisputed /\ isShared)
  /\ (clarityOf full = clear <-> ~ isDisputed /\ ~ isShared).
Proof.
  unfold clarityOf, topPercentBelow.
  destruct full as [|c rest]; cbv zeta.
  - rewrite !andb_false_r. unfold JS.len; simpl.
    repeat split; intros; try discriminate; try lia.
  - rewrite !Z.geb_leb.
    destruct (Z.leb_spec 3 (JS.len (c :: rest)));
      destruct (Z.leb_spec 2 (JS.len (c :: rest)));
      destruct (Z.ltb_spec (Contributor.percent c) 50);
      destruct (Z.ltb_spec (Contributor.percent c) 70);
      cbn [andb]; repeat split; intros; try discriminate; try lia;
      intuition (try discriminate; try lia).
Qed.

(** C2. Every ownership record is classified on the full contributor array
    of its file: [disputed] exactly when that array has at least three
    members and its first member's percentage is below 50; otherwise
    [shared] exactly when it has at least two members and that percentage is
    below 70; otherwise [clear]. The array is ordered by descending commit
    count and holds one member per tallied author, the record's
    [primaryAuthorPercent] is its first member's percentage, and only its
    first five members are stored. The percentage of a member is its share
    of the file's commits in whole percent: it differs from one hundred
    times the member's commits over the file's [totalCommits] by at most
    one half. *)
Theorem ownership_clarity_rule (fileChurn : Rec.t FileChurn.t)
    (commits : list CommitInfo.t) (file : string) (o : FileOwnership.t) :
  In (file, o) (analyzeFileOwnership fileChurn commits) ->
  exists fc,
    In (file, fc) fileChurn
    /\ let full := fullContributors commits file fc in
       let top := FileOwnership.primaryAuthorPercent o in
       let isDisputed := 3 <= JS.len full /\ top < 50 in
       let isShared := 2 <= JS.len full /\ top < 70 in
       top = match full with c :: _ => Contributor.percent c | [] => 0 end
       /\ Permutation (map Contributor.author full)
            (Rec.keys (tallyOf commits file))
       /\ StronglySorted (ge_key Contributor.commits) full
       /\ (FileOwnership.ownershipClarity o = disputed <-> isDisputed)
       /\ (FileOwnership.ownershipClarity o = shared
           <-> ~ isDisputed /\ isShared)
       /\ (FileOwnership.ownershipClarity o = clear
           <-> ~ isDisputed /\ ~ isShared)
       /\ FileOwnership.contributors o = firstn 5 full
       /\ (0 < FileChurn.totalCommits fc ->
           forall cn,
             In cn full ->
             2 * Z.abs (100 * Contributor.commits cn
                        - Contributor.percent cn * FileChurn.totalCommits fc)
             <= FileChurn.totalCommits fc).
Proof.
  intros Hin. apply analyzeFileOwnership_In in Hin.
  destruct Hin as [fc [Hin ->]]. exists fc. split; [exact Hin|].
  cbv zeta. unfold ownershipOf. cbn [FileOwnership.primaryAuthorPercent
    FileOwnership.ownershipClarity FileOwnership.contributors].
  fold (tallyOf commits file). fold (fullContributors commits file fc).
  split; [reflexivity|]. split.
  - unfold fullContributors.
    rewrite (Permutation_map _ (contributorsOf_perm _ _)).
    rewrite map_map. cbn [Contributor.author]. reflexivity.
  - split; [apply (sort_sorted Contributor.commits)|].
    pose proof (clarityOf_rule (fullContributors commits file fc)) as H.
    cbv zeta in H. destruct H as [Hd [Hs Hc]].
    split; [exact Hd|]. split; [exact Hs|]. split; [exact Hc|].
    split; [reflexivity|].
    intros Htotal cn Hcn. unfold fullContributors in Hcn.
    apply (Permutation_in _ (contributorsOf_perm _ _)) in Hcn.
    apply in_map_iff in Hcn. destruct Hcn as [[a t] [<- _]].
    cbn [Contributor.commits Contributor.percent snd].
    pose proof (percentOf_bounds (Tally.count t) _ Htotal). lia.
Qed.

Lemma ownership_clarity_rule_witness :
  match
    Rec.get "src/auth.ts"
      (analyzeFileOwnership (analyzeFileChurn 6000 fiveCommits) fiveCommits)
  with
  | Some o =>
      FileOwnership.ownershipClarity o = disputed
      /\ exists fc,
           In ("src/auth.ts", fc) (analyzeFileChurn 6000 fiveCommits)
           /\ 3 <= JS.len (fullContributors fiveCommits "src/auth.ts" fc)
           /\ FileOwnership.primaryAuthorPercent o < 50
  | None => False
  end.
Proof.
  destruct (Rec.get "src/auth.ts"
              (analyzeFileOwnership (analyzeFileChurn 6000 fiveCommits)
                 fiveCommits)) as [o|] eqn:G.
  - assert (Hcl : FileOwnership.ownershipClarity o = disputed)
      by (vm_compute in G; injection G as <-; reflexivity).
    destruct (ownership_clarity_rule (analyzeFileChurn 6000 fiveCommits)
                fiveCommits "src/auth.ts" o (get_In _ _ _ G))
      as [fc [Hin [_ [_ [_ [Hd _]]]]]].
    split; [exact Hcl|]. exists fc. split; [exact Hin|].
    apply Hd, Hcl.
  - vm_compute in G. discriminate G.
Defined.

(** ** A file with one author and one commit *)

Lemma len_le_sumCounts (m : Rec.t Tally.t) :
  Forall (fun a => 1 <= Tally.count (snd a)) m -> JS.len m <= sumCounts m.
Proof.
  unfold JS.len, sumCounts.
  induction 1 as [|[a t] m Ht Hm IH];
    cbn [map sumZ fold_right List.length snd]; [lia|].
  fold (sumZ (map (fun e : string * Tally.t => Tally.count (snd e)) m)).
  simpl in Ht. rewrite Nat2Z.inj_succ. lia.
Qed.

(** C5, as stated, fails: a file whose only commit is recent and large has
    one author and one commit, yet a churn score of 26. *)
Lemma single_commit_score_counterexample :
  exists fc,
    In ("a.ts", fc) (analyzeFileChurn 1000 oneBigCommit)
    /\ authorCount fc = 1
    /\ totalCommits fc = 1
    /\ churnScore fc = 26
    /\ ~ churnScore fc <= 2.
Proof.
  exists (deriveChurn 1000
            (accumulate 1000 (commitAt "Alice" 1000 ["a.ts"] 2000 0 "Add a"
                                false false)
               (newFileChurn "a.ts"
                  (commitAt "Alice" 1000 ["a.ts"] 2000 0 "Add a" false false)))).
  split; [left; reflexivity|].
  assert (Hs : churnScore
                 (deriveChurn 1000
                    (accumulate 1000
                       (commitAt "Alice" 1000 ["a.ts"] 2000 0 "Add a"
                          false false)
                       (newFileChurn "a.ts"
                          (commitAt "Alice" 1000 ["a.ts"] 2000 0 "Add a"
                             false false)))) = 26) by (vm_compute; reflexivity).
  repeat split; try reflexivity; try exact Hs. rewrite Hs. lia.
Qed.

(** C5, amended. A file whose churn record has exactly one author and
    exactly one commit scores 2, plus 3 when that commit lies in the last 30
    days, plus 1 when it lies in the last 90 days, plus 10 when more than
    500 lines changed and 10 more when more than 1000 did: between 2 and 26,
    and exactly 2 for a commit older than 90 days with at most 500 changed
    lines. Its ownership clarity is [clear]. *)
Theorem single_commit_file (now : Z) (commits : list CommitInfo.t)
    (file : string) (fc : FileChurn.t) :
  In (file, fc) (analyzeFileChurn now commits) ->
  authorCount fc = 1 ->
  totalCommits fc = 1 ->
  churnScore fc
  = 2 + commitsLast30Days fc * 3 + commitsLast90Days fc
    + (if JS.gtb (totalChangesOf fc) 500 then 10 else 0)
    + (if JS.gtb (totalChangesOf fc) 1000 then 10 else 0)
  /\ 0 <= commitsLast30Days fc <= commitsLast90Days fc
  /\ commitsLast90Days fc <= 1
  /\ 2 <= churnScore fc <= 26
  /\ (commitsLast90Days fc = 0 -> JS.gtb (totalChangesOf fc) 500 = false ->
      churnScore fc = 2)
  /\ exists o,
       Rec.get file
         (analyzeFileOwnership (analyzeFileChurn now commits) commits) = Some o
       /\ FileOwnership.ownershipClarity o = clear.
Proof.
  intros Hin Hac Htc.
  destruct (analyzeFileChurn_counted _ _ _ _ Hin) as [[_ [H30 H90]] _].
  assert (Hscore : churnScore fc
                   = specChurnScore (totalCommits fc) (authorCount fc)
                       (commitsLast30Days fc) (commitsLast90Days fc)
                       (totalChangesOf fc)).
  { pose proof Hin as Hin'. apply analyzeFileChurn_In in Hin'.
    destruct Hin' as [fc0 [_ ->]]. apply deriveChurn_score. }
  unfold specChurnScore in Hscore.
  rewrite Math_round_integer, Hac, Htc in Hscore.
  change (1 >? 1) with false in Hscore. change (1 >? 3) with false in Hscore.
  change (Z.min (1 * 2) 30) with 2 in Hscore. cbv iota in Hscore.
  assert (Hmono : JS.gtb (totalChangesOf fc) 1000 = true ->
                  JS.gtb (totalChangesOf fc) 500 = true).
  { unfold JS.gtb.
    destruct (Qcompare_spec (totalChangesOf fc) (inject_Z 1000)) as [| |Hgt];
      try discriminate.
    intros _.
    destruct (Qcompare_spec (totalChangesOf fc) (inject_Z 500)) as [He|Hl|];
      try reflexivity; exfalso.
    - rewrite He in Hgt. revert Hgt. now vm_compute.
    - apply (Qlt_irrefl (inject_Z 1000)).
      eapply Qlt_trans; [exact Hgt|]. eapply Qlt_trans; [exact Hl|].
      reflexivity. }
  split; [|split; [exact H30|split; [lia|split; [|split]]]].
  - rewrite Hscore. lia.
  - rewrite Hscore.
    destruct (JS.gtb (totalChangesOf fc) 500),
      (JS.gtb (totalChangesOf fc) 1000); lia.
  - intros H0 H500. rewrite Hscore, H500.
    destruct (JS.gtb (totalChangesOf fc) 1000) eqn:E;
      [specialize (Hmono eq_refl); congruence|]. lia.
  - eexists. split.
    + apply analyzeFileOwnership_get; [apply analyzeFileChurn_NoDup|exact Hin].
    + unfold ownershipOf. cbn [FileOwnership.ownershipClarity].
      fold (tallyOf commits file).
      pose proof (clarityOf_rule
                    (contributorsOf (tallyOf commits file) (totalCommits fc)))
        as [_ [_ Hclear]].
      apply Hclear.
      pose proof (len_le_sumCounts _ (tallyOf_positive commits file)) as Hlen.
      rewrite tallyOf_touches, <- (analyzeFileChurn_touches _ _ _ _ Hin), Htc
        in Hlen.
      unfold JS.len in *. rewrite contributorsOf_length. lia.
Qed.

Lemma single_commit_file_witness :
  match Rec.get "a.ts" (analyzeFileChurn 1000 oneBigCommit) with
  | Some fc => 2 <= churnScore fc <= 26
  | None => False
  end.
Proof.
  destruct (Rec.get "a.ts" (analyzeFileChurn 1000 oneBigCommit))
    as [fc|] eqn:G.
  - refine (proj1 (proj2 (proj2 (proj2
              (single_commit_file 1000 oneBigCommit "a.ts" fc
                 (get_In _ _ _ G) _ _))))).
    + vm_compute in G. injection G as <-. reflexivity.
    + vm_compute in G. injection G as <-. reflexivity.
  - vm_compute in G. discriminate G.
Defined.

(** ** Loops that push onto an array *)

Section Pushing.
Context {A B : Type} (step : list B -> A -> list B).
Hypothesis step_app : forall acc a, step acc a = acc ++ step [] a.

Lemma pushing_fold (l : list A) :
  forall acc, fold_left step l acc = acc ++ flat_map (step []) l.
Proof.
  induction l as [|a l IH]; intros acc; simpl.
  - now rewrite app_nil_r.
  - now rewrite IH, step_app, <- app_assoc.
Qed.
End Pushing.

(** ** Fragile files *)

Lemma fragileStep_app (fixes : Rec.t Z) (acc : list FragileFile.t)
    (e : string * FileChurn.t) :
  fragileStep fixes acc e = acc ++ fragileStep fixes [] e.
Proof.
  unfold fragileStep. destruct e as [path churn].
  destruct (fragileEvidence churn (fixesOf fixes path)) as [evidence reasons].
  destruct (JS.len evidence >? 0); [reflexivity|now rewrite app_nil_r].
Qed.

Lemma fragileCandidates_flat (fileChurn : Rec.t FileChurn.t)
    (commits : list CommitInfo.t) :
  fragileCandidates fileChurn commits
  = flat_map (fragileStep (fixCommitsPerFile commits) []) fileChurn.
Proof.
  unfold fragileCandidates, Rec.entries.
  now rewrite (pushing_fold _ (fragileStep_app _)).
Qed.

(** What one file contributes to the candidates: nothing, or one record. *)
Lemma fragileStep_one (fixes : Rec.t Z) (path : string) (churn : FileChurn.t)
    (f : FragileFile.t) :
  In f (fragileStep fixes [] (path, churn)) ->
  fragileStep fixes [] (path, churn) = [f]
  /\ FragileFile.path f = path
  /\ FragileFile.recommendation f
     = recommend (FileChurn.authorCount churn) (fixesOf fixes path).
Proof.
  unfold fragileStep.
  destruct (fragileEvidence churn (fixesOf fixes path)) as [evidence reasons].
  destruct (JS.len evidence >? 0); [|intros []].
  intros [<-|[]]. repeat split.
Qed.

Lemma identifyFragileFiles_candidates (fileChurn : Rec.t FileChurn.t)
    (fileOwnership : Rec.t FileOwnership.t) (commits : list CommitInfo.t)
    (f : FragileFile.t) :
  In f (identifyFragileFiles fileChurn fileOwnership commits) ->
  In f (fragileCandidates fileChurn commits).
Proof.
  unfold identifyFragileFiles, JS.slice0. intros H. apply in_firstn in H.
  eapply Permutation_in; [apply sort_perm|exact H].
Qed.

(** The fix-commit map counts the visits by fix commits. *)
Lemma fixesOf_touches (commits : list CommitInfo.t) (file : string) :
  fixesOf (fixCommitsPerFile commits) file
  = touches file (filter CommitInfo.isFix commits).
Proof.
  unfold fixCommitsPerFile.
  enough (H : forall fixes,
             fixesOf
               (fold_left
                  (fun fixes commit =>
                     if CommitInfo.isFix commit then
                       fold_left
                         (fun fixes file =>
                            Rec.set file (orZero (Rec.get file fixes) + 1) fixes)
                         (CommitInfo.filesChanged commit) fixes
                     else fixes) commits fixes) file
             = fixesOf fixes file + touches file (filter CommitInfo.isFix commits))
    by (rewrite H; reflexivity).
  induction commits as [|c commits IH]; intros fixes; simpl; [lia|].
  rewrite IH. destruct (CommitInfo.isFix c); [|reflexivity].
  simpl. rewrite Z.add_assoc. f_equal.
  generalize (CommitInfo.filesChanged c). intros files. revert fixes.
  induction files as [|g files IHf]; intros fixes; simpl; [lia|].
  rewrite IHf. unfold fixesOf.
  destruct (String.eqb_spec file g) as [->|Hne].
  - rewrite get_set_same. cbn [orZero]. lia.
  - rewrite get_set_other by assumption. lia.
Qed.

(** C3, as stated, fails: a fragile file with four authors and three fix
    commits gets the tests-and-rewrite recommendation, not the
    assign-clear-ownership one. *)
Lemma recommendation_priority_counterexample :
  let churn := analyzeFileChurn 5000 fourAuthorsThreeFixes in
  let ownership := analyzeFileOwnership churn fourAuthorsThreeFixes in
  exists fc f,
    Rec.get "x.ts" churn = Some fc
    /\ FileChurn.authorCount fc = 4
    /\ touches "x.ts" (filter CommitInfo.isFix fourAuthorsThreeFixes) = 3
    /\ identifyFragileFiles churn ownership fourAuthorsThreeFixes = [f]
    /\ FragileFile.path f = "x.ts"
    /\ FragileFile.recommendation f
       = "Add comprehensive tests and consider a rewrite."
    /\ FragileFile.recommendation f
       <> "Assign clear ownership and document expected behavior.".
Proof.
  cbv zeta.
  destruct (Rec.get "x.ts" (analyzeFileChurn 5000 fourAuthorsThreeFixes))
    as [fc|] eqn:G; [|vm_compute in G; discriminate G].
  exists fc.
  destruct (identifyFragileFiles (analyzeFileChurn 5000 fourAuthorsThreeFixes)
              (analyzeFileOwnership
                 (analyzeFileChurn 5000 fourAuthorsThreeFixes)
                 fourAuthorsThreeFixes) fourAuthorsThreeFixes)
    as [|f [|g rest]] eqn:F; try (vm_compute in F; discriminate F).
  exists f. vm_compute in G. injection G as <-.
  vm_compute in F. injection F as <-.
  repeat split. discriminate.
Qed.

(** C3, amended. The recommendation of a fragile file is decided by the
    last assignment that fires: the tests-and-rewrite text when at least
    three fix commits touched the file; otherwise the assign-clear-ownership
    text when the file has at least four authors; otherwise the generic
    review text. A file with at least four authors and at least three fix
    commits therefore gets the tests-and-rewrite text. *)
Theorem recommendation_last_assignment_wins (fileChurn : Rec.t FileChurn.t)
    (fileOwnership : Rec.t FileOwnership.t) (commits : list CommitInfo.t)
    (f : FragileFile.t) :
  In f (identifyFragileFiles fileChurn fileOwnership commits) ->
  exists churn,
    In (FragileFile.path f, churn) fileChurn
    /\ let fixCount :=
         touches (FragileFile.path f) (filter CommitInfo.isFix commits) in
       FragileFile.recommendation f
       = if fixCount >=? 3
         then "Add comprehensive tests and consider a rewrite."
         else if FileChurn.authorCount churn >=? 4
         then "Assign clear ownership and document expected behavior."
         else "Review this file for potential refactoring.".
Proof.
  intros Hin. apply identifyFragileFiles_candidates in Hin.
  rewrite fragileCandidates_flat, in_flat_map in Hin.
  destruct Hin as [[path churn] [Hentry Hin]].
  apply fragileStep_one in Hin. destruct Hin as [_ [Hpath Hrec]].
  exists churn. rewrite Hpath. split; [exact Hentry|].
  cbv zeta. rewrite Hrec, <- fixesOf_touches. unfold recommend.
  now destruct (fixesOf (fixCommitsPerFile commits) path >=? 3).
Qed.

Lemma recommendation_last_assignment_wins_witness :
  let churn := analyzeFileChurn 5000 fourAuthorsThreeFixes in
  match identifyFragileFiles churn [] fourAuthorsThreeFixes with
  | f :: _ =>
      exists fc,
        In (FragileFile.path f, fc) churn
        /\ FragileFile.recommendation f
           = if touches (FragileFile.path f)
                  (filter CommitInfo.isFix fourAuthorsThreeFixes) >=? 3
             then "Add comprehensive tests and consider a rewrite."
             else if FileChurn.authorCount fc >=? 4
             then "Assign clear ownership and document expected behavior."
             else "Review this file for potential refactoring."
  | [] => False
  end.
Proof.
  cbv zeta.
  destruct (identifyFragileFiles (analyzeFileChurn 5000 fourAuthorsThreeFixes)
              [] fourAuthorsThreeFixes) as [|f rest] eqn:F.
  - vm_compute in F. discriminate F.
  - apply (recommendation_last_assignment_wins
             (analyzeFileChurn 5000 fourAuthorsThreeFixes) []
             fourAuthorsThreeFixes f).
    rewrite F. now left.
Defined.

(** ** The timeline *)

Lemma perm_filter {A : Type} (f : A -> bool) (l l' : list A) :
  Permutation l l' -> Permutation (filter f l) (filter f l').
Proof.
  induction 1 as [|x l l' _ IH|x y l|l l' l'' _ IH1 _ IH2]; simpl.
  - constructor.
  - destruct (f x); [now constructor|exact IH].
  - destruct (f x), (f y); try reflexivity. apply perm_swap.
  - now transitivity (filter f l').
Qed.

Lemma recentEvents_map (commits : list CommitInfo.t) :
  recentEvents commits
  = map commitEvent (filter notMerge (firstn 20 commits)).
Proof.
  unfold recentEvents, JS.slice0.
  generalize (firstn 20 commits). intros l.
  rewrite (pushing_fold
             (fun events commit =>
                if CommitInfo.isMerge commit then events
                else events ++ [commitEvent commit])).
  - cbn [app].
    induction l as [|c l IH]; simpl; [reflexivity|].
    unfold notMerge. destruct (CommitInfo.isMerge c); simpl; now rewrite IH.
  - intros acc c. destruct (CommitInfo.isMerge c); [now rewrite app_nil_r|].
    reflexivity.
Qed.

Lemma isCommitEvent_commitEvent (c : CommitInfo.t) :
  isCommitEvent (commitEvent c) = true.
Proof.
  unfold isCommitEvent, commitEvent.
  now destruct (CommitInfo.isRefactor c).
Qed.

(** The second loop only appends events of type [quiet-period]. *)
Lemma quietEvents_filter (commits : list CommitInfo.t)
    (events : list TimelineEvent.t) :
  filter isCommitEvent (quietEvents commits events)
  = filter isCommitEvent events.
Proof.
  unfold quietEvents. generalize (adjacent commits). intros pairs.
  revert events. induction pairs as [|p pairs IH]; intros events; simpl;
    [reflexivity|].
  rewrite IH.
  destruct (JS.gtb _ 14); [|reflexivity].
  rewrite filter_app. simpl. apply app_nil_r.
Qed.

(** C4, as stated, fails: with twenty non-merge commits behind one merge
    commit, only nineteen commit events are produced. *)
Lemma timeline_twenty_counterexample :
  List.length (filter notMerge mergeThenTwenty) = 20%nat
  /\ List.length (filter isCommitEvent (buildTimeline mergeThenTwenty []))
     = 19%nat.
Proof.
  split; vm_compute; reflexivity.
Qed.

(** C4, amended. The timeline builder takes the twenty most recent commits
    and emits one event for each of them that is not a merge commit, of type
    [major-refactor] when the commit is flagged as a refactor and [commit]
    otherwise. The number of such events is the number of non-merge commits
    among those twenty: at most twenty, and one fewer for each merge commit
    among them. *)
Theorem timeline_commit_events (commits : list CommitInfo.t)
    (fileChurn : Rec.t FileChurn.t) :
  let events := filter isCommitEvent (buildTimeline commits fileChurn) in
  Permutation events (map commitEvent (filter notMerge (firstn 20 commits)))
  /\ (forall c,
         TimelineEvent.type (commitEvent c)
         = if CommitInfo.isRefactor c then ev_major_refactor else ev_commit)
  /\ List.length events
     = List.length (filter notMerge (firstn 20 commits))
  /\ (List.length events
      + List.length (filter CommitInfo.isMerge (firstn 20 commits))
      = Nat.min 20 (List.length commits))%nat.
Proof.
  cbv zeta.
  assert (Hperm : Permutation
                    (filter isCommitEvent (buildTimeline commits fileChurn))
                    (map commitEvent (filter notMerge (firstn 20 commits)))).
  { unfold buildTimeline.
    rewrite (perm_filter _ _ _ (sort_perm _ _)).
    rewrite quietEvents_filter, recentEvents_map.
    rewrite forallb_filter_id; [reflexivity|].
    apply forallb_forall. intros e He. apply in_map_iff in He.
    destruct He as [c [<- _]]. apply isCommitEvent_commitEvent. }
  split; [exact Hperm|]. split.
  - intros c. unfold commitEvent.
    now destruct (CommitInfo.isRefactor c).
  - rewrite (Permutation_length Hperm), length_map. split; [reflexivity|].
    rewrite <- (length_firstn 20 commits).
    generalize (firstn 20 commits). intros l.
    induction l as [|c l IH]; simpl; [reflexivity|].
    unfold notMerge at 1. destruct (CommitInfo.isMerge c); simpl; lia.
Qed.

(** ** The top-level analysis *)

Lemma processCommits_map (w : World.t) (log : LogResult.t) :
  processCommits w log = Resolved (map (processEntry w) (LogResult.all log)).
Proof.
  unfold processCommits. f_equal.
  rewrite (pushing_fold (fun commits entry => commits ++ [processEntry w entry]))
    by reflexivity.
  cbn [app]. induction (LogResult.all log) as [|e l IH]; simpl; congruence.
Qed.

(** ** The passes as the engine runs them *)

Lemma ordinaryKeys_empty {V : Type} : ordinaryKeys (@Rec.empty V).
Proof.
  intros k [].
Qed.

Lemma ordinaryKeys_set {V : Type} (k : string) (v : V) (r : Rec.t V) :
  inheritedProperty k = false -> ordinaryKeys r -> ordinaryKeys (Rec.set k v r).
Proof.
  intros Hk Hr k' Hin. apply keys_set in Hin.
  destruct Hin as [->|Hin]; [exact Hk|now apply Hr].
Qed.

(** An object whose keys are ordinary answers a lookup of an inherited name
    with the inherited property. *)
Lemma ordinaryKeys_get {V : Type} (k : string) (r : Rec.t V) :
  ordinaryKeys r -> inheritedProperty k = true -> Rec.get k r = None.
Proof.
  intros Hr Hk. destruct (Rec.get k r) as [v|] eqn:G; [|reflexivity].
  apply get_In in G. apply (in_map fst) in G. apply Hr in G.
  cbn [fst] in G. congruence.
Qed.

Lemma Run_churnCommit_spec (now : Z) (c : CommitInfo.t) :
  forall churn,
    ordinaryKeys churn ->
    Run.churnCommit now churn c
    = (if strangePath c then Rejected "TypeError"
       else Resolved (churnCommit now churn c))
    /\ (strangePath c = false -> ordinaryKeys (churnCommit now churn c)).
Proof.
  unfold Run.churnCommit, churnCommit, strangePath.
  induction (CommitInfo.filesChanged c) as [|f files IH]; intros churn Hord;
    cbn [foldM fold_left existsb].
  - split; [reflexivity|intros _; exact Hord].
  - unfold Run.churnFile at 1.
    destruct (inheritedProperty f) eqn:Hf; cbn [orb].
    + rewrite (ordinaryKeys_get f churn Hord Hf). cbn [bind].
      split; [reflexivity|discriminate].
    + assert (Hnext : ordinaryKeys (churnFile now c churn f))
        by (unfold churnFile; now apply ordinaryKeys_set).
      destruct (Rec.get f churn); cbn [bind]; now apply IH.
Qed.

(** The churn pass throws exactly on a log with a strange path, and is the
    pass of the same name on every other log. *)
Lemma Run_analyzeFileChurn_spec (now : Z) (commits : list CommitInfo.t) :
  Run.analyzeFileChurn now commits
  = if existsb strangePath commits then Rejected "TypeError"
    else Resolved (analyzeFileChurn now commits).
Proof.
  unfold Run.analyzeFileChurn, analyzeFileChurn.
  enough (H : forall churn,
             ordinaryKeys churn ->
             foldM (Run.churnCommit now) commits churn
             = if existsb strangePath commits then Rejected "TypeError"
               else Resolved (fold_left (churnCommit now) commits churn)).
  { rewrite (H Rec.empty ordinaryKeys_empty).
    now destruct (existsb strangePath commits). }
  induction commits as [|c commits IH]; intros churn Hord;
    cbn [foldM fold_left existsb]; [reflexivity|].
  destruct (Run_churnCommit_spec now c churn Hord) as [-> Hnext].
  destruct (strangePath c); cbn [bind orb]; [reflexivity|].
  apply IH. now apply Hnext.
Qed.

Lemma Run_analyzeFileChurn_resolved (now : Z) (commits : list CommitInfo.t)
    (churn : Rec.t FileChurn.t) :
  Run.analyzeFileChurn now commits = Resolved churn ->
  churn = analyzeFileChurn now commits
  /\ forall c f,
       In c commits -> In f (CommitInfo.filesChanged c) ->
       inheritedProperty f = false.
Proof.
  rewrite Run_analyzeFileChurn_spec.
  destruct (existsb strangePath commits) eqn:E; [discriminate|].
  intros [= <-]. split; [reflexivity|]. intros c f Hc Hf.
  destruct (inheritedProperty f) eqn:Hi; [|reflexivity].
  assert (existsb strangePath commits = true); [|congruence].
  apply existsb_exists. exists c. split; [exact Hc|].
  apply existsb_exists. now exists f.
Qed.

(** The author pass throws exactly on a log with a strange author, and on
    every other log is the pass of the same name over the commits whose
    author is not named like an inherited property. *)
Lemma Run_analyzeAuthorStats_spec (commits : list CommitInfo.t) :
  Run.analyzeAuthorStats commits
  = if existsb strangeAuthor commits then Rejected "TypeError"
    else Resolved (analyzeAuthorStats (filter ordinaryAuthor commits)).
Proof.
  unfold Run.analyzeAuthorStats, analyzeAuthorStats.
  enough (H : forall stats,
             ordinaryKeys stats ->
             foldM Run.authorCommit commits stats
             = if existsb strangeAuthor commits then Rejected "TypeError"
               else Resolved
                      (fold_left authorCommit (filter ordinaryAuthor commits)
                         stats)).
  { rewrite (H Rec.empty ordinaryKeys_empty).
    now destruct (existsb strangeAuthor commits). }
  induction commits as [|c commits IH]; intros stats Hord;
    cbn [foldM fold_left existsb filter]; [reflexivity|].
  unfold Run.authorCommit at 1, strangeAuthor at 1, ordinaryAuthor at 1.
  destruct (inheritedProperty (CommitInfo.author c)) eqn:Ha;
    cbn [andb negb orb].
  - rewrite (ordinaryKeys_get _ stats Hord Ha).
    destruct (CommitInfo.filesChanged c); cbn [bind]; [now apply IH|].
    reflexivity.
  - assert (Hnext : ordinaryKeys (authorCommit stats c))
      by (unfold authorCommit; now apply ordinaryKeys_set).
    destruct (Rec.get (CommitInfo.author c) stats); cbn [bind fold_left];
      now apply IH.
Qed.

(** ** The commit pattern *)

Lemma longestGap_fold (bound : Z) (pairs : list (CommitInfo.t * CommitInfo.t)) :
  forall init,
    (fold_left
       (fun longestGapDays p =>
          let gap :=
            JS.div (CommitInfo.timestamp (fst p) - CommitInfo.timestamp (snd p))
                   (24 * 60 * 60 * 1000) in
          if JS.gtb gap longestGapDays then JS.Math_floor gap
          else longestGapDays)
       pairs init >? bound)
    = (init >? bound)
      || existsb
           (fun p =>
              CommitInfo.timestamp (fst p) - CommitInfo.timestamp (snd p)
              >=? (bound + 1) * dayMs)
           pairs.
Proof.
  induction pairs as [|p pairs IH]; intros init; cbn [fold_left existsb].
  - now rewrite orb_false_r.
  - rewrite IH. cbv zeta.
    change (24 * 60 * 60 * 1000) with 86400000. unfold dayMs.
    change (24 * 60 * 60 * 1000) with 86400000.
    rewrite gtb_div_spec, Math_floor_div.
    set (d := CommitInfo.timestamp (fst p) - CommitInfo.timestamp (snd p)).
    rewrite orb_assoc. f_equal.
    pose proof (Z.mul_div_le d 86400000 ltac:(lia)) as Hlo.
    pose proof (Z.mul_succ_div_gt d 86400000 ltac:(lia)) as Hhi.
    set (q := d / 86400000) in *.
    rewrite Z.geb_leb, !Z.gtb_ltb.
    destruct (Z.ltb_spec (init * 86400000) d);
      destruct (Z.ltb_spec bound init);
      destruct (Z.leb_spec ((bound + 1) * 86400000) d);
      cbn [orb];
      try reflexivity;
      try (apply Z.ltb_lt; lia);
      try (apply Z.ltb_ge; lia);
      try (exfalso; lia).
Qed.

Lemma longestGap_exceeds (bound : Z) (commits : list CommitInfo.t) :
  0 <= bound ->
  (longestGap commits >? bound)
  = existsb
      (fun p =>
         CommitInfo.timestamp (fst p) - CommitInfo.timestamp (snd p)
         >=? (bound + 1) * dayMs)
      (adjacent commits).
Proof.
  intros Hb. unfold longestGap. rewrite longestGap_fold.
  destruct (Z.gtb_spec 0 bound); [lia|reflexivity].
Qed.

(** ** Rounding to the nearest double *)

Lemma nearestEven_near (n d : Z) :
  0 < d -> 2 * Z.abs (JS.nearestEven n d * d - n) <= d.
Proof.
  intros Hd. unfold JS.nearestEven.
  pose proof (Z.div_mod n d ltac:(lia)) as E.
  pose proof (Z.mod_pos_bound n d Hd) as B.
  destruct (Z.compare_spec (2 * (n mod d)) d) as [H|H|H];
    [destruct (Z.even (n / d))| |]; nia.
Qed.

(** The exponent chosen by [doublePos] leaves at least 53 bits before the
    point. *)
Lemma shifted_large (p q : positive) :
  let k0 := 52 - (Z.log2 (Zpos p) - Z.log2 (Zpos q)) in
  let k :=
    if fst (JS.shifted (Zpos p) (Zpos q) k0)
       / snd (JS.shifted (Zpos p) (Zpos q) k0) <? 2 ^ 52
    then k0 + 1 else k0 in
  0 < snd (JS.shifted (Zpos p) (Zpos q) k)
  /\ 2 ^ 52 * snd (JS.shifted (Zpos p) (Zpos q) k)
     <= fst (JS.shifted (Zpos p) (Zpos q) k).
Proof.
  cbv zeta.
  set (P := Zpos p). set (Q := Zpos q).
  assert (HP : 0 < P) by reflexivity. assert (HQ : 0 < Q) by reflexivity.
  pose proof (Z.log2_spec P HP) as [HP1 HP2].
  pose proof (Z.log2_spec Q HQ) as [HQ1 HQ2].
  pose proof (Z.log2_nonneg P) as HlP. pose proof (Z.log2_nonneg Q) as HlQ.
  set (lp := Z.log2 P) in *. set (lq := Z.log2 Q) in *.
  set (k0 := 52 - (lp - lq)).
  assert (Hd : forall k, 0 < snd (JS.shifted P Q k)).
  { intros k. unfold JS.shifted. destruct (0 <=? k) eqn:E; cbn [snd]; [lia|].
    apply Z.leb_gt in E.
    assert (0 < 2 ^ (- k)) by (apply Z.pow_pos_nonneg; lia). nia. }
  split; [apply Hd|].
  destruct (Z.ltb_spec (fst (JS.shifted P Q k0) / snd (JS.shifted P Q k0))
              (2 ^ 52)) as [Hlt|Hge].
  - unfold JS.shifted. rewrite Z.pow_succ_r in HP2, HQ2 by assumption.
    destruct (Z.leb_spec 0 (k0 + 1)) as [Hk|Hk]; cbn [fst snd].
    + assert (E : 2 ^ lp * 2 ^ (k0 + 1) = 2 ^ 52 * (2 * 2 ^ lq)).
      { rewrite <- Z.pow_succ_r, <- !Z.pow_add_r by lia. f_equal.
        unfold k0. lia. }
      assert (0 < 2 ^ (k0 + 1)) by (apply Z.pow_pos_nonneg; lia).
      nia.
    + assert (E : 2 ^ 52 * (2 * 2 ^ lq) * 2 ^ (- (k0 + 1)) = 2 ^ lp).
      { rewrite <- Z.pow_succ_r, <- !Z.pow_add_r by lia. f_equal.
        unfold k0. lia. }
      assert (0 < 2 ^ (- (k0 + 1))) by (apply Z.pow_pos_nonneg; lia).
      nia.
  - specialize (Hd k0).
    pose proof (Z.mul_div_le (fst (JS.shifted P Q k0)) _ Hd). nia.
Qed.

(** Rounding a positive fraction changes it by at most one part in
    [2 ^ 53]. *)
Lemma doublePos_bounds (p q : positive) :
  ((Zpos p # q) * (1 - halfUlp) <= JS.doublePos p q
   /\ JS.doublePos p q <= (Zpos p # q) * (1 + halfUlp))%Q.
Proof.
  unfold JS.doublePos.
  destruct (shifted_large p q) as [Hd Hn]. cbv zeta in Hd, Hn.
  set (k := if _ <? 2 ^ 52 then _ else _) in *.
  pose proof (nearestEven_near (fst (JS.shifted (Zpos p) (Zpos q) k)) _ Hd)
    as Hm.
  set (m := JS.nearestEven _ _) in *.
  unfold JS.shifted in Hd, Hn, Hm.
  destruct (Z.leb_spec 0 k) as [Hk|Hk]; cbn [fst snd] in Hd, Hn, Hm.
  - assert (Hpow : 0 < 2 ^ k) by (apply Z.pow_pos_nonneg; lia).
    destruct (2 ^ k) as [|t|t] eqn:Et; try lia.
    unfold Qle, Qdiv, Qmult, Qinv, Qminus, Qplus, Qopp, inject_Z, halfUlp.
    cbn [Qnum Qden]. split; nia.
  - assert (Hpow : 0 < 2 ^ (- k)) by (apply Z.pow_pos_nonneg; lia).
    unfold Qle, Qmult, Qminus, Qplus, Qopp, inject_Z, halfUlp.
    cbn [Qnum Qden]. split; nia.
Qed.

Lemma double_nonneg_bounds (x : Q) :
  (0 <= x ->
   x * (1 - halfUlp) <= JS.double x /\ JS.double x <= x * (1 + halfUlp))%Q.
Proof.
  destruct x as [[|p|p] q]; unfold JS.double; cbn [Qnum Qden]; intros H.
  - split; unfold Qle; cbn; lia.
  - apply doublePos_bounds.
  - exfalso. unfold Qle in H. cbn in H. lia.
Qed.

Lemma double_nonpos (x : Q) : (x <= 0 -> JS.double x <= 0)%Q.
Proof.
  destruct x as [[|p|p] q]; unfold JS.double; cbn [Qnum Qden]; intros H.
  - apply Qle_refl.
  - exfalso. unfold Qle in H. cbn in H. lia.
  - destruct (doublePos_bounds p q) as [Hlo _].
    assert (0 <= (Zpos p # q) * (1 - halfUlp))%Q.
    { unfold Qle, Qmult, Qminus, Qplus, Qopp, halfUlp. cbn. lia. }
    lra.
Qed.

(** The four roundings on the way from the two timestamps to the argument
    of [Math.round] change ten times the exact weekly average by at most
    one part in [2 ^ 50]. *)
Lemma average_roundings (n : Z) (span : Q) :
  0 <= n ->
  let daySpan := Qmax 1 (JS.double span) in
  let weekSpan := JS.double (daySpan / 7) in
  let scaled := JS.double (JS.double (inject_Z n / weekSpan) * 10) in
  let exact := (inject_Z n / (Qmax 1 span / 7))%Q in
  (0 <= exact
   /\ 10 * exact * (1 - roundingSlack) <= scaled
   /\ scaled <= 10 * exact * (1 + roundingSlack))%Q.
Proof.
  intros Hn. cbv zeta.
  set (D := Qmax 1 span). set (d1 := Qmax 1 (JS.double span)).
  set (w := JS.double (d1 / 7)).
  set (x := JS.double (inject_Z n / w)).
  set (y := JS.double (x * 10)).
  set (A := (inject_Z n / (D / 7))%Q).
  assert (HD : (1 <= D)%Q) by apply Q.le_max_l.
  assert (Hd1 : (1 <= d1)%Q) by apply Q.le_max_l.
  assert (Hd : (D * (1 - halfUlp) <= d1 /\ d1 <= D * (1 + halfUlp))%Q).
  { assert (Hu : (halfUlp == 1 # 9007199254740992)%Q) by reflexivity.
    unfold D, d1.
    destruct (Qlt_le_dec span 0) as [Hneg|Hpos].
    - pose proof (double_nonpos span (Qlt_le_weak _ _ Hneg)).
      rewrite !Q.max_l by lra. lra.
    - destruct (double_nonneg_bounds span Hpos) as [Hlo Hhi].
      destruct (Q.max_spec 1 span) as [[H1 ->]|[H1 ->]];
        destruct (Q.max_spec 1 (JS.double span)) as [[H2 ->]|[H2 ->]]; nra. }
  assert (Hw7 : (0 <= d1 / 7)%Q) by (apply Qle_shift_div_l; lra).
  destruct (double_nonneg_bounds (d1 / 7) Hw7) as [Hwlo Hwhi].
  fold w in Hwlo, Hwhi.
  assert (Hd7 : (d1 / 7 * 7 == d1)%Q) by field.
  assert (Hconst1 : ((1 + halfUlp) * (1 + halfUlp)
                     <= (1 + roundingSlack)
                        * ((1 - halfUlp) * (1 - halfUlp)))%Q)
    by (vm_compute; discriminate).
  assert (Hconst2 : ((1 - roundingSlack) * ((1 + halfUlp) * (1 + halfUlp))
                     <= (1 - halfUlp) * (1 - halfUlp))%Q)
    by (vm_compute; discriminate).
  assert (Ha : (0 < 1 - halfUlp)%Q) by reflexivity.
  assert (Hb : (0 < 1 + halfUlp)%Q) by reflexivity.
  set (a := (1 - halfUlp)%Q) in *. set (b := (1 + halfUlp)%Q) in *.
  set (e1 := (1 + roundingSlack)%Q) in *.
  set (e2 := (1 - roundingSlack)%Q) in *.
  assert (Hwpos : (0 < w)%Q) by nra.
  assert (HnQ : (0 <= inject_Z n)%Q) by (unfold Qle; cbn; lia).
  assert (Hr : (0 <= inject_Z n / w)%Q)
    by (apply Qle_shift_div_l; [exact Hwpos|lra]).
  destruct (double_nonneg_bounds _ Hr) as [Hxlo Hxhi]. fold x in Hxlo, Hxhi.
  fold a in Hxlo. fold b in Hxhi.
  assert (Hrw : (inject_Z n / w * w == inject_Z n)%Q) by (field; lra).
  assert (Hx0 : (0 <= x)%Q) by nra.
  assert (Hx10 : (0 <= x * 10)%Q) by lra.
  destruct (double_nonneg_bounds _ Hx10) as [Hylo Hyhi]. fold y in Hylo, Hyhi.
  fold a in Hylo. fold b in Hyhi.
  assert (HA : (A * D == 7 * inject_Z n)%Q) by (unfold A; field; lra).
  assert (HA0 : (0 <= A)%Q).
  { unfold A. apply Qle_shift_div_l; [apply Qlt_shift_div_l; lra|lra]. }
  split; [exact HA0|].
  set (r := (inject_Z n / w)%Q) in *. set (h := (d1 / 7)%Q) in *.
  destruct Hd as [Hdlo Hdhi].
  clearbody r x y w h d1 A D a b e1 e2.
  assert (Hwlo' : (D * a * a <= w * 7)%Q) by nra.
  assert (Hwhi' : (w * 7 <= D * b * b)%Q) by nra.
  assert (Hr_hi : (r * (a * a) <= A)%Q).
  { assert (H1 : (r * (D * a * a) <= r * (w * 7))%Q) by nra.
    assert (H2 : (r * (a * a) * D <= A * D)%Q) by nra.
    nra. }
  assert (Hr_lo : (A <= r * (b * b))%Q).
  { assert (H1 : (r * (w * 7) <= r * (D * b * b))%Q) by nra.
    assert (H2 : (A * D <= r * (b * b) * D)%Q) by nra.
    nra. }
  assert (Hy_hi : (y <= 10 * r * (b * b))%Q) by nra.
  assert (Hy_lo : (10 * r * (a * a) <= y)%Q) by nra.
  assert (Haa : (0 < a * a)%Q) by nra.
  assert (Hbb : (0 < b * b)%Q) by nra.
  split.
  - assert (H : (10 * A * e2 * (b * b) <= y * (b * b))%Q).
    { assert (H1 : (10 * A * (e2 * (b * b)) <= 10 * A * (a * a))%Q) by nra.
      assert (H2 : (10 * A * (a * a) <= 10 * (r * (b * b)) * (a * a))%Q)
        by nra.
      assert (H3 : (10 * (r * (b * b)) * (a * a) <= y * (b * b))%Q) by nra.
      lra. }
    nra.
  - assert (H : (y * (a * a) <= 10 * A * e1 * (a * a))%Q).
    { assert (H1 : (y * (a * a) <= 10 * r * (b * b) * (a * a))%Q) by nra.
      assert (H2 : (10 * (r * (a * a)) * (b * b) <= 10 * A * (b * b))%Q)
        by nra.
      assert (H3 : (10 * A * (b * b) <= 10 * A * (e1 * (a * a)))%Q) by nra.
      lra. }
    nra.
Qed.

(** The average in tenths is ten times the exact weekly average rounded to
    an integer, up to the rounding of the doubles it goes through. *)
Lemma averageTenths_near (newest : CommitInfo.t) (rest : list CommitInfo.t) :
  let commits := newest :: rest in
  let tenths := averageTenths commits newest in
  let exact := specWeeklyAverage commits in
  (Qabs (inject_Z tenths / 10 - exact)
   <= (1 # 20) + exact * roundingSlack)%Q.
Proof.
  cbv zeta. unfold averageTenths, specWeeklyAverage, JS.div.
  change (inject_Z (24 * 60 * 60 * 1000)) with (86400000%Q).
  set (span := (inject_Z (CommitInfo.timestamp newest
                          - CommitInfo.timestamp
                              (last (newest :: rest) newest)) / 86400000)%Q).
  assert (Hlen : 0 <= JS.len (newest :: rest)) by (unfold JS.len; lia).
  destruct (average_roundings (JS.len (newest :: rest)) span Hlen)
    as (Hpos & Hlo & Hhi).
  cbv zeta in Hpos, Hlo, Hhi.
  set (y := JS.double (JS.double _ * 10)) in *.
  set (A := (inject_Z (JS.len (newest :: rest)) / (Qmax 1 span / 7))%Q) in *.
  unfold JS.Math_round.
  pose proof (Qfloor_le (y + (1 # 2))) as Hf1.
  pose proof (Qlt_floor (y + (1 # 2))) as Hf2.
  rewrite inject_Z_plus in Hf2.
  set (t := inject_Z (Qfloor (y + (1 # 2)))) in *.
  assert (Hs : (roundingSlack == 1 # 1125899906842624)%Q) by reflexivity.
  change (inject_Z 1) with 1%Q in Hf2.
  set (s := roundingSlack) in *. clearbody t y A s.
  apply Qabs_Qle_condition. unfold Qdiv.
  setoid_replace (/ 10)%Q with (1 # 10)%Q by reflexivity.
  split; lra.
Qed.

(** ** The weekly average is rounded as the engine rounds it *)

(** On a log whose exact weekly average is 4.95, the doubles of the engine
    give 49.49999999999999 tenths, which [Math.round] takes to 49: the
    pattern is [steady] with 4.9 commits a week, where exact arithmetic
    would round 49.5 tenths up to 5.0. *)
Lemma weekly_average_of_evenlySpaced :
  (specWeeklyAverage evenlySpaced == 495 # 100)%Q
  /\ JS.Math_round (specWeeklyAverage evenlySpaced * 10) = 50
  /\ (CommitPattern.averageCommitsPerWeek
        (analyzeCommitPattern 14784000000 evenlySpaced) == 49 # 10)%Q
  /\ CommitPattern.type (analyzeCommitPattern 14784000000 evenlySpaced)
     = steady.
Proof.
  split; [vm_compute; reflexivity|].
  split; [vm_compute; reflexivity|].
  split; vm_compute; reflexivity.
Qed.

(** C7, as stated, fails: here the only gap is longer than 30 days and the
    average is below one commit per week, yet the pattern is [burst]. *)
Lemma commit_pattern_gap_counterexample :
  let pattern := analyzeCommitPattern 2635200000 thirtyDaysAndAHalf in
  30 * dayMs < 2635200000 - 0
  /\ JS.geb (CommitPattern.averageCommitsPerWeek pattern) 1 = false
  /\ CommitPattern.type pattern = burst
  /\ CommitPattern.type pattern <> sporadic.
Proof.
  cbv zeta. split; [reflexivity|].
  split; [vm_compute; reflexivity|].
  assert (H : CommitPattern.type
                (analyzeCommitPattern 2635200000 thirtyDaysAndAHalf) = burst)
    by (vm_compute; reflexivity).
  split; [exact H|]. rewrite H. discriminate.
Qed.

(** C7, amended. The classifier returns [abandoned] when there are no
    commits or the newest commit is more than 180 days old, whatever the
    average frequency; otherwise [active] when the average is at least 5
    commits per week, else [steady] when it is at least 1, else [sporadic]
    when the longest gap between commits adjacent in the log, rounded down
    to whole days, exceeds 30, that is, when some adjacent pair is at least
    31 days apart, else [burst]. The average is the reported
    [averageCommitsPerWeek]: a whole number of tenths that differs from the
    number of commits over the span of the log in weeks (a span of less
    than a day counting as a day) by at most one twentieth and the rounding
    of the double arithmetic it is computed in, one part in [2 ^ 50]. *)
Theorem commit_pattern_rule (now : Z) (commits : list CommitInfo.t) :
  let pattern := analyzeCommitPattern now commits in
  match commits with
  | [] => CommitPattern.type pattern = abandoned
  | newest :: _ =>
      if now - CommitInfo.timestamp newest >? 180 * dayMs
      then CommitPattern.type pattern = abandoned
      else
        let average := CommitPattern.averageCommitsPerWeek pattern in
        (exists tenths : Z, average = (inject_Z tenths / 10)%Q)
        /\ (Qabs (average - specWeeklyAverage commits)
            <= (1 # 20) + specWeeklyAverage commits * roundingSlack)%Q
        /\ CommitPattern.longestGapDays pattern = longestGap commits
        /\ (longestGap commits >? 30)
           = existsb
               (fun p =>
                  CommitInfo.timestamp (fst p) - CommitInfo.timestamp (snd p)
                  >=? 31 * dayMs)
               (adjacent commits)
        /\ CommitPattern.type pattern
           = if JS.geb average 5 then active
             else if JS.geb average 1 then steady
             else if longestGap commits >? 30 then sporadic
             else burst
  end.
Proof.
  cbv zeta. destruct commits as [|newest rest]; [reflexivity|].
  unfold analyzeCommitPattern.
  change (24 * 60 * 60 * 1000) with 86400000. unfold dayMs.
  change (24 * 60 * 60 * 1000) with 86400000.
  rewrite gtb_div_spec.
  destruct (now - CommitInfo.timestamp newest >? 180 * 86400000);
    [reflexivity|].
  set (commits := newest :: rest).
  set (average := (inject_Z (averageTenths commits newest) / 10)%Q).
  set (pattern := let '(type, description) := _ in _).
  assert (Haverage : CommitPattern.averageCommitsPerWeek pattern = average).
  { unfold pattern. destruct (JS.geb average 5); [reflexivity|].
    destruct (JS.geb average 1); [reflexivity|].
    now destruct (longestGap commits >? 30). }
  rewrite Haverage.
  split; [now exists (averageTenths commits newest)|].
  split; [apply (averageTenths_near newest rest)|].
  split; [|split].
  - unfold pattern. destruct (JS.geb average 5); [reflexivity|].
    destruct (JS.geb average 1); [reflexivity|].
    now destruct (longestGap commits >? 30).
  - apply (longestGap_exceeds 30). lia.
  - unfold pattern. destruct (JS.geb average 5); [reflexivity|].
    destruct (JS.geb average 1); [reflexivity|].
    now destruct (longestGap commits >? 30).
Qed.

(** ** Hot paths *)

Lemma hotReasons_spec (churn : FileChurn.t) :
  ((JS.len (fst (hotReasons churn)) >? 0) = true <-> qualifiesHot churn)
  /\ (qualifiesHot churn ->
      (snd (hotReasons churn) = high
       <-> 50 < FileChurn.churnScore churn
           \/ 5 <= FileChurn.commitsLast30Days churn)
      /\ (snd (hotReasons churn) = medium
          <-> ~ (50 < FileChurn.churnScore churn
                 \/ 5 <= FileChurn.commitsLast30Days churn))).
Proof.
  unfold hotReasons, qualifiesHot. rewrite !Z.geb_leb.
  destruct (Z.gtb_spec (FileChurn.churnScore churn) 50);
    destruct (Z.gtb_spec (FileChurn.churnScore churn) 30);
    destruct (Z.leb_spec 5 (FileChurn.commitsLast30Days churn));
    destruct (Z.leb_spec 4 (FileChurn.authorCount churn));
    cbn [fst snd app lowToMedium JS.len List.length];
    repeat match goal with
           | |- _ /\ _ => split
           | |- _ <-> _ => split
           | |- _ -> _ => intro
           end;
    try reflexivity; try lia; try congruence; try (exfalso; lia);
    match goal with
    | H : (JS.len [] >? 0) = true |- _ => cbv in H; discriminate H
    end.
Qed.

Lemma hotPathStep_app (acc : list HotPath.t) (e : string * FileChurn.t) :
  hotPathStep acc e = acc ++ hotPathStep [] e.
Proof.
  unfold hotPathStep. destruct e as [path churn].
  destruct (isLockfile path); [now rewrite app_nil_r|].
  destruct (hotReasons churn) as [reasons riskLevel].
  destruct (JS.len reasons >? 0); [reflexivity|now rewrite app_nil_r].
Qed.

Lemma hotPathStep_In (path : string) (churn : FileChurn.t) (h : HotPath.t) :
  In h (hotPathStep [] (path, churn))
  <-> isLockfile path = false /\ qualifiesHot churn /\ h = hotPathOf path churn.
Proof.
  pose proof (hotReasons_spec churn) as [Hq _].
  unfold hotPathStep, hotPathOf.
  destruct (isLockfile path).
  - split; [intros []|intros [H _]; discriminate H].
  - destruct (hotReasons churn) as [reasons riskLevel]. cbn [fst snd] in *.
    destruct (JS.len reasons >? 0).
    + split.
      * intros [<-|[]]. repeat split. now apply Hq.
      * intros [_ [_ ->]]. now left.
    + split; [intros []|]. intros [_ [Hc _]]. apply Hq in Hc. discriminate Hc.
Qed.

(** C8. A file that is not a lockfile is a hot-path candidate exactly when
    its churn score exceeds 30, or it has at least 5 commits in the last 30
    days, or it has at least 4 authors. Its risk is [high] exactly when the
    score exceeds 50 or the 30-day clause fires, and [medium] otherwise, so
    the author clause never lowers a [high]. The output is the candidate
    array sorted by descending churn score and cut to its first 20 entries:
    everything cut off scores no more than anything kept. *)
Theorem hot_paths_rule (fileChurn : Rec.t FileChurn.t) :
  let candidates := hotPathCandidates fileChurn in
  let output := identifyHotPaths fileChurn in
  (forall h,
      In h candidates
      <-> exists path churn,
            In (path, churn) fileChurn
            /\ isLockfile path = false
            /\ qualifiesHot churn
            /\ h = hotPathOf path churn)
  /\ (forall path churn,
         qualifiesHot churn ->
         (HotPath.riskLevel (hotPathOf path churn) = high
          <-> 50 < FileChurn.churnScore churn
              \/ 5 <= FileChurn.commitsLast30Days churn)
         /\ (HotPath.riskLevel (hotPathOf path churn) = medium
             <-> ~ (50 < FileChurn.churnScore churn
                    \/ 5 <= FileChurn.commitsLast30Days churn)))
  /\ (List.length output <= 20)%nat
  /\ StronglySorted (ge_key HotPath.churnScore) output
  /\ exists rest,
       Permutation (output ++ rest) candidates
       /\ StronglySorted (ge_key HotPath.churnScore) (output ++ rest)
       /\ (rest <> [] -> List.length output = 20%nat).
Proof.
  cbv zeta. split; [|split; [|split; [|split]]].
  - intros h. unfold hotPathCandidates, Rec.entries.
    rewrite (pushing_fold _ hotPathStep_app). cbn [app].
    rewrite in_flat_map. split.
    + intros [[path churn] [Hin Hh]]. apply hotPathStep_In in Hh.
      exists path, churn. tauto.
    + intros [path [churn [Hin Hh]]]. exists (path, churn).
      split; [exact Hin|]. now apply hotPathStep_In.
  - intros path churn Hq. cbn [hotPathOf HotPath.riskLevel].
    now apply hotReasons_spec.
  - unfold identifyHotPaths, JS.slice0. apply firstn_le_length.
  - unfold identifyHotPaths, JS.slice0.
    apply sorted_firstn. apply (sort_sorted HotPath.churnScore).
  - unfold identifyHotPaths, JS.slice0.
    set (sorted := JS.sort _ (hotPathCandidates fileChurn)).
    exists (skipn 20 sorted). rewrite firstn_skipn.
    split; [apply sort_perm|]. split; [apply (sort_sorted HotPath.churnScore)|].
    intros Hrest. rewrite length_firstn.
    destruct (Nat.le_gt_cases (List.length sorted) 20) as [Hle|Hgt]; [|lia].
    exfalso. apply Hrest. now apply skipn_all2.
Qed.

Lemma hot_paths_rule_witness :
  match Rec.get "src/auth.ts" (analyzeFileChurn 6000 fiveCommits) with
  | Some churn =>
      qualifiesHot churn
      /\ In (hotPathOf "src/auth.ts" churn)
           (hotPathCandidates (analyzeFileChurn 6000 fiveCommits))
      /\ HotPath.riskLevel (hotPathOf "src/auth.ts" churn) = high
  | None => False
  end.
Proof.
  destruct (Rec.get "src/auth.ts" (analyzeFileChurn 6000 fiveCommits))
    as [churn|] eqn:G.
  - assert (Hq : qualifiesHot churn).
    { vm_compute in G. injection G as <-. left. reflexivity. }
    assert (H5 : 5 <= FileChurn.commitsLast30Days churn).
    { vm_compute in G. injection G as <-. discriminate. }
    destruct (hot_paths_rule (analyzeFileChurn 6000 fiveCommits))
      as [Hcand [Hrisk _]].
    split; [exact Hq|]. split.
    + apply Hcand. exists "src/auth.ts", churn.
      split; [apply get_In, G|]. split; [reflexivity|]. split; [exact Hq|].
      reflexivity.
    + apply (Hrisk "src/auth.ts" churn Hq). right. exact H5.
  - vm_compute in G. discriminate G.
Defined.

(** ** The fragile quick lookup *)

Lemma filter_length_lt {A : Type} (f : A -> bool) (l : list A) (x : A) :
  In x l -> f x = false -> (List.length (filter f l) < List.length l)%nat.
Proof.
  induction l as [|y l IH]; simpl; [intros []|].
  intros [->|Hin] Hx.
  - rewrite Hx. pose proof (filter_length_le f l). lia.
  - specialize (IH Hin Hx). destruct (f y); simpl; lia.
Qed.

Lemma filter_none {A : Type} (f : A -> bool) (l : list A) :
  (forall x, In x l -> f x = false) -> filter f l = [].
Proof.
  induction l as [|y l IH]; simpl; [reflexivity|].
  intros H. rewrite (H y) by now left. apply IH. intros x Hx. apply H. now right.
Qed.

(** In a descending array, the records above one of its first [n] records
    number fewer than [n]. *)
Lemma strictlyAbove_firstn (n : nat) (sorted : list FragileFile.t)
    (f : FragileFile.t) :
  StronglySorted (ge_key FragileFile.fragileScore) sorted ->
  In f (firstn n sorted) ->
  (strictlyAbove f sorted < n)%nat.
Proof.
  intros Hs Hin. unfold strictlyAbove.
  rewrite <- (firstn_skipn n sorted) at 1. rewrite filter_app, length_app.
  rewrite (filter_none _ (skipn n sorted)).
  - simpl. rewrite Nat.add_0_r.
    eapply Nat.lt_le_trans; [|apply (firstn_le_length n sorted)].
    apply (filter_length_lt _ _ f Hin). rewrite Z.gtb_ltb. apply Z.ltb_irrefl.
  - intros g Hg.
    pose proof (sorted_split FragileFile.fragileScore n sorted Hs f g Hin Hg).
    rewrite Z.gtb_ltb. apply Z.ltb_ge. assumption.
Qed.

Lemma fragileCandidates_paths (fixes : Rec.t Z) (r : Rec.t FileChurn.t)
    (p : string) :
  In p (map FragileFile.path (flat_map (fragileStep fixes []) r)) ->
  In p (Rec.keys r).
Proof.
  rewrite in_map_iff. intros [f [<- Hf]]. apply in_flat_map in Hf.
  destruct Hf as [[path churn] [He Hf]]. apply fragileStep_one in Hf.
  destruct Hf as [_ [-> _]]. unfold Rec.keys.
  now apply (in_map fst) in He.
Qed.

Lemma fragileCandidates_NoDup (fileChurn : Rec.t FileChurn.t)
    (commits : list CommitInfo.t) :
  NoDup (Rec.keys fileChurn) ->
  NoDup (map FragileFile.path (fragileCandidates fileChurn commits)).
Proof.
  rewrite fragileCandidates_flat. generalize (fixCommitsPerFile commits).
  intros fixes. unfold Rec.keys.
  induction fileChurn as [|[path churn] r IH]; cbn [flat_map map fst];
    intros Hnd.
  - constructor.
  - inversion_clear Hnd as [|? ? Hnotin Hnd'].
    rewrite map_app.
    destruct (fragileStep fixes [] (path, churn)) as [|f rest] eqn:E.
    + now apply IH.
    + assert (Hf : In f (fragileStep fixes [] (path, churn)))
        by (rewrite E; now left).
      apply fragileStep_one in Hf. destruct Hf as [Hone [Hpath _]].
      rewrite E in Hone. injection Hone as ->. simpl. rewrite Hpath.
      constructor; [|now apply IH].
      intros Hin. apply Hnotin. now apply (fragileCandidates_paths fixes).
Qed.

Lemma NoDup_map_inj {A B : Type} (k : A -> B) (l : list A) (a b : A) :
  NoDup (map k l) -> In a l -> In b l -> k a = k b -> a = b.
Proof.
  induction l as [|x l IH]; simpl; [intros _ []|].
  intros Hnd Ha Hb Hk. inversion_clear Hnd as [|? ? Hnotin Hnd'].
  destruct Ha as [->|Ha], Hb as [->|Hb]; auto.
  - exfalso. apply Hnotin. rewrite Hk. now apply in_map.
  - exfalso. apply Hnotin. rewrite <- Hk. now apply in_map.
Qed.

(** C10. The [recentlyFragile] list is computed from [fragileFiles], which
    is already sorted by descending fragile score and cut to 20 entries.
    Every path in it belongs to one of those at most 20 records, one with a
    fragile score above 5, and it has at most 10 entries. Consequently a
    fragile file scoring above 5 is missing from it whenever at least 20
    other fragile files score strictly higher. *)
Theorem recentlyFragile_from_capped_list (w : World.t) (repoPath : string)
    (commits : list CommitInfo.t) :
  let history := buildHistory w repoPath commits in
  let candidates := fragileCandidates (GitHistory.fileChurn history) commits in
  GitHistory.recentlyFragile history
  = recentlyFragileOf (GitHistory.fragileFiles history)
  /\ GitHistory.fragileFiles history
     = firstn 20 (JS.sort (descending FragileFile.fragileScore) candidates)
  /\ (List.length (GitHistory.fragileFiles history) <= 20)%nat
  /\ StronglySorted (ge_key FragileFile.fragileScore)
       (GitHistory.fragileFiles history)
  /\ (forall path,
         In path (GitHistory.recentlyFragile history) ->
         exists f,
           In f (GitHistory.fragileFiles history)
           /\ FragileFile.path f = path
           /\ 5 < FragileFile.fragileScore f)
  /\ (List.length (GitHistory.recentlyFragile history) <= 10)%nat
  /\ (forall f,
         In f candidates ->
         5 < FragileFile.fragileScore f ->
         (20 <= strictlyAbove f candidates)%nat ->
         ~ In (FragileFile.path f) (GitHistory.recentlyFragile history)).
Proof.
  cbv zeta. cbn [buildHistory GitHistory.recentlyFragile
                   GitHistory.fragileFiles GitHistory.fileChurn].
  set (fileChurn := analyzeFileChurn (World.nowChurn w) commits).
  set (fragileFiles := identifyFragileFiles fileChurn _ commits).
  assert (Hmem : forall path,
             In path (recentlyFragileOf fragileFiles) ->
             exists f,
               In f fragileFiles /\ FragileFile.path f = path
               /\ 5 < FragileFile.fragileScore f).
  { intros path Hin. unfold recentlyFragileOf, JS.slice0 in Hin.
    apply in_map_iff in Hin. destruct Hin as [f [Hpath Hin]].
    apply in_firstn, filter_In in Hin. destruct Hin as [Hin Hscore].
    exists f. repeat split; auto. now apply Z.gtb_lt in Hscore. }
  split; [reflexivity|]. split; [reflexivity|]. split; [|split; [|split]].
  - apply firstn_le_length.
  - apply sorted_firstn. apply (sort_sorted FragileFile.fragileScore).
  - exact Hmem.
  - split.
    + unfold recentlyFragileOf, JS.slice0. rewrite length_map.
      apply firstn_le_length.
    + intros f Hcand Hscore Habove Hin.
      apply Hmem in Hin. destruct Hin as [g [Hg [Hpath _]]].
      assert (Hgc : In g (fragileCandidates fileChurn commits))
        by exact (identifyFragileFiles_candidates fileChurn
                    (analyzeFileOwnership fileChurn commits) commits g Hg).
      assert (g = f) as ->.
      { apply (NoDup_map_inj FragileFile.path
                 (fragileCandidates fileChurn commits)); auto.
        apply fragileCandidates_NoDup. apply analyzeFileChurn_NoDup. }
      unfold fragileFiles, identifyFragileFiles, JS.slice0 in Hg.
      apply strictlyAbove_firstn in Hg;
        [|apply (sort_sorted FragileFile.fragileScore)].
      unfold strictlyAbove in Hg, Habove.
      rewrite (Permutation_length
                 (perm_filter _ _ _ (sort_perm _ _))) in Hg.
      lia.
Qed.

Lemma recentlyFragile_from_capped_list_witness :
  let history := buildHistory lateWorld "repo" crowded in
  let candidates := fragileCandidates (GitHistory.fileChurn history) crowded in
  match
    find (fun f => String.eqb (FragileFile.path f) "z.ts") candidates
  with
  | Some f =>
      In f candidates
      /\ 5 < FragileFile.fragileScore f
      /\ (20 <= strictlyAbove f candidates)%nat
      /\ ~ In (FragileFile.path f) (GitHistory.recentlyFragile history)
  | None => False
  end.
Proof.
  cbv zeta.
  destruct (find (fun f => String.eqb (FragileFile.path f) "z.ts")
              (fragileCandidates
                 (GitHistory.fileChurn (buildHistory lateWorld "repo" crowded))
                 crowded)) as [f|] eqn:E.
  - assert (Hin : In f (fragileCandidates
                          (GitHistory.fileChurn
                             (buildHistory lateWorld "repo" crowded)) crowded))
      by (apply find_some in E; apply E).
    assert (Hscore : 5 < FragileFile.fragileScore f)
      by (vm_compute in E; injection E as <-; reflexivity).
    assert (Habove : (20 <= strictlyAbove f
                              (fragileCandidates
                                 (GitHistory.fileChurn
                                    (buildHistory lateWorld "repo" crowded))
                                 crowded))%nat)
      by (vm_compute in E; injection E as <-; vm_compute; apply le_n).
    split; [exact Hin|]. split; [exact Hscore|]. split; [exact Habove|].
    exact (proj2 (proj2 (proj2 (proj2 (proj2 (proj2
             (recentlyFragile_from_capped_list lateWorld "repo" crowded))))))
             f Hin Hscore Habove).
  - vm_compute in E. discriminate E.
Defined.

(** * Further properties of the analyzer *)

(** ** The record of one file *)

Lemma arr_includes_In (xs : list string) (x : string) :
  JS.arr_includes xs x = true <-> In x xs.
Proof.
  unfold JS.arr_includes. rewrite existsb_exists. split.
  - intros [y [Hy He]]. apply String.eqb_eq in He. now subst.
  - intros H. exists x. split; [exact H|apply String.eqb_refl].
Qed.

Lemma filter_eqb_nil (file : string) (files : list string) :
  JS.arr_includes files file = false -> filter (String.eqb file) files = [].
Proof.
  unfold JS.arr_includes. induction files as [|g files IH]; simpl; auto.
  destruct (String.eqb file g); simpl; [discriminate|exact IH].
Qed.

Lemma touchList_In (file : string) (commits : list CommitInfo.t)
    (c : CommitInfo.t) :
  In c (touchList file commits)
  <-> In c commits /\ In file (CommitInfo.filesChanged c).
Proof.
  unfold touchList. rewrite in_flat_map. split.
  - intros [c' [Hc Hin]]. apply in_map_iff in Hin.
    destruct Hin as [g [<- Hg]]. apply filter_In in Hg.
    destruct Hg as [Hg He]. apply String.eqb_eq in He. subst g. now split.
  - intros [Hc Hf]. exists c. split; [exact Hc|].
    apply in_map_iff. exists file. split; [reflexivity|].
    apply filter_In. split; [exact Hf|apply String.eqb_refl].
Qed.

Lemma touchList_filter (file : string) (commits : list CommitInfo.t) :
  touchList file (filter (touchesFile file) commits) = touchList file commits.
Proof.
  unfold touchList. induction commits as [|c commits IH]; simpl; auto.
  destruct (touchesFile file c) eqn:E; simpl; [now rewrite IH|].
  rewrite IH. unfold touchesFile in E. now rewrite (filter_eqb_nil _ _ E).
Qed.

Lemma get_churnFile (now : Z) (c : CommitInfo.t) (churn : Rec.t FileChurn.t)
    (f g : string) :
  Rec.get f (churnFile now c churn g)
  = if String.eqb f g then churnStep now f (Rec.get f churn) c
    else Rec.get f churn.
Proof.
  unfold churnFile, churnStep.
  destruct (String.eqb_spec f g) as [->|Hne].
  - now rewrite get_set_same.
  - now rewrite get_set_other.
Qed.

Lemma churnFold_get (now : Z) (f : string) (commits : list CommitInfo.t) :
  forall churn,
    Rec.get f (fold_left (churnCommit now) commits churn)
    = fold_left (churnStep now f) (touchList f commits) (Rec.get f churn).
Proof.
  unfold touchList.
  induction commits as [|c commits IH]; intros churn; simpl; auto.
  rewrite IH, fold_left_app. f_equal. unfold churnCommit.
  generalize (CommitInfo.filesChanged c). intros files. revert churn.
  induction files as [|g files IHf]; intros churn; simpl; auto.
  rewrite IHf, get_churnFile.
  now destruct (String.eqb f g).
Qed.

Lemma analyzeFileChurn_get (now : Z) (commits : list CommitInfo.t)
    (f : string) :
  Rec.get f (analyzeFileChurn now commits)
  = option_map (deriveChurn now)
      (fold_left (churnStep now f) (touchList f commits) None).
Proof.
  unfold analyzeFileChurn. rewrite get_map. f_equal.
  apply (churnFold_get now f commits Rec.empty).
Qed.

Lemma churnStep_fold_None (now : Z) (f : string) (l : list CommitInfo.t) :
  fold_left (churnStep now f) l None = None <-> l = [].
Proof.
  split; [|now intros ->].
  destruct l as [|c l] using rev_ind; [reflexivity|].
  rewrite fold_left_app. simpl. discriminate.
Qed.

Lemma existsb_filter_false {A : Type} (p q : A -> bool) (l : list A) :
  existsb p l = false -> existsb p (filter q l) = false.
Proof.
  induction l as [|x l IH]; cbn [existsb filter]; [reflexivity|].
  intros H. apply orb_false_elim in H. destruct H as [Hx Hl].
  destruct (q x); cbn [existsb]; [rewrite Hx|]; now apply IH.
Qed.

(** X1. Whenever the churn pass returns, the record of a file depends only
    on the commits that touch it: the pass also returns on the log cut down
    to those commits, with the same record for the file, and a file has a
    record exactly when some commit touches it. The pass returns only on a
    log none of whose changed paths is named like a property of
    [Object.prototype]. *)
Theorem churn_record_depends_on_touching_commits (now : Z)
    (commits : list CommitInfo.t) (churn : Rec.t FileChurn.t)
    (file : string) :
  Run.analyzeFileChurn now commits = Resolved churn ->
  (exists part,
      Run.analyzeFileChurn now (filter (touchesFile file) commits)
      = Resolved part
      /\ Rec.get file churn = Rec.get file part)
  /\ (Rec.get file churn = None
      <-> forall c, In c commits -> ~ In file (CommitInfo.filesChanged c))
  /\ (forall c f,
         In c commits -> In f (CommitInfo.filesChanged c) ->
         inheritedProperty f = false).
Proof.
  intros Hrun.
  destruct (Run_analyzeFileChurn_resolved _ _ _ Hrun) as [-> Hordinary].
  rewrite Run_analyzeFileChurn_spec in Hrun.
  destruct (existsb strangePath commits) eqn:Hstrange; [discriminate|].
  split; [|split; [|exact Hordinary]].
  - exists (analyzeFileChurn now (filter (touchesFile file) commits)).
    rewrite Run_analyzeFileChurn_spec.
    rewrite (existsb_filter_false _ _ _ Hstrange).
    split; [reflexivity|].
    now rewrite !analyzeFileChurn_get, touchList_filter.
  - rewrite analyzeFileChurn_get.
    destruct (fold_left (churnStep now file) (touchList file commits) None)
      as [fc|] eqn:E; simpl.
    + split; [discriminate|]. intros H. exfalso.
      destruct (touchList file commits) as [|c l] eqn:T; [discriminate E|].
      assert (Hc : In c (touchList file commits)) by (rewrite T; now left).
      apply touchList_In in Hc. destruct Hc as [Hc Hf]. exact (H c Hc Hf).
    + split; [|reflexivity]. intros _ c Hc Hf.
      apply churnStep_fold_None in E.
      assert (Hin : In c (touchList file commits))
        by (apply touchList_In; now split).
      rewrite E in Hin. destruct Hin.
Qed.

Lemma churn_record_depends_on_touching_commits_witness :
  match Run.analyzeFileChurn 6000 fiveCommits with
  | Resolved churn => Rec.get "README.md" churn = None
  | Rejected _ => False
  end.
Proof.
  destruct (Run.analyzeFileChurn 6000 fiveCommits) as [churn|e] eqn:R.
  - apply (proj1 (proj2 (churn_record_depends_on_touching_commits 6000
                           fiveCommits churn "README.md" R))).
    intros c Hc Hf. vm_compute in Hc.
    repeat (destruct Hc as [<-|Hc]; [vm_compute in Hf; intuition discriminate|]).
    exact Hc.
  - vm_compute in R. discriminate R.
Defined.

Lemma distinct_snoc (names : list string) (a : string) :
  distinct (names ++ [a])
  = if JS.arr_includes (distinct names) a then distinct names
    else distinct names ++ [a].
Proof.
  unfold distinct. now rewrite fold_left_app.
Qed.

Lemma distinct_spec (names : list string) :
  NoDup (distinct names) /\ forall a, In a (distinct names) <-> In a names.
Proof.
  induction names as [|b names [Hnd Hin]] using rev_ind.
  - split; [constructor|reflexivity].
  - rewrite distinct_snoc.
    destruct (JS.arr_includes (distinct names) b) eqn:E.
    + apply arr_includes_In in E. split; [exact Hnd|].
      intros a. rewrite in_app_iff, Hin. simpl. split; [tauto|].
      intros [H|[<-|[]]]; [exact H|now apply Hin].
    + assert (Hb : ~ In b (distinct names)).
      { intros H. apply arr_includes_In in H. congruence. }
      split.
      * apply NoDup_app; [exact Hnd|repeat constructor; intros []|].
        intros x Hx [<-|[]]. contradiction.
      * intros a. rewrite !in_app_iff, Hin. reflexivity.
Qed.

Lemma sumQ_app (l l' : list Q) : (sumQ (l ++ l') == sumQ l + sumQ l')%Q.
Proof.
  induction l as [|x l IH]; simpl; [now rewrite Qplus_0_l|].
  rewrite IH. apply Qplus_assoc.
Qed.

Lemma len_snoc {A : Type} (l : list A) (x : A) :
  JS.len (l ++ [x]) = JS.len l + 1.
Proof.
  unfold JS.len. rewrite length_app. simpl. lia.
Qed.

Lemma len_filter_snoc {A : Type} (p : A -> bool) (l : list A) (x : A) :
  JS.len (filter p (l ++ [x]))
  = if p x then JS.len (filter p l) + 1 else JS.len (filter p l).
Proof.
  rewrite filter_app. simpl. destruct (p x).
  - apply len_snoc.
  - now rewrite app_nil_r.
Qed.

(** The closed form of every folded field of the record of [f], in terms of
    the visits [l] paid to [f]. *)
Lemma churnStep_fold_spec (now : Z) (f : string) (l : list CommitInfo.t) :
  forall fc,
    fold_left (churnStep now f) l None = Some fc ->
    path fc = f
    /\ totalCommits fc = JS.len l
    /\ authors fc = distinct (map CommitInfo.author l)
    /\ commitsLast30Days fc = JS.len (filter (within now 30) l)
    /\ commitsLast90Days fc = JS.len (filter (within now 90) l)
    /\ (totalInsertions fc == sumQ (map insertionShare l))%Q
    /\ (totalDeletions fc == sumQ (map deletionShare l))%Q
    /\ (forall c, In c l ->
        firstCommit fc <= CommitInfo.date c <= lastCommit fc)
    /\ (exists c, In c l /\ CommitInfo.date c = firstCommit fc)
    /\ (exists c, In c l /\ CommitInfo.date c = lastCommit fc).
Proof.
  induction l as [|c l IH] using rev_ind; intros fc; [discriminate|].
  rewrite fold_left_app. cbn [fold_left]. unfold churnStep at 1.
  intros [= <-].
  rewrite map_app, !len_filter_snoc, len_snoc. cbn [map].
  rewrite distinct_snoc.
  destruct (fold_left (churnStep now f) l None) as [fc0|] eqn:E.
  - destruct (IH fc0 eq_refl)
      as (Hp & Htc & Ha & H30 & H90 & Hi & Hd & Hb & [c1 [Hc1 Hf]]
          & [c2 [Hc2 Hl]]).
    cbn [accumulate path totalCommits authors commitsLast30Days
           commitsLast90Days totalInsertions totalDeletions firstCommit
           lastCommit].
    unfold Date_getTime.
    repeat match goal with |- _ /\ _ => split end.
    + exact Hp.
    + now rewrite Htc.
    + now rewrite Ha.
    + unfold within at 1. rewrite H30. reflexivity.
    + unfold within at 1. rewrite H90. reflexivity.
    + rewrite !map_app, sumQ_app, Hi. simpl. unfold insertionShare at 3.
      now rewrite Qplus_0_r.
    + rewrite !map_app, sumQ_app, Hd. simpl. unfold deletionShare at 3.
      now rewrite Qplus_0_r.
    + intros c' H. apply in_app_iff in H.
      destruct (Z.ltb_spec (CommitInfo.date c) (firstCommit fc0));
        destruct (Z.gtb_spec (CommitInfo.date c) (lastCommit fc0));
        pose proof (Hb _ Hc1);
        destruct H as [H|[<-|[]]]; try specialize (Hb _ H); lia.
    + destruct (Z.ltb_spec (CommitInfo.date c) (firstCommit fc0)).
      * exists c. split; [apply in_app_iff; right; now left|reflexivity].
      * exists c1. split; [apply in_app_iff; now left|exact Hf].
    + destruct (Z.gtb_spec (CommitInfo.date c) (lastCommit fc0)).
      * exists c. split; [apply in_app_iff; right; now left|reflexivity].
      * exists c2. split; [apply in_app_iff; now left|exact Hl].
  - apply churnStep_fold_None in E. subst l.
    cbn [accumulate newFileChurn path totalCommits authors commitsLast30Days
           commitsLast90Days totalInsertions totalDeletions firstCommit
           lastCommit app map filter distinct fold_left JS.arr_includes
           existsb].
    unfold Date_getTime. rewrite Z.ltb_irrefl.
    assert (Hgt : (CommitInfo.date c >? CommitInfo.date c) = false)
      by (rewrite Z.gtb_ltb; apply Z.ltb_irrefl).
    rewrite Hgt.
    repeat match goal with |- _ /\ _ => split end; try reflexivity.
    + unfold sumQ; cbn [fold_right]. unfold insertionShare.
      rewrite Qplus_0_l, Qplus_0_r. reflexivity.
    + unfold sumQ; cbn [fold_right]. unfold deletionShare.
      rewrite Qplus_0_l, Qplus_0_r. reflexivity.
    + intros c' [<-|[]]. lia.
    + exists c. split; [now left|reflexivity].
    + exists c. split; [now left|reflexivity].
Qed.

Lemma analyzeFileChurn_folded (now : Z) (commits : list CommitInfo.t)
    (file : string) (fc : FileChurn.t) :
  In (file, fc) (analyzeFileChurn now commits) ->
  exists fc0,
    fold_left (churnStep now file) (touchList file commits) None = Some fc0
    /\ fc = deriveChurn now fc0.
Proof.
  intros Hin. apply NoDup_get in Hin; [|apply analyzeFileChurn_NoDup].
  rewrite analyzeFileChurn_get in Hin.
  destruct (fold_left (churnStep now file) (touchList file commits) None)
    as [fc0|]; [|discriminate]. injection Hin as <-. now exists fc0.
Qed.

Lemma churn_authors_spec (now : Z)
    (commits : list CommitInfo.t) (file : string) (fc : FileChurn.t) :
  In (file, fc) (analyzeFileChurn now commits) ->
  path fc = file
  /\ authorCount fc = JS.len (authors fc)
  /\ NoDup (authors fc)
  /\ authors fc = distinct (map CommitInfo.author (touchList file commits))
  /\ forall a,
       In a (authors fc)
       <-> exists c,
             In c commits /\ CommitInfo.author c = a
             /\ In file (CommitInfo.filesChanged c).
Proof.
  intros Hin. apply analyzeFileChurn_folded in Hin.
  destruct Hin as [fc0 [Hfold ->]].
  apply churnStep_fold_spec in Hfold.
  destruct Hfold as (Hp & _ & Ha & _).
  cbn [deriveChurn path authorCount authors].
  destruct (distinct_spec (map CommitInfo.author (touchList file commits)))
    as [Hnd Hmem].
  rewrite Ha. repeat match goal with |- _ /\ _ => split end; auto.
  intros a. rewrite Hmem, in_map_iff. split.
  - intros [c [Hc Hin]]. apply touchList_In in Hin. exists c. tauto.
  - intros [c [Hc [Hauth Hf]]]. exists c. split; [exact Hauth|].
    apply touchList_In. now split.
Qed.

(** X2. In every churn record, [path] is the key of the record,
    [authorCount] is the length of [authors], [authors] has no duplicate,
    and it lists, in order of first visit, exactly the authors of the
    commits that touch the file. *)
Theorem churn_authors_are_the_touching_authors (now : Z)
    (commits : list CommitInfo.t) (file : string) (fc : FileChurn.t) :
  In (file, fc) (analyzeFileChurn now commits) ->
  path fc = file
  /\ authorCount fc = JS.len (authors fc)
  /\ NoDup (authors fc)
  /\ authors fc = distinct (map CommitInfo.author (touchList file commits))
  /\ forall a,
       In a (authors fc)
       <-> exists c,
             In c commits /\ CommitInfo.author c = a
             /\ In file (CommitInfo.filesChanged c).
Proof.
  exact (churn_authors_spec now commits file fc).
Qed.

Lemma churn_authors_are_the_touching_authors_witness :
  match Rec.get "src/auth.ts" (analyzeFileChurn 6000 fiveCommits) with
  | Some fc =>
      authors fc = ["Bob"; "Charlie"; "Alice"] /\ NoDup (authors fc)
  | None => False
  end.
Proof.
  destruct (Rec.get "src/auth.ts" (analyzeFileChurn 6000 fiveCommits))
    as [fc|] eqn:G.
  - destruct (churn_authors_are_the_touching_authors 6000 fiveCommits
                "src/auth.ts" fc (get_In _ _ _ G)) as (_ & _ & Hnd & Ha & _).
    split; [|exact Hnd]. rewrite Ha. reflexivity.
  - vm_compute in G. discriminate G.
Defined.

(** X3. In every churn record, [totalCommits] counts the visits paid to the
    file, [commitsLast30Days] and [commitsLast90Days] count those of them
    made by commits newer than 30 and 90 days, [firstCommit] and
    [lastCommit] are the earliest and the latest date among the commits
    that touch the file, and [daysSinceLastChange] is the whole number of
    days from [lastCommit] to the analysis time. *)
Theorem churn_counters_and_dates (now : Z) (commits : list CommitInfo.t)
    (file : string) (fc : FileChurn.t) :
  In (file, fc) (analyzeFileChurn now commits) ->
  totalCommits fc = JS.len (touchList file commits)
  /\ commitsLast30Days fc
     = JS.len (filter (within now 30) (touchList file commits))
  /\ commitsLast90Days fc
     = JS.len (filter (within now 90) (touchList file commits))
  /\ (forall c,
         In c commits -> In file (CommitInfo.filesChanged c) ->
         firstCommit fc <= CommitInfo.date c <= lastCommit fc)
  /\ (exists c,
         In c commits /\ In file (CommitInfo.filesChanged c)
         /\ CommitInfo.date c = firstCommit fc)
  /\ (exists c,
         In c commits /\ In file (CommitInfo.filesChanged c)
         /\ CommitInfo.date c = lastCommit fc)
  /\ daysSinceLastChange fc = (now - lastCommit fc) / dayMs.
Proof.
  intros Hin. apply analyzeFileChurn_folded in Hin.
  destruct Hin as [fc0 [Hfold ->]].
  apply churnStep_fold_spec in Hfold.
  destruct Hfold as (_ & Htc & _ & H30 & H90 & _ & _ & Hb & [c1 [Hc1 Hf]]
                     & [c2 [Hc2 Hl]]).
  cbn [deriveChurn totalCommits commitsLast30Days commitsLast90Days
         firstCommit lastCommit daysSinceLastChange].
  repeat match goal with |- _ /\ _ => split end; auto.
  - intros c Hc Hfile. apply Hb. apply touchList_In. now split.
  - apply touchList_In in Hc1. exists c1. tauto.
  - apply touchList_In in Hc2. exists c2. tauto.
  - unfold Date_getTime, dayMs.
    change (24 * 60 * 60 * 1000) with 86400000. apply Math_floor_div.
Qed.

Lemma churn_counters_and_dates_witness :
  match Rec.get "src/auth.ts" (analyzeFileChurn 6000 fiveCommits) with
  | Some fc => totalCommits fc = 5 /\ commitsLast30Days fc = 5
  | None => False
  end.
Proof.
  destruct (Rec.get "src/auth.ts" (analyzeFileChurn 6000 fiveCommits))
    as [fc|] eqn:G.
  - destruct (churn_counters_and_dates 6000 fiveCommits "src/auth.ts" fc
                (get_In _ _ _ G)) as (Htc & H30 & _).
    rewrite Htc, H30. split; reflexivity.
  - vm_compute in G. discriminate G.
Defined.

Lemma sumQ_nonneg (l : list Q) :
  (forall q, In q l -> (0 <= q)%Q) -> (0 <= sumQ l)%Q.
Proof.
  induction l as [|q l IH]; intros H; cbn [sumQ fold_right].
  - apply Qle_refl.
  - fold (sumQ l).
    rewrite <- (Qplus_0_l 0). apply Qplus_le_compat.
    + apply H. now left.
    + apply IH. intros q' Hq'. apply H. now right.
Qed.

Lemma share_nonneg (lines files : Z) :
  0 <= lines -> (0 <= JS.div lines (Z.max files 1))%Q.
Proof.
  intros Hl. unfold JS.div.
  destruct (Z.max files 1) as [|p|p] eqn:E; try lia.
  unfold Qle, Qdiv, Qmult, Qinv, inject_Z. cbn [Qnum Qden]. lia.
Qed.





(** ** Apportioning conserves the line counts *)




Section Conservation.
Variable now : Z.
Variable field : FileChurn.t -> Q.
Variable share : CommitInfo.t -> Q.
Hypothesis field_new : forall file c, (field (newFileChurn file c) == 0)%Q.
Hypothesis field_acc :
  forall c fc, (field (accumulate now c fc) == field fc + share c)%Q.



End Conservation.





(** ** The tallies of one file *)

Lemma tallyOf_fold (commits : list CommitInfo.t) (f : string) :
  tallyOf commits f = fold_left tallyStep (touchList f commits) Rec.empty.
Proof.
  unfold tallyOf.
  enough (H : forall fac,
             match Rec.get f (fold_left tallyCommit commits fac) with
             | Some m => m
             | None => Rec.empty
             end
             = fold_left tallyStep (touchList f commits)
                 match Rec.get f fac with Some m => m | None => Rec.empty end)
    by apply (H Rec.empty).
  unfold touchList.
  induction commits as [|c commits IH]; intros fac; simpl; auto.
  rewrite IH, fold_left_app. f_equal. unfold tallyCommit.
  generalize (CommitInfo.filesChanged c). intros files. revert fac.
  induction files as [|g files IHf]; intros fac; simpl; auto.
  rewrite IHf. unfold tallyFile.
  destruct (String.eqb_spec f g) as [->|Hne]; simpl.
  - now rewrite get_set_same.
  - now rewrite get_set_other.
Qed.

Lemma keys_set_list {V : Type} (k : string) (v : V) (r : Rec.t V) :
  Rec.keys (Rec.set k v r)
  = if JS.arr_includes (Rec.keys r) k then Rec.keys r else Rec.keys r ++ [k].
Proof.
  unfold Rec.keys, JS.arr_includes.
  induction r as [|[k' v'] r IH]; simpl; [reflexivity|].
  destruct (String.eqb_spec k k') as [->|_]; simpl; [reflexivity|].
  rewrite IH. now destruct (existsb (String.eqb k) (map fst r)).
Qed.

Lemma tallyStep_keys (l : list CommitInfo.t) :
  Rec.keys (fold_left tallyStep l Rec.empty)
  = distinct (map CommitInfo.author l).
Proof.
  induction l as [|c l IH] using rev_ind; [reflexivity|].
  rewrite fold_left_app, map_app. cbn [fold_left map]. rewrite distinct_snoc.
  unfold tallyStep at 1. cbv zeta. now rewrite keys_set_list, IH.
Qed.

Lemma tallyStep_get (a : string) (l : list CommitInfo.t) :
  match Rec.get a (fold_left tallyStep l Rec.empty) with
  | Some t =>
      Tally.count t = JS.len (visitsBy a l)
      /\ (forall c, In c (visitsBy a l) -> CommitInfo.date c <= Tally.lastCommit t)
      /\ exists c, In c (visitsBy a l) /\ CommitInfo.date c = Tally.lastCommit t
  | None => visitsBy a l = []
  end.
Proof.
  unfold visitsBy.
  induction l as [|c l IH] using rev_ind; [reflexivity|].
  rewrite fold_left_app, filter_app. cbn [fold_left filter].
  unfold tallyStep at 1. cbv zeta.
  destruct (String.eqb_spec a (CommitInfo.author c)) as [->|Hne].
  - rewrite get_set_same. cbn [Tally.count Tally.lastCommit].
    unfold Date_getTime.
    destruct (Rec.get (CommitInfo.author c) (fold_left tallyStep l Rec.empty))
      as [t0|].
    + destruct IH as (Hc & Hle & [c1 [Hc1 He]]).
      rewrite len_snoc, Hc. split; [reflexivity|]. split.
      * intros c' H. apply in_app_iff in H.
        pose proof (Hle _ Hc1).
        destruct (Z.gtb_spec (CommitInfo.date c) (Tally.lastCommit t0));
          destruct H as [H|[<-|[]]]; try specialize (Hle _ H); lia.
      * destruct (Z.gtb_spec (CommitInfo.date c) (Tally.lastCommit t0)).
        -- exists c. split; [apply in_app_iff; right; now left|reflexivity].
        -- exists c1. split; [apply in_app_iff; now left|exact He].
    + rewrite IH. cbn [app Tally.count Tally.lastCommit].
      assert (Hgt : (CommitInfo.date c >? CommitInfo.date c) = false)
        by (rewrite Z.gtb_ltb; apply Z.ltb_irrefl).
      rewrite Hgt. split; [reflexivity|]. split.
      * intros c' [<-|[]]. lia.
      * exists c. split; [now left|reflexivity].
  - rewrite get_set_other by assumption. rewrite app_nil_r. exact IH.
Qed.

Lemma percentOf_range (c total : Z) :
  0 <= c <= total -> 0 < total -> 0 <= percentOf c total <= 100.
Proof.
  intros Hc Ht. destruct total as [|p|p]; try lia.
  rewrite percentOf_div. split.
  - apply Z.div_pos; lia.
  - enough ((200 * c + Z.pos p) / (2 * Z.pos p) < 101) by lia.
    apply Z.div_lt_upper_bound; lia.
Qed.

Lemma percentOf_mono (c c' total : Z) :
  0 < total -> c <= c' -> percentOf c total <= percentOf c' total.
Proof.
  intros Ht Hc. destruct total as [|p|p]; try lia.
  rewrite !percentOf_div. apply Z.div_le_mono; lia.
Qed.

Lemma count_le_sumCounts (m : Rec.t Tally.t) (a : string) (t : Tally.t) :
  Forall (fun e => 1 <= Tally.count (snd e)) m ->
  In (a, t) m -> Tally.count t <= sumCounts m.
Proof.
  unfold sumCounts. induction 1 as [|[a' t'] m Ht Hm IH];
    cbn [map sumZ fold_right snd]; [intros []|].
  fold (sumZ (map (fun e : string * Tally.t => Tally.count (snd e)) m)).
  assert (Hnn : 0 <= sumZ (map (fun e : string * Tally.t =>
                                  Tally.count (snd e)) m)).
  { clear -Hm. induction Hm as [|[a2 t2] m H2 Hm IH];
      cbn [map sumZ fold_right snd]; [lia|].
    fold (sumZ (map (fun e : string * Tally.t => Tally.count (snd e)) m)).
    simpl in H2. lia. }
  simpl in Ht. intros [[= -> ->]|Hin]; [lia|]. specialize (IH Hin). lia.
Qed.

Lemma contributors_spec (now : Z)
    (commits : list CommitInfo.t) (file : string) (fc : FileChurn.t) :
  In (file, fc) (analyzeFileChurn now commits) ->
  let full := fullContributors commits file fc in
  Permutation (map Contributor.author full) (authors fc)
  /\ JS.len full = authorCount fc
  /\ forall cn,
       In cn full ->
       let visits := visitsBy (Contributor.author cn) (touchList file commits) in
       Contributor.commits cn = JS.len visits
       /\ 1 <= Contributor.commits cn <= totalCommits fc
       /\ 0 <= Contributor.percent cn <= 100
       /\ (forall c, In c visits ->
           CommitInfo.date c <= Contributor.lastCommit cn)
       /\ exists c, In c visits /\ CommitInfo.date c = Contributor.lastCommit cn.
Proof.
  intros Hin full.
  pose proof (analyzeFileChurn_touches _ _ _ _ Hin) as Htouch.
  destruct (analyzeFileChurn_counted _ _ _ _ Hin) as [[Hpos _] Hac].
  pose proof Hin as Hfold. apply analyzeFileChurn_folded in Hfold.
  destruct Hfold as [fc0 [Hfold Hfc]].
  apply churnStep_fold_spec in Hfold. destruct Hfold as (_ & _ & Ha & _).
  assert (Hauthors : authors fc
                     = distinct (map CommitInfo.author (touchList file commits)))
    by (rewrite Hfc; exact Ha).
  assert (Hperm : Permutation (map Contributor.author full) (authors fc)).
  { unfold full, fullContributors.
    rewrite (Permutation_map _ (contributorsOf_perm _ _)), map_map.
    cbn [Contributor.author].
    assert (Hkeys : Rec.keys (tallyOf commits file) = authors fc)
      by (now rewrite tallyOf_fold, tallyStep_keys, Hauthors).
    rewrite <- Hkeys. unfold Rec.keys. apply Permutation_refl'.
    now apply map_ext. }
  split; [exact Hperm|]. split.
  { rewrite Hac. unfold JS.len.
    now rewrite <- (Permutation_length Hperm), length_map. }
  intros cn Hcn. cbv zeta.
  unfold full, fullContributors in Hcn.
  apply (Permutation_in _ (contributorsOf_perm _ _)) in Hcn.
  apply in_map_iff in Hcn. destruct Hcn as [[a t] [<- Hat]].
  cbn [fst snd Contributor.author Contributor.commits Contributor.percent
         Contributor.lastCommit].
  pose proof (count_le_sumCounts _ _ _ (tallyOf_positive commits file) Hat)
    as Hle.
  rewrite tallyOf_touches, <- Htouch in Hle.
  pose proof (tallyOf_positive commits file) as Hposs.
  rewrite Forall_forall in Hposs. specialize (Hposs _ Hat). simpl in Hposs.
  assert (Hget : Rec.get a (tallyOf commits file) = Some t).
  { apply NoDup_get; [|exact Hat].
    rewrite tallyOf_fold, tallyStep_keys. apply distinct_spec. }
  pose proof (tallyStep_get a (touchList file commits)) as Hspec.
  rewrite <- tallyOf_fold, Hget in Hspec.
  destruct Hspec as (Hc & Hlate & Hex).
  split; [exact Hc|]. split; [lia|]. split; [apply percentOf_range; lia|].
  split; [exact Hlate|exact Hex].
Qed.

(** X6. For every file of the churn pass, the full contributor array of the
    ownership pass has exactly one member per author of the churn record.
    Each member's commit count is the number of visits that author's
    commits pay to the file (at least one), its percentage lies between 0
    and 100, and its [lastCommit] is the latest date among those commits. *)
Theorem contributors_are_the_churn_authors (now : Z)
    (commits : list CommitInfo.t) (file : string) (fc : FileChurn.t) :
  In (file, fc) (analyzeFileChurn now commits) ->
  let full := fullContributors commits file fc in
  Permutation (map Contributor.author full) (authors fc)
  /\ JS.len full = authorCount fc
  /\ forall cn,
       In cn full ->
       let visits := visitsBy (Contributor.author cn) (touchList file commits) in
       Contributor.commits cn = JS.len visits
       /\ 1 <= Contributor.commits cn <= totalCommits fc
       /\ 0 <= Contributor.percent cn <= 100
       /\ (forall c, In c visits ->
           CommitInfo.date c <= Contributor.lastCommit cn)
       /\ exists c, In c visits /\ CommitInfo.date c = Contributor.lastCommit cn.
Proof.
  exact (contributors_spec now commits file fc).
Qed.

Lemma contributors_are_the_churn_authors_witness :
  match Rec.get "src/auth.ts" (analyzeFileChurn 6000 fiveCommits) with
  | Some fc => JS.len (fullContributors fiveCommits "src/auth.ts" fc) = 3
  | None => False
  end.
Proof.
  destruct (Rec.get "src/auth.ts" (analyzeFileChurn 6000 fiveCommits))
    as [fc|] eqn:G.
  - destruct (contributors_are_the_churn_authors 6000 fiveCommits
                "src/auth.ts" fc (get_In _ _ _ G)) as (_ & Hlen & _).
    rewrite Hlen. vm_compute in G. injection G as <-. reflexivity.
  - vm_compute in G. discriminate G.
Defined.

(** ** Ownership records *)

Lemma get_key_Some {V : Type} (k : string) (r : Rec.t V) :
  In k (Rec.keys r) -> exists v, Rec.get k r = Some v.
Proof.
  unfold Rec.keys. induction r as [|[k' v'] r IH]; simpl; [intros []|].
  destruct (String.eqb_spec k k') as [->|Hne]; [now exists v'|].
  intros [H|H]; [congruence|now apply IH].
Qed.

Section RebuildKeys.
Context {V W : Type} (src : Rec.t V) (g : string -> V -> W).

Lemma rebuild_keys (ks : list string) :
  NoDup ks ->
  (forall k, In k ks -> In k (Rec.keys src)) ->
  forall acc,
    (forall k, In k ks -> ~ In k (Rec.keys acc)) ->
    Rec.keys
      (fold_left
         (fun acc k =>
            match Rec.get k src with
            | Some v => Rec.set k (g k v) acc
            | None => acc
            end) ks acc)
    = Rec.keys acc ++ ks.
Proof.
  induction ks as [|k ks IH]; intros Hnd Hsrc acc Hacc; cbn [fold_left].
  - now rewrite app_nil_r.
  - inversion_clear Hnd as [|? ? Hnotin Hnd'].
    destruct (get_key_Some k src (Hsrc k (or_introl eq_refl))) as [v Hv].
    rewrite Hv, IH; auto.
    + rewrite keys_set_list.
      destruct (JS.arr_includes (Rec.keys acc) k) eqn:E.
      * apply arr_includes_In in E. exfalso. apply (Hacc k); [now left|exact E].
      * now rewrite <- app_assoc.
    + intros k' Hk'. apply Hsrc. now right.
    + intros k' Hk' Hin. rewrite keys_set_list in Hin.
      destruct (JS.arr_includes (Rec.keys acc) k).
      * apply (Hacc k'); [now right|exact Hin].
      * apply in_app_iff in Hin. destruct Hin as [Hin|[<-|[]]].
        -- apply (Hacc k'); [now right|exact Hin].
        -- contradiction.
Qed.
End RebuildKeys.

Lemma contributorsOf_member (m : Rec.t Tally.t) (total : Z)
    (cn : Contributor.t) :
  In cn (contributorsOf m total) ->
  Contributor.percent cn = percentOf (Contributor.commits cn) total.
Proof.
  intros H. apply (Permutation_in _ (contributorsOf_perm _ _)) in H.
  apply in_map_iff in H. now destruct H as [e [<- _]].
Qed.

(** X7. Every ownership record built from the churn records of the same
    commits carries the path it is stored under and names a primary author:
    the first member of the full contributor array, whose commit count and
    percentage are the highest of the file. Between one and five
    contributors are stored. *)
Theorem ownership_record_names_top_contributor (now : Z)
    (commits : list CommitInfo.t) (file : string) (o : FileOwnership.t) :
  In (file, o)
    (analyzeFileOwnership (analyzeFileChurn now commits) commits) ->
  FileOwnership.path o = file
  /\ 1 <= JS.len (FileOwnership.contributors o) <= 5
  /\ exists fc top,
       In (file, fc) (analyzeFileChurn now commits)
       /\ hd_error (FileOwnership.contributors o) = Some top
       /\ FileOwnership.primaryAuthor o = Some (Contributor.author top)
       /\ FileOwnership.primaryAuthorPercent o = Contributor.percent top
       /\ 0 <= FileOwnership.primaryAuthorPercent o <= 100
       /\ forall cn,
            In cn (fullContributors commits file fc) ->
            Contributor.commits cn <= Contributor.commits top
            /\ Contributor.percent cn <= Contributor.percent top.
Proof.
  intros Hin. apply analyzeFileOwnership_In in Hin.
  destruct Hin as [fc [Hfc ->]].
  destruct (analyzeFileChurn_counted _ _ _ _ Hfc) as [[Hpos _] _].
  pose proof (contributors_spec now commits file fc Hfc)
    as Hx.
  cbv zeta in Hx. destruct Hx as (_ & _ & Hmem).
  unfold ownershipOf. cbn [FileOwnership.path FileOwnership.contributors
    FileOwnership.primaryAuthor FileOwnership.primaryAuthorPercent].
  fold (tallyOf commits file). fold (fullContributors commits file fc).
  pose proof (sort_sorted Contributor.commits
                (map (fun e =>
                        {| Contributor.author := fst e;
                           Contributor.commits := Tally.count (snd e);
                           Contributor.percent :=
                             percentOf (Tally.count (snd e)) (totalCommits fc);
                           Contributor.lastCommit := Tally.lastCommit (snd e) |})
                   (Rec.entries (tallyOf commits file)))) as Hsorted.
  change (StronglySorted (ge_key Contributor.commits)
            (fullContributors commits file fc)) in Hsorted.
  assert (Hlen : 1 <= JS.len (fullContributors commits file fc)).
  { unfold fullContributors, JS.len. rewrite contributorsOf_length.
    pose proof (len_le_sumCounts _ (tallyOf_positive commits file)) as Hle.
    pose proof (tallyOf_touches commits file) as Hs.
    pose proof (analyzeFileChurn_touches _ _ _ _ Hfc) as Ht.
    destruct (tallyOf commits file) as [|e m]; [|cbn [List.length]; lia].
    unfold sumCounts in Hs; simpl in Hs. lia. }
  split; [reflexivity|].
  assert (Hmember : forall cn,
             In cn (fullContributors commits file fc) ->
             Contributor.percent cn
             = percentOf (Contributor.commits cn) (totalCommits fc))
    by (intros cn; apply contributorsOf_member).
  destruct (fullContributors commits file fc) as [|top rest] eqn:F.
  - unfold JS.len in Hlen; simpl in Hlen. lia.
  - split.
    + unfold JS.slice0, JS.len. rewrite length_firstn. cbn [List.length]. lia.
    + exists fc, top. split; [exact Hfc|]. split; [reflexivity|].
      split; [reflexivity|]. split; [reflexivity|]. split.
      * apply (Hmem top). now left.
      * intros cn Hcn. rewrite F in Hcn.
        inversion_clear Hsorted as [|? ? _ Hall].
        assert (Hc : Contributor.commits cn <= Contributor.commits top).
        { destruct Hcn as [<-|Hcn]; [lia|].
          rewrite Forall_forall in Hall. exact (Hall _ Hcn). }
        split; [exact Hc|].
        rewrite (Hmember cn Hcn), (Hmember top (or_introl eq_refl)).
        apply percentOf_mono; lia.
Qed.

Lemma ownership_record_names_top_contributor_witness :
  match
    Rec.get "src/auth.ts"
      (analyzeFileOwnership (analyzeFileChurn 6000 fiveCommits) fiveCommits)
  with
  | Some o =>
      FileOwnership.path o = "src/auth.ts"
      /\ 1 <= JS.len (FileOwnership.contributors o) <= 5
  | None => False
  end.
Proof.
  destruct (Rec.get "src/auth.ts"
              (analyzeFileOwnership (analyzeFileChurn 6000 fiveCommits)
                 fiveCommits)) as [o|] eqn:G.
  - destruct (ownership_record_names_top_contributor 6000 fiveCommits
                "src/auth.ts" o (get_In _ _ _ G)) as (Hp & Hl & _).
    split; [exact Hp|exact Hl].
  - vm_compute in G. discriminate G.
Defined.

(** X8. The ownership dictionary has the keys of the churn dictionary, in
    the same order; and in an analysis result every file whose ownership is
    [disputed] is listed in [multiAuthorFiles], while no file with a single
    author is [shared] or [disputed]. *)
Theorem ownership_follows_churn (w : World.t) (repoPath : string)
    (commits : list CommitInfo.t) :
  let history := buildHistory w repoPath commits in
  Rec.keys (GitHistory.fileOwnership history)
  = Rec.keys (GitHistory.fileChurn history)
  /\ (forall file o,
         In (file, o) (GitHistory.fileOwnership history) ->
         FileOwnership.ownershipClarity o = disputed ->
         In file (GitHistory.multiAuthorFiles history))
  /\ (forall file o fc,
         In (file, o) (GitHistory.fileOwnership history) ->
         In (file, fc) (GitHistory.fileChurn history) ->
         authorCount fc = 1 ->
         FileOwnership.ownershipClarity o = clear).
Proof.
  cbv zeta. cbn [buildHistory GitHistory.fileOwnership GitHistory.fileChurn
                   GitHistory.multiAuthorFiles].
  set (churn := analyzeFileChurn (World.nowChurn w) commits).
  assert (Hnd : NoDup (Rec.keys churn)) by apply analyzeFileChurn_NoDup.
  split; [|split].
  - unfold analyzeFileOwnership.
    rewrite (rebuild_keys churn (ownershipOf _)); auto.
  - intros file o Hin Hd.
    apply analyzeFileOwnership_In in Hin. destruct Hin as [fc [Hfc ->]].
    pose proof (contributors_spec _ _ _ _ Hfc) as Hx.
    cbv zeta in Hx. destruct Hx as (_ & Hlen & _).
    pose proof (churn_authors_spec _ _ _ _ Hfc)
      as (Hpath & _).
    unfold ownershipOf in Hd. cbn [FileOwnership.ownershipClarity] in Hd.
    fold (tallyOf commits file) in Hd.
    fold (fullContributors commits file fc) in Hd.
    apply (proj1 (clarityOf_rule _)) in Hd. destruct Hd as [H3 _].
    rewrite <- Hpath. apply in_map. apply filter_In. split.
    + unfold Rec.values. apply (in_map snd) in Hfc. exact Hfc.
    + rewrite Z.geb_leb. apply Z.leb_le. lia.
  - intros file o fc Hin Hfc Hac.
    apply analyzeFileOwnership_In in Hin. destruct Hin as [fc' [Hfc' ->]].
    assert (fc' = fc) as ->.
    { apply NoDup_get in Hfc; [|exact Hnd].
      apply NoDup_get in Hfc'; [|exact Hnd]. congruence. }
    pose proof (contributors_spec _ _ _ _ Hfc) as Hx.
    cbv zeta in Hx. destruct Hx as (_ & Hlen & _).
    unfold ownershipOf. cbn [FileOwnership.ownershipClarity].
    fold (tallyOf commits file). fold (fullContributors commits file fc).
    apply (proj2 (proj2 (clarityOf_rule _))). lia.
Qed.

(** ** Author statistics *)

Lemma get_authorCommit (stats : Rec.t AuthorStats.t) (c : CommitInfo.t)
    (a : string) :
  Rec.get a (authorCommit stats c)
  = if String.eqb a (CommitInfo.author c)
    then authorStep (Rec.get a stats) c
    else Rec.get a stats.
Proof.
  unfold authorStep, authorCommit.
  destruct (String.eqb_spec a (CommitInfo.author c)) as [->|Hne].
  - rewrite !get_set_same.
    destruct (Rec.get (CommitInfo.author c) stats) as [st|]; simpl;
      [now rewrite String.eqb_refl|reflexivity].
  - now rewrite get_set_other.
Qed.

Lemma authorFold_get (a : string) (commits : list CommitInfo.t) :
  forall stats,
    Rec.get a (fold_left authorCommit commits stats)
    = fold_left authorStep (visitsBy a commits) (Rec.get a stats).
Proof.
  unfold visitsBy.
  induction commits as [|c commits IH]; intros stats; simpl; auto.
  rewrite IH, get_authorCommit.
  now destruct (String.eqb a (CommitInfo.author c)).
Qed.

Lemma authorStep_Some (o : option AuthorStats.t) (c : CommitInfo.t) :
  exists st, authorStep o c = Some st.
Proof.
  unfold authorStep, authorCommit. rewrite get_set_same. eauto.
Qed.

Lemma contribute_distinct (l files : list string) :
  contribute files (distinct l) = distinct (l ++ files).
Proof.
  unfold contribute, distinct. now rewrite fold_left_app.
Qed.

(** The closed form of the folded statistics of [a], in terms of the
    commits [l] of [a]. *)
Lemma authorStep_fold_spec (a : string) (l : list CommitInfo.t) :
  Forall (fun c => CommitInfo.author c = a) l ->
  forall st,
    fold_left authorStep l None = Some st ->
    AuthorStats.name st = a
    /\ AuthorStats.email st
       = match l with c :: _ => CommitInfo.email c | [] => "" end
    /\ AuthorStats.totalCommits st = JS.len l
    /\ AuthorStats.totalInsertions st = sumZ (map CommitInfo.insertions l)
    /\ AuthorStats.totalDeletions st = sumZ (map CommitInfo.deletions l)
    /\ AuthorStats.filesOwned st = []
    /\ AuthorStats.filesContributed st
       = distinct (flat_map CommitInfo.filesChanged l)
    /\ (forall c, In c l ->
        AuthorStats.firstCommit st <= CommitInfo.date c
        <= AuthorStats.lastCommit st)
    /\ (exists c, In c l /\ CommitInfo.date c = AuthorStats.firstCommit st)
    /\ (exists c, In c l /\ CommitInfo.date c = AuthorStats.lastCommit st).
Proof.
  induction l as [|c l IH] using rev_ind; intros Hall st; [discriminate|].
  apply Forall_app in Hall. destruct Hall as [Hl Hc].
  inversion_clear Hc as [|? ? Hca _].
  rewrite fold_left_app. cbn [fold_left]. unfold authorStep at 1.
  unfold authorCommit. rewrite get_set_same. intros [= <-].
  cbn [AuthorStats.name AuthorStats.email AuthorStats.totalCommits
         AuthorStats.totalInsertions AuthorStats.totalDeletions
         AuthorStats.filesOwned AuthorStats.filesContributed
         AuthorStats.firstCommit AuthorStats.lastCommit].
  rewrite !map_app, flat_map_app, len_snoc. cbn [map flat_map].
  rewrite app_nil_r, <- contribute_distinct.
  assert (Hsum : forall xs x, sumZ (xs ++ [x]) = sumZ xs + x).
  { intros xs x. induction xs as [|y xs IHx]; simpl; lia. }
  rewrite !Hsum. unfold Date_getTime.
  destruct (fold_left authorStep l None) as [st0|] eqn:E.
  - destruct (IH Hl st0 eq_refl)
      as (Hn & He & Htc & Hi & Hd & Ho & Hf & Hb & [c1 [Hc1 H1]]
          & [c2 [Hc2 H2]]).
    cbn [Rec.get]. rewrite String.eqb_refl.
    repeat match goal with |- _ /\ _ => split end.
    + exact Hn.
    + rewrite He. now destruct l.
    + now rewrite Htc.
    + now rewrite Hi.
    + now rewrite Hd.
    + exact Ho.
    + now rewrite Hf.
    + intros c' H. apply in_app_iff in H.
      pose proof (Hb _ Hc1).
      destruct (Z.ltb_spec (CommitInfo.date c) (AuthorStats.firstCommit st0));
        destruct (Z.gtb_spec (CommitInfo.date c) (AuthorStats.lastCommit st0));
        destruct H as [H|[<-|[]]]; try specialize (Hb _ H); lia.
    + destruct (Z.ltb_spec (CommitInfo.date c) (AuthorStats.firstCommit st0)).
      * exists c. split; [apply in_app_iff; right; now left|reflexivity].
      * exists c1. split; [apply in_app_iff; now left|exact H1].
    + destruct (Z.gtb_spec (CommitInfo.date c) (AuthorStats.lastCommit st0)).
      * exists c. split; [apply in_app_iff; right; now left|reflexivity].
      * exists c2. split; [apply in_app_iff; now left|exact H2].
  - assert (l = []) as ->.
    { destruct l as [|c0 l0] using rev_ind; [reflexivity|].
      rewrite fold_left_app in E. cbn [fold_left] in E.
      destruct (authorStep_Some (fold_left authorStep l0 None) c0) as [s Hs].
      congruence. }
    cbn [Rec.get newAuthorStats AuthorStats.name AuthorStats.email
           AuthorStats.totalCommits AuthorStats.totalInsertions
           AuthorStats.totalDeletions AuthorStats.filesOwned
           AuthorStats.filesContributed AuthorStats.firstCommit
           AuthorStats.lastCommit app map flat_map].
    rewrite Z.ltb_irrefl.
    assert (Hgt : (CommitInfo.date c >? CommitInfo.date c) = false)
      by (rewrite Z.gtb_ltb; apply Z.ltb_irrefl).
    rewrite Hgt.
    repeat match goal with |- _ /\ _ => split end; try reflexivity.
    + exact Hca.
    + intros c' [<-|[]]. lia.
    + exists c. split; [now left|reflexivity].
    + exists c. split; [now left|reflexivity].
Qed.

Lemma authorFold_NoDup (commits : list CommitInfo.t) :
  forall stats,
    NoDup (Rec.keys stats) ->
    NoDup (Rec.keys (fold_left authorCommit commits stats)).
Proof.
  induction commits as [|c commits IH]; intros stats Hnd; simpl; auto.
  apply IH. unfold authorCommit. now apply NoDup_keys_set.
Qed.

Lemma visitsBy_author (a : string) (l : list CommitInfo.t) :
  Forall (fun c => CommitInfo.author c = a) (visitsBy a l).
Proof.
  apply Forall_forall. intros c Hc. apply filter_In in Hc.
  destruct Hc as [_ He]. apply String.eqb_eq in He. now symmetry.
Qed.

(** X9. The statistics of an author count that author's commits and add up
    their insertions and deletions; [filesContributed] lists without
    duplicates exactly the files those commits changed; [email] is that of
    the author's first commit in log order; [firstCommit] and [lastCommit]
    are the earliest and latest of their dates, each the date of one of
    those commits; [activeDays] is at least one; and [filesOwned] is always
    empty. *)
Theorem author_stats_summarise_their_commits (commits : list CommitInfo.t)
    (a : string) (st : AuthorStats.t) :
  In (a, st) (analyzeAuthorStats commits) ->
  let own := visitsBy a commits in
  AuthorStats.name st = a
  /\ AuthorStats.email st
     = match own with c :: _ => CommitInfo.email c | [] => "" end
  /\ AuthorStats.totalCommits st = JS.len own
  /\ 1 <= AuthorStats.totalCommits st
  /\ AuthorStats.totalInsertions st = sumZ (map CommitInfo.insertions own)
  /\ AuthorStats.totalDeletions st = sumZ (map CommitInfo.deletions own)
  /\ AuthorStats.filesOwned st = []
  /\ NoDup (AuthorStats.filesContributed st)
  /\ (forall f,
         In f (AuthorStats.filesContributed st)
         <-> exists c,
               In c commits /\ CommitInfo.author c = a
               /\ In f (CommitInfo.filesChanged c))
  /\ (forall c, In c commits -> CommitInfo.author c = a ->
      AuthorStats.firstCommit st <= CommitInfo.date c
      <= AuthorStats.lastCommit st)
  /\ (exists c,
         In c commits /\ CommitInfo.author c = a
         /\ CommitInfo.date c = AuthorStats.firstCommit st)
  /\ (exists c,
         In c commits /\ CommitInfo.author c = a
         /\ CommitInfo.date c = AuthorStats.lastCommit st)
  /\ 1 <= AuthorStats.activeDays st.
Proof.
  intros Hin own. unfold analyzeAuthorStats in Hin.
  assert (Hnd : NoDup (Rec.keys
                         (map (fun e => (fst e, deriveAuthor (snd e)))
                            (fold_left authorCommit commits Rec.empty)))).
  { rewrite keys_map. apply authorFold_NoDup. constructor. }
  apply NoDup_get in Hin; [|exact Hnd].
  rewrite get_map, (authorFold_get a commits Rec.empty) in Hin.
  cbn [Rec.get Rec.empty] in Hin. fold own in Hin.
  destruct (fold_left authorStep own None) as [st0|] eqn:E; [|discriminate].
  injection Hin as <-.
  destruct (authorStep_fold_spec a own (visitsBy_author a commits) st0 E)
    as (Hn & He & Htc & Hi & Hd & Ho & Hf & Hb & [c1 [Hc1 H1]]
        & [c2 [Hc2 H2]]).
  assert (Hown : forall c, In c own -> In c commits /\ CommitInfo.author c = a).
  { intros c Hc. apply filter_In in Hc. destruct Hc as [Hc He'].
    apply String.eqb_eq in He'. now split. }
  cbn [deriveAuthor AuthorStats.name AuthorStats.email
         AuthorStats.totalCommits AuthorStats.totalInsertions
         AuthorStats.totalDeletions AuthorStats.filesOwned
         AuthorStats.filesContributed AuthorStats.firstCommit
         AuthorStats.lastCommit AuthorStats.activeDays].
  destruct (distinct_spec (flat_map CommitInfo.filesChanged own))
    as [Hdnd Hdin].
  repeat match goal with |- _ /\ _ => split end; auto.
  - rewrite Htc. destruct own as [|c0 own0]; [discriminate E|].
    unfold JS.len; cbn [List.length]. lia.
  - now rewrite Hf.
  - intros f. rewrite Hf, Hdin, in_flat_map. split.
    + intros [c [Hc Hfc]]. apply filter_In in Hc. destruct Hc as [Hc He'].
      apply String.eqb_eq in He'. exists c. auto.
    + intros [c [Hc [Ha Hfc]]]. exists c. split; [|exact Hfc].
      apply filter_In. split; [exact Hc|]. rewrite Ha. apply String.eqb_refl.
  - intros c Hc Ha. apply Hb. apply filter_In. split; [exact Hc|].
    rewrite Ha. apply String.eqb_refl.
  - exists c1. destruct (Hown c1 Hc1). auto.
  - exists c2. destruct (Hown c2 Hc2). auto.
  - lia.
Qed.

Lemma author_stats_summarise_their_commits_witness :
  match Rec.get "Alice" (analyzeAuthorStats fiveCommits) with
  | Some st =>
      AuthorStats.totalCommits st = 2 /\ AuthorStats.totalInsertions st = 3
  | None => False
  end.
Proof.
  destruct (Rec.get "Alice" (analyzeAuthorStats fiveCommits)) as [st|] eqn:G.
  - destruct (author_stats_summarise_their_commits fiveCommits "Alice" st
                (get_In _ _ _ G)) as (_ & _ & Htc & _ & Hi & _).
    rewrite Htc, Hi. split; reflexivity.
  - vm_compute in G. discriminate G.
Defined.

Lemma sumField_set {V : Type} (field : V -> Z) (k : string) (v : V)
    (r : Rec.t V) :
  sumField field (Rec.set k v r)
  = sumField field r
    - match Rec.get k r with Some v0 => field v0 | None => 0 end
    + field v.
Proof.
  unfold sumField. induction r as [|[k' v'] r IH]; simpl; [lia|].
  destruct (String.eqb k k'); simpl; [lia|]. rewrite IH. lia.
Qed.

Lemma authorFold_keys (commits : list CommitInfo.t) :
  forall stats,
    Rec.keys (fold_left authorCommit commits stats)
    = fold_left
        (fun acc a => if JS.arr_includes acc a then acc else acc ++ [a])
        (map CommitInfo.author commits) (Rec.keys stats).
Proof.
  induction commits as [|c commits IH]; intros stats; simpl; auto.
  rewrite IH. f_equal. unfold authorCommit. apply keys_set_list.
Qed.

Lemma authorFold_sums (commits : list CommitInfo.t) :
  forall stats,
    sumField AuthorStats.totalCommits (fold_left authorCommit commits stats)
    = sumField AuthorStats.totalCommits stats + JS.len commits
    /\ sumField AuthorStats.totalInsertions
         (fold_left authorCommit commits stats)
       = sumField AuthorStats.totalInsertions stats
         + sumZ (map CommitInfo.insertions commits)
    /\ sumField AuthorStats.totalDeletions
         (fold_left authorCommit commits stats)
       = sumField AuthorStats.totalDeletions stats
         + sumZ (map CommitInfo.deletions commits).
Proof.
  induction commits as [|c commits IH]; intros stats.
  - unfold JS.len; simpl. lia.
  - cbn [fold_left map]. destruct (IH (authorCommit stats c)) as (H1 & H2 & H3).
    rewrite H1, H2, H3. unfold authorCommit. rewrite !sumField_set.
    cbn [AuthorStats.totalCommits AuthorStats.totalInsertions
           AuthorStats.totalDeletions sumZ fold_right].
    fold (sumZ (map CommitInfo.insertions commits)).
    fold (sumZ (map CommitInfo.deletions commits)).
    unfold JS.len. cbn [List.length]. rewrite Nat2Z.inj_succ.
    destruct (Rec.get (CommitInfo.author c) stats);
      cbn [newAuthorStats AuthorStats.totalCommits AuthorStats.totalInsertions
             AuthorStats.totalDeletions]; lia.
Qed.

Lemma has_key {V : Type} (k : string) (r : Rec.t V) :
  (exists v, Rec.get k r = Some v) <-> In k (Rec.keys r).
Proof.
  split; [|apply get_key_Some].
  intros [v G]. apply get_In in G. now apply (in_map fst) in G.
Qed.

Lemma analyzeAuthorStats_has (commits : list CommitInfo.t) (a : string) :
  (exists st, Rec.get a (analyzeAuthorStats commits) = Some st)
  <-> exists c, In c commits /\ CommitInfo.author c = a.
Proof.
  rewrite has_key. unfold analyzeAuthorStats. rewrite keys_map.
  rewrite (authorFold_keys commits Rec.empty).
  change (Rec.keys (@Rec.empty AuthorStats.t)) with (@nil string).
  fold (distinct (map CommitInfo.author commits)).
  rewrite (proj2 (distinct_spec _) a), in_map_iff.
  split; intros [c H]; exists c; tauto.
Qed.

(** X10. Whenever the author pass returns, its dictionary has exactly one
    entry per author of a commit whose name is not that of a property of
    [Object.prototype]; over all entries the commit counts, insertions and
    deletions add up to those of the commits by such authors; the commits
    left out, by authors so named, change no file; and [totalAuthors] of
    the aggregate is the number of distinct names counted. *)
Theorem author_stats_partition_the_log (commits : list CommitInfo.t)
    (stats : Rec.t AuthorStats.t) :
  Run.analyzeAuthorStats commits = Resolved stats ->
  let counted := filter ordinaryAuthor commits in
  NoDup (Rec.keys stats)
  /\ (forall a,
         In a (Rec.keys stats)
         <-> inheritedProperty a = false
             /\ exists c, In c commits /\ CommitInfo.author c = a)
  /\ JS.len (Rec.keys stats)
     = JS.len (distinct (map CommitInfo.author counted))
  /\ sumField AuthorStats.totalCommits stats = JS.len counted
  /\ sumField AuthorStats.totalInsertions stats
     = sumZ (map CommitInfo.insertions counted)
  /\ sumField AuthorStats.totalDeletions stats
     = sumZ (map CommitInfo.deletions counted)
  /\ (forall c,
         In c commits -> inheritedProperty (CommitInfo.author c) = true ->
         CommitInfo.filesChanged c = [])
  /\ forall w repoPath fileChurn,
       GitHistory.totalAuthors (aggregate w repoPath commits fileChurn stats)
       = JS.len (distinct (map CommitInfo.author counted)).
Proof.
  intros Hrun counted. rewrite Run_analyzeAuthorStats_spec in Hrun.
  destruct (existsb strangeAuthor commits) eqn:Hstrange; [discriminate|].
  injection Hrun as <-. fold counted.
  assert (Hkeys : Rec.keys (analyzeAuthorStats counted)
                  = distinct (map CommitInfo.author counted)).
  { unfold analyzeAuthorStats. rewrite keys_map.
    apply (authorFold_keys counted Rec.empty). }
  assert (Hsum : forall field : AuthorStats.t -> Z,
             (forall st, field (deriveAuthor st) = field st) ->
             sumField field (analyzeAuthorStats counted)
             = sumField field (fold_left authorCommit counted Rec.empty)).
  { intros field H. unfold analyzeAuthorStats, sumField. rewrite map_map.
    f_equal. apply map_ext. intros e. apply H. }
  destruct (authorFold_sums counted Rec.empty) as (H1 & H2 & H3).
  split; [rewrite Hkeys; apply distinct_spec|].
  split.
  { intros a. rewrite <- has_key, analyzeAuthorStats_has. unfold counted.
    split.
    - intros [c [Hc Ha]]. apply filter_In in Hc. destruct Hc as [Hc Hord].
      unfold ordinaryAuthor in Hord. rewrite Ha in Hord.
      split; [now destruct (inheritedProperty a)|]. now exists c.
    - intros [Hord [c [Hc Ha]]]. exists c. split; [|exact Ha].
      apply filter_In. split; [exact Hc|].
      unfold ordinaryAuthor. now rewrite Ha, Hord. }
  split; [now rewrite Hkeys|].
  rewrite !Hsum by reflexivity. rewrite H1, H2, H3.
  unfold sumField, Rec.empty. cbn [map sumZ fold_right].
  repeat match goal with |- _ /\ _ => split end; try lia.
  - intros c Hc Ha.
    destruct (CommitInfo.filesChanged c) as [|f files] eqn:Hf;
      [reflexivity|].
    assert (existsb strangeAuthor commits = true); [|congruence].
    apply existsb_exists. exists c. split; [exact Hc|].
    unfold strangeAuthor. now rewrite Ha, Hf.
  - intros w repoPath fileChurn. cbn [aggregate GitHistory.totalAuthors].
    now rewrite Hkeys.
Qed.

Lemma author_stats_partition_the_log_witness :
  match Run.analyzeAuthorStats fiveCommits with
  | Resolved stats => sumField AuthorStats.totalCommits stats = 5
  | Rejected _ => False
  end.
Proof.
  destruct (Run.analyzeAuthorStats fiveCommits) as [stats|e] eqn:R.
  - destruct (author_stats_partition_the_log fiveCommits stats R)
      as (_ & _ & _ & Htc & _).
    rewrite Htc. reflexivity.
  - vm_compute in R. discriminate R.
Defined.

(** ** The stable core *)

Lemma sort_ext {A : Type} (cmp cmp' : A -> A -> Z) (l : list A) :
  (forall a b, cmp a b = cmp' a b) -> JS.sort cmp l = JS.sort cmp' l.
Proof.
  intros H. induction l as [|x l IH]; simpl; [reflexivity|].
  rewrite IH. generalize (JS.sort cmp' l). intros s.
  induction s as [|y s IHs]; simpl; [reflexivity|].
  now rewrite H, IHs.
Qed.

Lemma StronglySorted_impl {A : Type} (R R' : A -> A -> Prop) (l : list A) :
  (forall a b, R a b -> R' a b) -> StronglySorted R l -> StronglySorted R' l.
Proof.
  intros H. induction 1 as [|x l Hl IH Hx]; constructor; auto.
  eapply Forall_impl; [|exact Hx]. intros b. apply H.
Qed.

Lemma sort_ascending {A : Type} (key : A -> Z) (l : list A) :
  StronglySorted (le_key key) (JS.sort (fun a b => key a - key b) l).
Proof.
  rewrite (sort_ext _ (descending (fun a => - key a))).
  - eapply StronglySorted_impl; [|apply (sort_sorted (fun a => - key a))].
    unfold ge_key, le_key. intros a b. lia.
  - intros a b. unfold descending. lia.
Qed.

Lemma stableTest_spec (path : string) (churn : FileChurn.t) :
  stableTest (path, churn) = true <-> isStable path churn.
Proof.
  unfold stableTest, isStable.
  destruct (Z.ltb_spec (FileChurn.totalCommits churn) 2);
    destruct (Z.ltb_spec (FileChurn.daysSinceLastChange churn) 60);
    destruct (Z.gtb_spec (FileChurn.churnScore churn) 15);
    destruct (JS.includes path "config");
    destruct (JS.endsWith path ".json"); cbn [orb];
    split; intros; try discriminate; try lia;
    repeat match goal with H : _ /\ _ |- _ => destruct H end;
    try discriminate; try lia.
Qed.

Lemma sorted_firstn_rel {A : Type} (R : A -> A -> Prop) (n : nat)
    (l : list A) :
  StronglySorted R l -> StronglySorted R (firstn n l).
Proof.
  intros H; revert n. induction H as [|x l Hl IH Hx]; intros [|n]; simpl;
    try constructor; auto.
  rewrite Forall_forall in *. intros y Hy. apply Hx. now apply (in_firstn n).
Qed.

(** X11. The stable core lists at most 15 paths. They are the paths of the
    first entries of the qualifying churn entries sorted by ascending churn
    score, where an entry qualifies exactly when it has at least 2 commits,
    at least 60 days since its last change, a churn score of at most 15,
    and a path that neither contains [config] nor ends in [.json]; entries
    are left out only once 15 are listed. *)
Theorem stable_core_rule (fileChurn : Rec.t FileChurn.t) :
  let score (e : string * FileChurn.t) := FileChurn.churnScore (snd e) in
  (List.length (identifyStableCore fileChurn) <= 15)%nat
  /\ exists kept rest,
       identifyStableCore fileChurn = map fst kept
       /\ Permutation (kept ++ rest) (filter stableTest fileChurn)
       /\ StronglySorted (le_key score) (kept ++ rest)
       /\ (rest <> [] -> List.length kept = 15%nat)
       /\ forall path churn,
            In (path, churn) (kept ++ rest)
            <-> In (path, churn) fileChurn /\ isStable path churn.
Proof.
  cbv zeta. unfold identifyStableCore, JS.slice0, Rec.entries.
  change (fun e : string * t =>
            let '(path, churn) := e in
            if totalCommits churn <? 2 then false
            else if daysSinceLastChange churn <? 60 then false
            else if churnScore churn >? 15 then false
            else if JS.includes path "config" || JS.endsWith path ".json"
            then false else true) with stableTest.
  set (sorted := JS.sort _ (filter stableTest fileChurn)).
  split.
  - rewrite length_map. apply firstn_le_length.
  - exists (firstn 15 sorted), (skipn 15 sorted).
    rewrite firstn_skipn. split; [reflexivity|].
    split; [apply sort_perm|].
    split; [apply (sort_ascending (fun e => churnScore (snd e)))|]. split.
    + intros Hrest. rewrite length_firstn.
      destruct (Nat.le_gt_cases (List.length sorted) 15) as [Hle|Hgt]; [|lia].
      exfalso. apply Hrest. now apply skipn_all2.
    + intros path churn. split.
      * intros H. apply (Permutation_in _ (sort_perm _ _)) in H.
        apply filter_In in H. now rewrite <- stableTest_spec.
      * intros [H Hs]. apply (Permutation_in _ (Permutation_sym (sort_perm _ _))).
        apply filter_In. split; [exact H|]. now apply stableTest_spec.
Qed.

(** ** Fragile evidence *)

Lemma floor_changes (q : Q) :
  JS.gtb q 1000 = true -> 5 <= JS.Math_floor (q / 200)%Q.
Proof.
  unfold JS.gtb, JS.Math_floor. intros H.
  destruct (Qcompare_spec q (inject_Z 1000)) as [| |Hgt]; try discriminate.
  change 5 with (Qfloor (inject_Z 5)). apply Qfloor_resp_le.
  apply Qle_shift_div_l; [reflexivity|].
  apply Qlt_le_weak. exact Hgt.
Qed.

Lemma fold_sum_severity (evidence : list Evidence.t) :
  fold_left (fun sum e => sum + Evidence.severity e) evidence 0
  = sumZ (map Evidence.severity evidence).
Proof.
  enough (H : forall acc,
             fold_left (fun sum e => sum + Evidence.severity e) evidence acc
             = acc + sumZ (map Evidence.severity evidence))
    by (rewrite H; lia).
  induction evidence as [|e evidence IH]; intros acc; simpl; [lia|].
  rewrite IH. lia.
Qed.

(** The evidence of one file: which types are recorded, in which order,
    and with which severities. *)
Lemma fragileEvidence_spec (churn : FileChurn.t) (fixes : Z) :
  let evidence := fst (fragileEvidence churn fixes) in
  let reasons := snd (fragileEvidence churn fixes) in
  (forall ty, In ty (map Evidence.type evidence) <-> evidenceFires churn fixes ty)
  /\ NoDup (map Evidence.type evidence)
  /\ List.length reasons = List.length evidence
  /\ Forall (fun e => 3 <= Evidence.severity e <= 10) evidence.
Proof.
  unfold fragileEvidence, evidenceFires. cbv zeta.
  fold (totalChangesOf churn). rewrite !Z.geb_leb.
  pose proof (floor_changes (totalChangesOf churn)) as Hfloor.
  pose proof (Z.mul_div_le (churnScore churn) 5 ltac:(lia)) as Hlo.
  pose proof (Z.mul_succ_div_gt (churnScore churn) 5 ltac:(lia)) as Hhi.
  change (JS.div (churnScore churn) 5) with (JS.div (churnScore churn) (Zpos 5)).
  rewrite Math_floor_div.
  destruct (Z.gtb_spec (churnScore churn) 40);
    destruct (Z.leb_spec 4 (authorCount churn));
    destruct (Z.leb_spec 3 fixes);
    destruct (Z.leb_spec 5 (commitsLast30Days churn));
    destruct (Z.leb_spec (totalCommits churn) 10);
    destruct (JS.gtb (totalChangesOf churn) 1000);
    destruct (Z.gtb_spec (totalCommits churn) 5);
    cbn [andb fst snd app map Evidence.type Evidence.severity List.length];
    (split; [intros ty; destruct ty; cbn [In];
             intuition (try discriminate; try congruence; try lia)|]);
    (split; [repeat constructor; cbn [In];
             intuition (try discriminate)|]);
    (split; [reflexivity|]);
    repeat constructor; cbn [Evidence.severity]; try lia;
    try (specialize (Hfloor eq_refl); lia).
Qed.

(** What one file contributes to the fragile candidates. *)
Lemma fragileStep_record (fixes : Rec.t Z) (path : string)
    (churn : FileChurn.t) (f : FragileFile.t) :
  In f (fragileStep fixes [] (path, churn)) ->
  FragileFile.path f = path
  /\ FragileFile.evidence f
     = fst (fragileEvidence churn (fixesOf fixes path))
  /\ FragileFile.reasons f
     = snd (fragileEvidence churn (fixesOf fixes path))
  /\ FragileFile.fragileScore f
     = sumZ (map Evidence.severity (FragileFile.evidence f))
  /\ FragileFile.evidence f <> [].
Proof.
  unfold fragileStep.
  destruct (fragileEvidence churn (fixesOf fixes path)) as [evidence reasons].
  destruct (JS.len evidence >? 0) eqn:E; [|intros []].
  intros [<-|[]].
  cbn [FragileFile.path FragileFile.evidence FragileFile.reasons
         FragileFile.fragileScore fst snd].
  repeat split. - apply fold_sum_severity.
  - intros ->. discriminate E.
Qed.

(** X12. Every record of [identifyFragileFiles] belongs to a file of the
    churn dictionary and carries evidence of a type exactly when that
    type's condition holds for the file: at most one item per type, at
    least one item in all, and one reason per item. Every severity lies
    between 3 and 10, and the fragile score is the sum of the severities,
    hence between 3 and 50. *)
Theorem fragile_evidence_rule (fileChurn : Rec.t FileChurn.t)
    (fileOwnership : Rec.t FileOwnership.t) (commits : list CommitInfo.t)
    (f : FragileFile.t) :
  In f (identifyFragileFiles fileChurn fileOwnership commits) ->
  exists churn,
    In (FragileFile.path f, churn) fileChurn
    /\ let fixes :=
         touches (FragileFile.path f) (filter CommitInfo.isFix commits) in
       let evidence := FragileFile.evidence f in
       (forall ty,
           In ty (map Evidence.type evidence) <-> evidenceFires churn fixes ty)
       /\ NoDup (map Evidence.type evidence)
       /\ (1 <= List.length evidence <= 5)%nat
       /\ List.length (FragileFile.reasons f) = List.length evidence
       /\ Forall (fun e => 3 <= Evidence.severity e <= 10) evidence
       /\ FragileFile.fragileScore f = sumZ (map Evidence.severity evidence)
       /\ 3 <= FragileFile.fragileScore f <= 50.
Proof.
  intros Hin. apply identifyFragileFiles_candidates in Hin.
  rewrite fragileCandidates_flat, in_flat_map in Hin.
  destruct Hin as [[path churn] [Hentry Hin]].
  apply fragileStep_record in Hin.
  destruct Hin as (Hpath & Hev & Hre & Hscore & Hne).
  exists churn. rewrite Hpath. split; [exact Hentry|]. cbv zeta.
  rewrite <- fixesOf_touches.
  pose proof (fragileEvidence_spec churn
                (fixesOf (fixCommitsPerFile commits) path)) as Hspec.
  cbv zeta in Hspec. rewrite <- Hev, <- Hre in Hspec.
  destruct Hspec as (Hty & Hnd & Hlen & Hsev).
  assert (Hcount : (List.length (FragileFile.evidence f) <= 5)%nat).
  { rewrite <- (length_map Evidence.type).
    assert (Hincl : incl (map Evidence.type (FragileFile.evidence f))
                      [high_churn; many_authors; frequent_fixes;
                       recent_rewrites; yo_yo_changes]).
    { intros ty _. destruct ty; simpl; tauto. }
    apply (NoDup_incl_length Hnd Hincl). }
  assert (Hpos : (1 <= List.length (FragileFile.evidence f))%nat).
  { destruct (FragileFile.evidence f); [contradiction|simpl; lia]. }
  assert (Hbound : 3 * Z.of_nat (List.length (FragileFile.evidence f))
                   <= sumZ (map Evidence.severity (FragileFile.evidence f))
                   <= 10 * Z.of_nat (List.length (FragileFile.evidence f))).
  { clear -Hsev. induction Hsev as [|e l He Hl IH];
      cbn [map sumZ fold_right List.length]; [lia|].
    fold (sumZ (map Evidence.severity l)). rewrite Nat2Z.inj_succ. lia. }
  repeat match goal with |- _ /\ _ => split end; auto; try lia.
Qed.

Lemma fragile_evidence_rule_witness :
  match
    identifyFragileFiles (analyzeFileChurn 5000 fourAuthorsThreeFixes) []
      fourAuthorsThreeFixes
  with
  | f :: _ => 3 <= FragileFile.fragileScore f <= 50
  | [] => False
  end.
Proof.
  destruct (identifyFragileFiles (analyzeFileChurn 5000 fourAuthorsThreeFixes)
              [] fourAuthorsThreeFixes) as [|f rest] eqn:F.
  - vm_compute in F. discriminate F.
  - destruct (fragile_evidence_rule
                (analyzeFileChurn 5000 fourAuthorsThreeFixes) []
                fourAuthorsThreeFixes f) as [churn [_ H]].
    + rewrite F. now left.
    + cbv zeta in H. apply H.
Defined.

(** X13. A file of the churn dictionary gets a fragile record exactly when
    at least one of the five evidence conditions holds for it; the output of
    [identifyFragileFiles] is the array of those records sorted by
    descending fragile score and cut to its first 20, so that records are
    left out only once 20 are listed. *)
Theorem fragile_files_rule (fileChurn : Rec.t FileChurn.t)
    (fileOwnership : Rec.t FileOwnership.t) (commits : list CommitInfo.t) :
  let candidates := fragileCandidates fileChurn commits in
  let output := identifyFragileFiles fileChurn fileOwnership commits in
  (forall path churn,
      In (path, churn) fileChurn ->
      let fixes := touches path (filter CommitInfo.isFix commits) in
      (exists f,
          In f candidates /\ FragileFile.path f = path
          /\ FragileFile.evidence f = fst (fragileEvidence churn fixes))
      <-> exists ty, evidenceFires churn fixes ty)
  /\ exists rest,
       Permutation (output ++ rest) candidates
       /\ StronglySorted (ge_key FragileFile.fragileScore) (output ++ rest)
       /\ (rest <> [] -> List.length output = 20%nat).
Proof.
  cbv zeta. split.
  - intros path churn Hentry. rewrite <- fixesOf_touches.
    pose proof (fragileEvidence_spec churn
                  (fixesOf (fixCommitsPerFile commits) path)) as Hspec.
    cbv zeta in Hspec. destruct Hspec as (Hty & _).
    split.
    + intros [f (Hf & Hpath & Hev)].
      rewrite fragileCandidates_flat, in_flat_map in Hf.
      destruct Hf as [[path' churn'] [_ Hf]].
      apply fragileStep_record in Hf. destruct Hf as (_ & _ & _ & _ & Hne).
      rewrite Hev in Hne.
      destruct (fst (fragileEvidence churn
                       (fixesOf (fixCommitsPerFile commits) path)))
        as [|e evidence] eqn:E; [contradiction|].
      exists (Evidence.type e). apply Hty. now left.
    + intros [ty Hfire]. apply Hty in Hfire.
      assert (Hstep : exists f,
                 In f (fragileStep (fixCommitsPerFile commits) []
                         (path, churn))).
      { unfold fragileStep.
        destruct (fragileEvidence churn
                    (fixesOf (fixCommitsPerFile commits) path))
          as [evidence reasons]. cbn [fst] in Hfire.
        destruct evidence as [|e evidence]; [destruct Hfire|].
        replace (JS.len (e :: evidence) >? 0) with true
          by (symmetry; apply Z.gtb_lt; unfold JS.len; simpl List.length; lia).
        eexists. now left. }
      destruct Hstep as [f Hf]. exists f.
      pose proof (fragileStep_record _ _ _ _ Hf) as (Hp & Hev & _).
      split; [|now split].
      rewrite fragileCandidates_flat, in_flat_map. now exists (path, churn).
  - unfold identifyFragileFiles, JS.slice0.
    set (sorted := JS.sort _ (fragileCandidates fileChurn commits)).
    exists (skipn 20 sorted). rewrite firstn_skipn.
    split; [apply sort_perm|].
    split; [apply (sort_sorted FragileFile.fragileScore)|].
    intros Hrest. rewrite length_firstn.
    destruct (Nat.le_gt_cases (List.length sorted) 20) as [Hle|Hgt]; [|lia].
    exfalso. apply Hrest. now apply skipn_all2.
Qed.

(** ** The stable core against hot paths and fragile files *)

Lemma churn_score_terms (now : Z) (commits : list CommitInfo.t)
    (file : string) (fc : FileChurn.t) :
  In (file, fc) (analyzeFileChurn now commits) ->
  churnScore fc
  = Z.min (totalCommits fc * 2) 30
    + (if authorCount fc >? 1 then (authorCount fc - 1) * 5 else 0)
    + (if authorCount fc >? 3 then 10 else 0)
    + commitsLast30Days fc * 3
    + commitsLast90Days fc * 1
    + (if JS.gtb (totalChangesOf fc) 500 then 10 else 0)
    + (if JS.gtb (totalChangesOf fc) 1000 then 10 else 0)
  /\ counted fc.
Proof.
  intros Hin. destruct (analyzeFileChurn_counted _ _ _ _ Hin) as [Hc _].
  split; [|exact Hc].
  apply analyzeFileChurn_In in Hin. destruct Hin as [fc0 [_ ->]].
  rewrite deriveChurn_score. unfold specChurnScore.
  apply Math_round_integer.
Qed.

Lemma gtb_1000_500 (q : Q) : JS.gtb q 1000 = true -> JS.gtb q 500 = true.
Proof.
  unfold JS.gtb.
  destruct (Qcompare_spec q (inject_Z 1000)) as [| |Hgt]; try discriminate.
  intros _.
  destruct (Qcompare_spec q (inject_Z 500)) as [He|Hl|]; try reflexivity;
    exfalso.
  - rewrite He in Hgt. revert Hgt. now vm_compute.
  - apply (Qlt_irrefl (inject_Z 1000)).
    eapply Qlt_trans; [exact Hgt|]. eapply Qlt_trans; [exact Hl|].
    reflexivity.
Qed.

Lemma all_same_NoDup {A : Type} (x : A) (l : list A) :
  l <> [] -> NoDup l -> (forall y, In y l -> y = x) -> l = [x].
Proof.
  intros Hne Hnd Hall. destruct l as [|a l]; [contradiction|].
  assert (a = x) as -> by (apply Hall; now left).
  destruct l as [|b l]; [reflexivity|].
  assert (b = x) as -> by (apply Hall; right; now left).
  inversion_clear Hnd as [|? ? Hnotin _]. exfalso. apply Hnotin. now left.
Qed.

(** X14. In an analysis result no file of the stable core is a hot path,
    and a file of the stable core that is also listed as fragile is so on
    the evidence of frequent fixes alone. *)
Theorem stable_core_is_neither_hot_nor_churning (w : World.t)
    (repoPath : string) (commits : list CommitInfo.t) (path : string) :
  let history := buildHistory w repoPath commits in
  In path (GitHistory.stableCore history) ->
  (forall h, In h (GitHistory.hotPaths history) -> HotPath.path h <> path)
  /\ (forall f,
         In f (GitHistory.fragileFiles history) ->
         FragileFile.path f = path ->
         map Evidence.type (FragileFile.evidence f) = [frequent_fixes]).
Proof.
  cbv zeta. cbn [buildHistory GitHistory.stableCore GitHistory.hotPaths
                   GitHistory.fragileFiles].
  set (churn := analyzeFileChurn (World.nowChurn w) commits).
  assert (Hnd : NoDup (Rec.keys churn)) by apply analyzeFileChurn_NoDup.
  intros Hstable.
  assert (Hfc : exists fc, In (path, fc) churn /\ isStable path fc).
  { unfold identifyStableCore, JS.slice0, Rec.entries in Hstable.
    apply in_map_iff in Hstable. destruct Hstable as [[p fc] [Hp Hin]].
    cbn [fst] in Hp. subst p. apply in_firstn in Hin.
    apply (Permutation_in _ (sort_perm _ _)) in Hin.
    apply filter_In in Hin. destruct Hin as [Hin Htest].
    exists fc. split; [exact Hin|]. now apply stableTest_spec. }
  destruct Hfc as [fc [Hfc (Htc & Hdays & Hscore & _)]].
  destruct (churn_score_terms _ _ _ _ Hfc) as [Hterms (Hc1 & Hc30 & Hc90)].
  pose proof (gtb_1000_500 (totalChangesOf fc)) as Hmono.
  split.
  - intros h Hh Hpath.
    unfold identifyHotPaths, JS.slice0 in Hh. apply in_firstn in Hh.
    apply (Permutation_in _ (sort_perm _ _)) in Hh.
    unfold hotPathCandidates, Rec.entries in Hh.
    rewrite (pushing_fold _ hotPathStep_app) in Hh. cbn [app] in Hh.
    apply in_flat_map in Hh. destruct Hh as [[p' fc'] [Hin' Hh]].
    apply hotPathStep_In in Hh. destruct Hh as (_ & Hq & ->).
    cbn [hotPathOf HotPath.path] in Hpath. subst p'.
    assert (fc' = fc) as ->.
    { apply NoDup_get in Hin'; [|exact Hnd].
      apply NoDup_get in Hfc; [|exact Hnd]. congruence. }
    unfold qualifiesHot in Hq.
    destruct (Z.gtb_spec (authorCount fc) 1);
      destruct (Z.gtb_spec (authorCount fc) 3);
      destruct (JS.gtb (totalChangesOf fc) 500);
      destruct (JS.gtb (totalChangesOf fc) 1000); lia.
  - intros f Hf Hpath.
    apply identifyFragileFiles_candidates in Hf.
    rewrite fragileCandidates_flat, in_flat_map in Hf.
    destruct Hf as [[p' fc'] [Hin' Hf]].
    apply fragileStep_record in Hf.
    destruct Hf as (Hp & Hev & _ & _ & Hne).
    rewrite Hpath in Hp. subst p'.
    assert (fc' = fc) as ->.
    { apply NoDup_get in Hin'; [|exact Hnd].
      apply NoDup_get in Hfc; [|exact Hnd]. congruence. }
    pose proof (fragileEvidence_spec fc
                  (fixesOf (fixCommitsPerFile commits) path)) as Hspec.
    cbv zeta in Hspec. rewrite <- Hev in Hspec.
    destruct Hspec as (Hty & Hnodup & _).
    apply all_same_NoDup.
    + intros Hnil. apply map_eq_nil in Hnil. contradiction.
    + exact Hnodup.
    + intros ty Hin. apply Hty in Hin.
      destruct ty; [| |reflexivity| |]; exfalso; cbn [evidenceFires] in Hin.
      * lia.
      * destruct (Z.gtb_spec (authorCount fc) 1);
          destruct (Z.gtb_spec (authorCount fc) 3);
          destruct (JS.gtb (totalChangesOf fc) 500);
          destruct (JS.gtb (totalChangesOf fc) 1000); lia.
      * destruct (Z.gtb_spec (authorCount fc) 1);
          destruct (Z.gtb_spec (authorCount fc) 3);
          destruct (JS.gtb (totalChangesOf fc) 500);
          destruct (JS.gtb (totalChangesOf fc) 1000); lia.
      * destruct Hin as [H1000 _]. pose proof (Hmono H1000) as H500.
        rewrite H1000, H500 in Hterms.
        destruct (Z.gtb_spec (authorCount fc) 1);
          destruct (Z.gtb_spec (authorCount fc) 3); lia.
Qed.

Lemma stable_core_is_neither_hot_nor_churning_witness :
  let history := buildHistory lateWorld "repo" settled in
  In "lib/util.ts" (GitHistory.stableCore history)
  /\ forall h, In h (GitHistory.hotPaths history) ->
               HotPath.path h <> "lib/util.ts".
Proof.
  cbv zeta.
  assert (Hin : In "lib/util.ts"
                  (GitHistory.stableCore (buildHistory lateWorld "repo" settled)))
    by (vm_compute; left; reflexivity).
  split; [exact Hin|].
  exact (proj1 (stable_core_is_neither_hot_nor_churning lateWorld "repo"
                  settled "lib/util.ts" Hin)).
Defined.

(** ** Quiet periods and the order of the timeline *)

Lemma quietEvents_app (commits : list CommitInfo.t)
    (events : list TimelineEvent.t) :
  quietEvents commits events
  = events ++ map quietEvent (filter longGap (adjacent commits)).
Proof.
  unfold quietEvents. generalize (adjacent commits). intros pairs.
  revert events. induction pairs as [|p pairs IH]; intros events;
    cbn [fold_left filter map].
  - now rewrite app_nil_r.
  - rewrite IH. change (24 * 60 * 60 * 1000) with 86400000.
    rewrite gtb_div_spec, Math_floor_div. unfold longGap, dayMs.
    change (24 * 60 * 60 * 1000) with 86400000.
    destruct (CommitInfo.timestamp (fst p) - CommitInfo.timestamp (snd p)
              >? 14 * 86400000); [|reflexivity].
    cbn [map]. rewrite <- app_assoc. reflexivity.
Qed.

(** X15. The timeline is ordered by descending date. Besides the commit
    events it holds one [quiet-period] event for each pair of commits
    adjacent in the log that lie more than 14 days apart: dated at the
    later-listed commit of the pair, without files or author, and
    described by the whole number of days of the gap. *)
Theorem timeline_is_sorted_with_quiet_periods (commits : list CommitInfo.t)
    (fileChurn : Rec.t FileChurn.t) :
  let events := buildTimeline commits fileChurn in
  StronglySorted (ge_key TimelineEvent.date) events
  /\ Permutation (filter isQuietEvent events)
       (map quietEvent (filter longGap (adjacent commits)))
  /\ Permutation events
       (map commitEvent (filter notMerge (firstn 20 commits))
        ++ map quietEvent (filter longGap (adjacent commits)))
  /\ (forall e, In e events -> isCommitEvent e = true \/ isQuietEvent e = true).
Proof.
  cbv zeta.
  assert (Hperm : Permutation (buildTimeline commits fileChurn)
                    (map commitEvent (filter notMerge (firstn 20 commits))
                     ++ map quietEvent (filter longGap (adjacent commits)))).
  { unfold buildTimeline. rewrite sort_perm.
    now rewrite quietEvents_app, recentEvents_map. }
  split; [apply (sort_sorted TimelineEvent.date)|].
  split; [|split; [exact Hperm|]].
  - rewrite (perm_filter _ _ _ Hperm), filter_app.
    rewrite (filter_none isQuietEvent (map commitEvent _)).
    + cbn [app]. rewrite forallb_filter_id; [reflexivity|].
      apply forallb_forall. intros e He. apply in_map_iff in He.
      now destruct He as [p [<- _]].
    + intros e He. apply in_map_iff in He. destruct He as [c [<- _]].
      unfold isQuietEvent, commitEvent. now destruct (CommitInfo.isRefactor c).
  - intros e He. apply (Permutation_in _ Hperm) in He.
    apply in_app_iff in He. destruct He as [He|He]; apply in_map_iff in He.
    + destruct He as [c [<- _]]. left. apply isCommitEvent_commitEvent.
    + destruct He as [p [<- _]]. now right.
Qed.

(** ** The numbers of the commit pattern *)

Lemma busiest_fold (all : list CommitInfo.t) (l : list CommitInfo.t) :
  forall o m,
    let st :=
      fold_left
        (fun st ci =>
           let '(busiestPeriod, maxCommits) := st in
           let windowEnd := CommitInfo.timestamp ci in
           let windowStart := windowEnd - 30 * 24 * 60 * 60 * 1000 in
           let windowCommits :=
             filter
               (fun c =>
                  (CommitInfo.timestamp c >=? windowStart)
                  && (CommitInfo.timestamp c <=? windowEnd))
               all in
           if JS.len windowCommits >? maxCommits then
             (Some {| BusiestPeriod.start := isoDay windowStart;
                      BusiestPeriod.end_ := isoDay windowEnd;
                      BusiestPeriod.commits := JS.len windowCommits |},
              JS.len windowCommits)
           else st)
        l (o, m) in
    m <= snd st
    /\ (forall c, In c l -> windowCount all c <= snd st)
    /\ (st = (o, m)
        \/ exists c,
             In c l /\ snd st = windowCount all c
             /\ fst st = Some (windowOf all c)).
Proof.
  induction l as [|ci l IH]; intros o m; cbn [fold_left].
  - cbv zeta. cbn [snd]. split; [lia|]. split; [intros c []|now left].
  - cbv zeta. fold (windowCount all ci).
    change (Some
              {| BusiestPeriod.start :=
                   isoDay (CommitInfo.timestamp ci - 30 * 24 * 60 * 60 * 1000);
                 BusiestPeriod.end_ := isoDay (CommitInfo.timestamp ci);
                 BusiestPeriod.commits := windowCount all ci |})
      with (Some (windowOf all ci)).
    destruct (Z.gtb_spec (windowCount all ci) m) as [Hgt|Hle].
    + specialize (IH (Some (windowOf all ci)) (windowCount all ci)).
      cbv zeta in IH. destruct IH as (Hm & Hall & Hor).
      split; [lia|]. split.
      * intros c [<-|Hc]; [exact Hm|now apply Hall].
      * right. destruct Hor as [Heq|[c (Hc & Hs & Hf)]].
        -- exists ci. rewrite Heq. cbn [fst snd]. split; [now left|now split].
        -- exists c. split; [now right|now split].
    + specialize (IH o m). cbv zeta in IH. destruct IH as (Hm & Hall & Hor).
      split; [exact Hm|]. split.
      * intros c [<-|Hc]; [lia|now apply Hall].
      * destruct Hor as [Heq|[c (Hc & Hs & Hf)]]; [now left|].
        right. exists c. split; [now right|now split].
Qed.

Lemma windowCount_self (commits : list CommitInfo.t) (c : CommitInfo.t) :
  In c commits -> 1 <= windowCount commits c <= JS.len commits.
Proof.
  intros Hin. unfold windowCount, JS.len. split.
  - assert (Hc : In c (filter
                         (fun c' =>
                            (CommitInfo.timestamp c'
                             >=? CommitInfo.timestamp c
                                 - 30 * 24 * 60 * 60 * 1000)
                            && (CommitInfo.timestamp c'
                                <=? CommitInfo.timestamp c)) commits)).
    { apply filter_In. split; [exact Hin|]. apply andb_true_iff. split.
      - rewrite Z.geb_leb. apply Z.leb_le. lia.
      - apply Z.leb_le. lia. }
    destruct (filter _ commits); [destruct Hc|cbn [List.length]; lia].
  - pose proof (filter_length_le
                  (fun c' =>
                     (CommitInfo.timestamp c'
                      >=? CommitInfo.timestamp c - 30 * 24 * 60 * 60 * 1000)
                     && (CommitInfo.timestamp c' <=? CommitInfo.timestamp c))
                  commits). lia.
Qed.

Lemma longestGap_nonneg (commits : list CommitInfo.t) :
  0 <= longestGap commits.
Proof.
  unfold longestGap. generalize (adjacent commits). intros pairs.
  enough (H : forall init,
             0 <= init ->
             0 <= fold_left
                    (fun longestGapDays p =>
                       let gap :=
                         JS.div
                           (CommitInfo.timestamp (fst p)
                            - CommitInfo.timestamp (snd p))
                           (24 * 60 * 60 * 1000) in
                       if JS.gtb gap longestGapDays then JS.Math_floor gap
                       else longestGapDays) pairs init) by (apply H; lia).
  induction pairs as [|p pairs IH]; intros init Hinit; cbn [fold_left]; auto.
  apply IH. cbv zeta. change (24 * 60 * 60 * 1000) with 86400000.
  rewrite gtb_div_spec, Math_floor_div.
  destruct (Z.gtb_spec
              (CommitInfo.timestamp (fst p) - CommitInfo.timestamp (snd p))
              (init * 86400000)); [|exact Hinit].
  apply Z.div_pos; lia.
Qed.

(** X16. An [abandoned] pattern reports an average of 0 and no busiest
    period, with a longest gap of 0 for an empty log and of the age of the
    newest commit in whole days, at least 180, otherwise. Any other pattern
    reports a non-negative longest gap and a busiest period: the 30-day
    window ending at one of the commits, holding at least one commit and at
    least as many as the window ending at any other commit. *)
Theorem commit_pattern_numbers (now : Z) (commits : list CommitInfo.t) :
  let pattern := analyzeCommitPattern now commits in
  match commits with
  | [] =>
      CommitPattern.averageCommitsPerWeek pattern = 0%Q
      /\ CommitPattern.longestGapDays pattern = 0
      /\ CommitPattern.busiestPeriod pattern = None
  | newest :: _ =>
      if now - CommitInfo.timestamp newest >? 180 * dayMs then
        CommitPattern.averageCommitsPerWeek pattern = 0%Q
        /\ CommitPattern.longestGapDays pattern
           = (now - CommitInfo.timestamp newest) / dayMs
        /\ 180 <= CommitPattern.longestGapDays pattern
        /\ CommitPattern.busiestPeriod pattern = None
      else
        0 <= CommitPattern.longestGapDays pattern
        /\ exists c,
             In c commits
             /\ CommitPattern.busiestPeriod pattern
                = Some (windowOf commits c)
             /\ 1 <= windowCount commits c <= JS.len commits
             /\ forall c', In c' commits ->
                           windowCount commits c' <= windowCount commits c
  end.
Proof.
  cbv zeta. destruct commits as [|newest rest]; [repeat split|].
  unfold analyzeCommitPattern.
  change (24 * 60 * 60 * 1000) with 86400000. unfold dayMs.
  change (24 * 60 * 60 * 1000) with 86400000.
  rewrite gtb_div_spec, Math_floor_div.
  destruct (Z.gtb_spec (now - CommitInfo.timestamp newest) (180 * 86400000))
    as [Hold|Hnew].
  - cbn [CommitPattern.averageCommitsPerWeek CommitPattern.longestGapDays
           CommitPattern.busiestPeriod].
    repeat split. apply Z.div_le_lower_bound; lia.
  - set (commits := newest :: rest).
    assert (Hmain :
              0 <= longestGap commits
              /\ exists c,
                   In c commits
                   /\ fst (busiest commits) = Some (windowOf commits c)
                   /\ 1 <= windowCount commits c <= JS.len commits
                   /\ forall c', In c' commits ->
                                 windowCount commits c'
                                 <= windowCount commits c).
    { split; [apply longestGap_nonneg|].
      pose proof (busiest_fold commits commits None 0) as Hfold.
      cbv zeta in Hfold. fold (busiest commits) in Hfold.
      destruct Hfold as (_ & Hall & Hor).
      destruct Hor as [Heq|[c (Hc & Hs & Hf)]].
      + exfalso. rewrite Heq in Hall. cbn [snd] in Hall.
        pose proof (Hall newest (or_introl eq_refl)).
        pose proof (windowCount_self commits newest (or_introl eq_refl)). lia.
      + exists c. split; [exact Hc|]. split; [exact Hf|].
        split; [now apply windowCount_self|].
        intros c' Hc'. rewrite <- Hs. now apply Hall. }
    destruct (JS.geb _ 5); [exact Hmain|].
    destruct (JS.geb _ 1); [exact Hmain|].
    destruct (longestGap commits >? 30); exact Hmain.
Qed.

(** ** Commit extraction *)

Lemma substring_prefix (n : nat) (s : string) :
  String.prefix (String.substring 0 n s) s = true
  /\ (String.length (String.substring 0 n s) <= n)%nat.
Proof.
  revert s. induction n as [|n IH]; intros s.
  - destruct s; simpl; split; auto.
  - destruct s as [|c s]; simpl; [split; auto with arith|].
    destruct (IH s) as [Hp Hl]. rewrite Hp.
    destruct (Ascii.ascii_dec c c); [split; [reflexivity|lia]|congruence].
Qed.

Lemma append_assoc_char (acc : string) (c : Ascii.ascii) (s : string) :
  ((acc ++ String c EmptyString) ++ s)%string = (acc ++ String c s)%string.
Proof.
  induction acc as [|a acc IH]; simpl; [reflexivity|now rewrite IH].
Qed.

Lemma append_empty_r (s : string) : (s ++ "")%string = s.
Proof.
  induction s as [|c s IH]; simpl; [reflexivity|now rewrite IH].
Qed.

(** The first element of [s.split("\n")] is [s] up to its first line
    break. *)
Lemma splitLines_head (s : string) :
  forall acc,
    exists line,
      hd EmptyString (splitLines acc s) = (acc ++ line)%string
      /\ singleLine line = true
      /\ (s = line \/ exists rest, s = (line ++ String newline rest)%string).
Proof.
  induction s as [|c s IH]; intros acc; cbn [splitLines].
  - exists EmptyString. split; [now rewrite append_empty_r|]. split; auto.
  - destruct (Ascii.eqb c newline) eqn:E.
    + apply Ascii.eqb_eq in E. subst c.
      exists EmptyString. cbn [hd]. split; [now rewrite append_empty_r|].
      split; [reflexivity|]. right. now exists s.
    + destruct (IH (acc ++ String c EmptyString)%string)
        as [line (Hhd & Hsingle & Hs)].
      exists (String c line). split; [now rewrite Hhd, append_assoc_char|].
      split; [cbn [singleLine]; now rewrite E, Hsingle|].
      destruct Hs as [->|[rest ->]]; [now left|]. right. now exists rest.
Qed.

(** X17. Commit extraction resolves to one record per log entry, in log
    order, with the hash, author and date of the entry and the timestamp of
    that date. [shortHash] is a prefix of the hash of at most 7 characters;
    [messageFirstLine] is the message up to its first line break; no
    changed path is empty or contains [node_modules]. When the name-only
    diff of a commit fails, the commit has no changed files and no line
    counts. When it succeeds, the changed files are the lines of its output
    that are not empty and do not contain [node_modules], in order, whether
    or not the stat diff succeeds; when the stat diff fails, the commit has
    no line counts. *)
Theorem extraction_follows_the_log (w : World.t) (log : LogResult.t) :
  processCommits w log = Resolved (map (processEntry w) (LogResult.all log))
  /\ forall entry,
       let c := processEntry w entry in
       CommitInfo.hash c = LogEntry.hash entry
       /\ CommitInfo.author c = LogEntry.author_name entry
       /\ CommitInfo.date c = LogEntry.date entry
       /\ CommitInfo.timestamp c = Date_getTime (LogEntry.date entry)
       /\ String.prefix (CommitInfo.shortHash c) (CommitInfo.hash c) = true
       /\ (String.length (CommitInfo.shortHash c) <= 7)%nat
       /\ singleLine (CommitInfo.messageFirstLine c) = true
       /\ (CommitInfo.message c = CommitInfo.messageFirstLine c
           \/ exists rest,
                CommitInfo.message c
                = (CommitInfo.messageFirstLine c ++ String newline rest)%string)
       /\ (forall f, In f (CommitInfo.filesChanged c) ->
           f <> "" /\ JS.includes f "node_modules" = false)
       /\ (forall error,
              World.diffNameOnly w (LogEntry.hash entry) = Rejected error ->
              CommitInfo.filesChanged c = []
              /\ CommitInfo.insertions c = 0 /\ CommitInfo.deletions c = 0)
       /\ (forall diff,
              World.diffNameOnly w (LogEntry.hash entry) = Resolved diff ->
              CommitInfo.filesChanged c
              = filter (fun f => negb (JS.includes f "node_modules"))
                  (filter (fun f => negb (String.eqb f ""))
                     (split_newline diff)))
       /\ (forall error,
              World.diffStat w (LogEntry.hash entry) = Rejected error ->
              CommitInfo.insertions c = 0 /\ CommitInfo.deletions c = 0).
Proof.
  split; [apply processCommits_map|].
  intros entry. cbv zeta. unfold processEntry.
  destruct (changesOf w (LogEntry.hash entry)) as [[files ins] del] eqn:E.
  cbn [CommitInfo.hash CommitInfo.author CommitInfo.date CommitInfo.timestamp
         CommitInfo.shortHash CommitInfo.messageFirstLine CommitInfo.message
         CommitInfo.filesChanged CommitInfo.insertions CommitInfo.deletions].
  destruct (substring_prefix 7 (LogEntry.hash entry)) as [Hp Hl].
  destruct (splitLines_head (LogEntry.message entry) EmptyString)
    as [line (Hhd & Hsingle & Hmsg)].
  cbn [append] in Hhd. unfold split_newline. rewrite Hhd.
  unfold changesOf in E.
  repeat match goal with |- _ /\ _ => split end; auto.
  - intros f Hf.
    destruct (World.diffNameOnly w (LogEntry.hash entry)) as [diff|e];
      [|injection E as <- _ _; destruct Hf].
    assert (Hfiles : files
                     = filter (fun f => negb (JS.includes f "node_modules"))
                         (filter (fun f => negb (String.eqb f ""))
                            (split_newline diff)))
      by (destruct (World.diffStat w (LogEntry.hash entry));
          now injection E as <- _ _).
    rewrite Hfiles in Hf. apply filter_In in Hf. destruct Hf as [Hf Hnm].
    apply filter_In in Hf. destruct Hf as [_ Hne].
    split.
    + intros ->. discriminate Hne.
    + now destruct (JS.includes f "node_modules").
  - intros error Hrej. rewrite Hrej in E. now injection E as <- <- <-.
  - intros diff Hres. rewrite Hres in E.
    destruct (World.diffStat w (LogEntry.hash entry));
      now injection E as <- _ _.
  - intros error Hrej.
    destruct (World.diffNameOnly w (LogEntry.hash entry)) as [diff|e].
    + rewrite Hrej in E. now injection E as _ <- <-.
    + now injection E as _ <- <-.
Qed.

(** ** The quick lookups *)

Lemma analyzeFileChurn_paths (now : Z) (commits : list CommitInfo.t) :
  map FileChurn.path (Rec.values (analyzeFileChurn now commits))
  = Rec.keys (analyzeFileChurn now commits).
Proof.
  unfold Rec.values, Rec.keys. rewrite map_map.
  apply map_ext_in. intros [file fc] Hin.
  now destruct (churn_authors_spec _ _ _ _ Hin) as (Hp & _).
Qed.

(** X18. In an analysis result, [multiAuthorFiles] lists exactly the files
    with at least 3 authors, and [highChurnFiles] lists at most 10 distinct
    files of the churn dictionary: the first of its records sorted by
    descending churn score, so that no file left out scores more than a
    listed one and files are left out only once 10 are listed. *)
Theorem quick_lookups_rule (w : World.t) (repoPath : string)
    (commits : list CommitInfo.t) :
  let history := buildHistory w repoPath commits in
  let churn := GitHistory.fileChurn history in
  (forall file,
      In file (GitHistory.multiAuthorFiles history)
      <-> exists fc, In (file, fc) churn /\ 3 <= authorCount fc)
  /\ (List.length (GitHistory.highChurnFiles history) <= 10)%nat
  /\ NoDup (GitHistory.highChurnFiles history)
  /\ exists kept rest,
       GitHistory.highChurnFiles history = map FileChurn.path kept
       /\ Permutation (kept ++ rest) (Rec.values churn)
       /\ StronglySorted (ge_key FileChurn.churnScore) (kept ++ rest)
       /\ (rest <> [] -> List.length kept = 10%nat)
       /\ forall fc, In fc (kept ++ rest) -> In (FileChurn.path fc, fc) churn.
Proof.
  cbv zeta. cbn [buildHistory GitHistory.multiAuthorFiles
                   GitHistory.highChurnFiles GitHistory.fileChurn].
  set (churn := analyzeFileChurn (World.nowChurn w) commits).
  assert (Hvalues : forall fc,
             In fc (Rec.values churn) -> In (FileChurn.path fc, fc) churn).
  { intros fc Hfc. unfold Rec.values in Hfc. apply in_map_iff in Hfc.
    destruct Hfc as [[file fc'] [Heq Hin]]. cbn [snd] in Heq. subst fc'.
    destruct (churn_authors_spec _ _ _ _ Hin) as (Hp & _). now rewrite Hp. }
  set (sorted := JS.sort (fun a b => churnScore b - churnScore a)
                   (Rec.values churn)).
  assert (Hperm : Permutation sorted (Rec.values churn)) by apply sort_perm.
  split; [|split; [|split]].
  - intros file. rewrite in_map_iff. split.
    + intros [fc [Hp Hin]]. apply filter_In in Hin. destruct Hin as [Hin Hac].
      exists fc. rewrite <- Hp. split; [now apply Hvalues|].
      rewrite Z.geb_leb in Hac. now apply Z.leb_le.
    + intros [fc [Hin Hac]]. exists fc.
      destruct (churn_authors_spec _ _ _ _ Hin) as (Hp & _).
      split; [exact Hp|]. apply filter_In. split.
      * unfold Rec.values. now apply (in_map snd) in Hin.
      * rewrite Z.geb_leb. now apply Z.leb_le.
  - rewrite length_map. apply firstn_le_length.
  - unfold JS.slice0. rewrite <- firstn_map.
    assert (Hnd : NoDup (map FileChurn.path sorted)).
    { eapply Permutation_NoDup.
      - apply Permutation_map. symmetry. exact Hperm.
      - unfold churn. rewrite analyzeFileChurn_paths.
        apply analyzeFileChurn_NoDup. }
    rewrite <- (firstn_skipn 10 (map FileChurn.path sorted)) in Hnd.
    now apply NoDup_app_remove_r in Hnd.
  - exists (firstn 10 sorted), (skipn 10 sorted). rewrite firstn_skipn.
    split; [reflexivity|]. split; [exact Hperm|].
    split; [apply (sort_sorted FileChurn.churnScore)|]. split.
    + intros Hrest. rewrite length_firstn.
      destruct (Nat.le_gt_cases (List.length sorted) 10) as [Hle|Hgt]; [|lia].
      exfalso. apply Hrest. now apply skipn_all2.
    + intros fc Hfc. apply Hvalues. now apply (Permutation_in _ Hperm).
Qed.

(** ** The analysis cache *)

Section CacheFacts.
Context {Analysis Snapshot : Type}.
Implicit Types (this : RepoCache.t Analysis Snapshot) (path : string).

Lemma truthy_nonempty path : path <> "" -> RepoCache.truthy (Some path) = Some path.
Proof.
  destruct path; [congruence|reflexivity].
Qed.

Lemma targetPath_explicit path this :
  path <> "" -> RepoCache.targetPath (Some path) this = Some path.
Proof.
  intros H. unfold RepoCache.targetPath. now rewrite !truthy_nonempty.
Qed.

(** X19. What [set] stores under a non-empty path is what every getter
    returns for that path, and also what it returns when called without a
    path, the path just set being the last analyzed one; [has] is true for
    it. *)
Theorem cache_returns_what_was_set path (analysis : Analysis)
    (snapshot : Snapshot) (history : option GitHistory.t) this :
  path <> "" ->
  let this' := RepoCache.set path analysis snapshot history this in
  (forall arg,
      arg = Some path \/ arg = None \/ arg = Some "" ->
      RepoCache.get arg this' = Some analysis
      /\ RepoCache.getSnapshot arg this' = Some snapshot
      /\ RepoCache.getHistory arg this' = history
      /\ RepoCache.getCached arg this'
         = Some {| CachedRepo.analysis := analysis;
                   CachedRepo.snapshot := snapshot;
                   CachedRepo.history := history |})
  /\ RepoCache.has path this' = true
  /\ RepoCache.getLastPath this' = Some path.
Proof.
  intros Hne this'.
  assert (Htarget : forall arg,
             arg = Some path \/ arg = None \/ arg = Some "" ->
             RepoCache.targetPath arg this' = Some path).
  { intros arg [->|[->| ->]].
    - now apply targetPath_explicit.
    - unfold RepoCache.targetPath. cbn. now apply truthy_nonempty.
    - unfold RepoCache.targetPath. cbn. now apply truthy_nonempty. }
  split; [|split; [|reflexivity]].
  - intros arg Harg.
    unfold RepoCache.get, RepoCache.getSnapshot, RepoCache.getHistory,
      RepoCache.getCached.
    rewrite (Htarget arg Harg). unfold this', RepoCache.set.
    cbn [RepoCache.cache]. rewrite get_set_same. repeat split.
  - unfold RepoCache.has, this', RepoCache.set. cbn [RepoCache.cache].
    now rewrite get_set_same.
Qed.

(** X20. Storing an analysis under one path leaves what the cache returns
    for every other explicitly given path as it was. *)
Theorem cache_set_keeps_other_paths path other (analysis : Analysis)
    (snapshot : Snapshot) (history : option GitHistory.t) this :
  other <> path -> other <> "" ->
  let this' := RepoCache.set path analysis snapshot history this in
  RepoCache.get (Some other) this' = RepoCache.get (Some other) this
  /\ RepoCache.getSnapshot (Some other) this'
     = RepoCache.getSnapshot (Some other) this
  /\ RepoCache.getHistory (Some other) this'
     = RepoCache.getHistory (Some other) this
  /\ RepoCache.getCached (Some other) this'
     = RepoCache.getCached (Some other) this
  /\ RepoCache.has other this' = RepoCache.has other this.
Proof.
  intros Hne Hnonempty this'.
  unfold RepoCache.get, RepoCache.getSnapshot, RepoCache.getHistory,
    RepoCache.getCached, RepoCache.has.
  rewrite !targetPath_explicit by assumption.
  unfold this', RepoCache.set. cbn [RepoCache.cache].
  rewrite get_set_other by assumption. repeat split.
Qed.

(** X21. An entry stored under the empty path cannot be read back: after
    such a [set], [has] is true for the empty path and it is the last
    analyzed path, yet every getter returns [null], with or without a path
    argument. A cleared cache returns [null] everywhere, whatever it held. *)
Theorem cache_empty_path_is_unreadable (analysis : Analysis)
    (snapshot : Snapshot) (history : option GitHistory.t) this :
  let this' := RepoCache.set "" analysis snapshot history this in
  RepoCache.has "" this' = true
  /\ RepoCache.getLastPath this' = Some ""
  /\ (forall arg,
         arg = Some "" \/ arg = None ->
         RepoCache.get arg this' = None
         /\ RepoCache.getSnapshot arg this' = None
         /\ RepoCache.getHistory arg this' = None
         /\ RepoCache.getCached arg this' = None)
  /\ (forall arg,
         RepoCache.get arg (RepoCache.clear this) = None
         /\ RepoCache.getSnapshot arg (RepoCache.clear this) = None
         /\ RepoCache.getHistory arg (RepoCache.clear this) = None
         /\ RepoCache.getCached arg (RepoCache.clear this) = None
         /\ RepoCache.getLastPath (RepoCache.clear this) = None).
Proof.
  cbv zeta. split; [|split; [reflexivity|split]].
  - unfold RepoCache.has, RepoCache.set. cbn [RepoCache.cache].
    now rewrite get_set_same.
  - intros arg [->| ->]; repeat split.
  - intros arg.
    unfold RepoCache.get, RepoCache.getSnapshot, RepoCache.getHistory,
      RepoCache.getCached, RepoCache.clear.
    destruct (RepoCache.targetPath arg _); repeat split.
Qed.
End CacheFacts.

Lemma cache_returns_what_was_set_witness :
  RepoCache.getHistory (Some "/test/repo")
    (RepoCache.set "/test/repo" tt tt None RepoCache.new) = None
  /\ RepoCache.get None (RepoCache.set "/test/repo" tt tt None RepoCache.new)
     = Some tt.
Proof.
  assert (Hne : "/test/repo" <> "") by discriminate.
  destruct (cache_returns_what_was_set "/test/repo" tt tt None RepoCache.new
              Hne) as (Hget & _).
  split.
  - apply (Hget (Some "/test/repo")). now left.
  - apply (Hget None). right. now left.
Defined.

Lemma cache_set_keeps_other_paths_witness :
  RepoCache.has "/test/repo1"
    (RepoCache.set "/test/repo2" tt tt None
       (RepoCache.set "/test/repo1" tt tt None RepoCache.new))
  = RepoCache.has "/test/repo1"
      (RepoCache.set "/test/repo1" tt tt None RepoCache.new).
Proof.
  assert (Hne : "/test/repo1" <> "/test/repo2") by discriminate.
  assert (Hnonempty : "/test/repo1" <> "") by discriminate.
  exact (proj2 (proj2 (proj2 (proj2
           (cache_set_keeps_other_paths "/test/repo2" "/test/repo1" tt tt None
              (RepoCache.set "/test/repo1" tt tt None RepoCache.new)
              Hne Hnonempty))))).
Defined.

(** ** The report of [whyIsThisWeird] *)

Lemma mentions_app (title : string) (l1 l2 : list string) :
  mentions title (l1 ++ l2) = mentions title l1 || mentions title l2.
Proof.
  apply existsb_app.
Qed.

(** No title named in the statements opens a line of the first block. *)
Lemma changeHistoryLines_sections (filePath : string) (churn : FileChurn.t) :
  let lines := changeHistoryLines filePath churn in
  mentions unusualTitle lines = false
  /\ mentions healthyTitle lines = false
  /\ mentions "**Heavily modified:**" lines = false
  /\ mentions "**Many hands:**" lines = false
  /\ mentions "**Currently volatile:**" lines = false
  /\ mentions "**Identified as fragile:**" lines = false
  /\ mentions "## Ownership" lines = false
  /\ mentions noOwnerTitle lines = false.
Proof.
  lazy; repeat split.
Qed.

Lemma verdictLines_sections (churn : FileChurn.t)
    (fragile : option FragileFile.t) :
  let lines := verdictLines churn fragile in
  mentions unusualTitle lines = looksUnusual churn fragile
  /\ mentions healthyTitle lines = negb (looksUnusual churn fragile)
  /\ mentions "**Heavily modified:**" lines
     = looksUnusual churn fragile && (FileChurn.totalCommits churn >? 20)
  /\ mentions "**Many hands:**" lines
     = looksUnusual churn fragile && (FileChurn.authorCount churn >=? 3)
  /\ mentions "**Currently volatile:**" lines
     = looksUnusual churn fragile && (FileChurn.commitsLast30Days churn >=? 5)
  /\ mentions "**Identified as fragile:**" lines
     = match fragile with Some _ => true | None => false end
  /\ mentions "## Ownership" lines = false
  /\ mentions noOwnerTitle lines = false.
Proof.
  cbv zeta. unfold verdictLines, looksUnusual.
  generalize (FileChurn.churnScore churn >? 30)
    (FileChurn.authorCount churn >=? 3)
    (FileChurn.totalCommits churn >? 20)
    (FileChurn.commitsLast30Days churn >=? 5).
  intros b1 b2 b3 b4.
  destruct b1, b2, b3, b4, fragile as [fragile|]; lazy; repeat split.
Qed.

Lemma ownershipLines_sections (ownership : option FileOwnership.t) :
  let lines := ownershipLines ownership in
  mentions unusualTitle lines = false
  /\ mentions healthyTitle lines = false
  /\ mentions "**Heavily modified:**" lines = false
  /\ mentions "**Many hands:**" lines = false
  /\ mentions "**Currently volatile:**" lines = false
  /\ mentions "**Identified as fragile:**" lines = false
  /\ mentions "## Ownership" lines
     = match ownership with Some _ => true | None => false end
  /\ mentions noOwnerTitle lines
     = match ownership with
       | Some o =>
           match FileOwnership.ownershipClarity o with
           | disputed => true
           | _ => false
           end
       | None => false
       end.
Proof.
  cbv zeta. unfold ownershipLines.
  destruct ownership as [ownership|]; [|lazy; repeat split].
  destruct (FileOwnership.ownershipClarity ownership); lazy; repeat split.
Qed.

(** Which sections a report has, whatever the records it is given. *)
Lemma reportLines_sections (filePath : string) (churn : FileChurn.t)
    (ownership : option FileOwnership.t) (fragile : option FragileFile.t) :
  let lines := reportLines filePath churn ownership fragile in
  mentions unusualTitle lines = looksUnusual churn fragile
  /\ mentions healthyTitle lines = negb (looksUnusual churn fragile)
  /\ mentions "**Heavily modified:**" lines
     = looksUnusual churn fragile && (FileChurn.totalCommits churn >? 20)
  /\ mentions "**Many hands:**" lines = (FileChurn.authorCount churn >=? 3)
  /\ mentions "**Currently volatile:**" lines
     = looksUnusual churn fragile && (FileChurn.commitsLast30Days churn >=? 5)
  /\ mentions "**Identified as fragile:**" lines
     = match fragile with Some _ => true | None => false end
  /\ mentions "## Ownership" lines
     = match ownership with Some _ => true | None => false end
  /\ mentions noOwnerTitle lines
     = match ownership with
       | Some o =>
           match FileOwnership.ownershipClarity o with
           | disputed => true
           | _ => false
           end
       | None => false
       end.
Proof.
  cbv zeta. unfold reportLines. rewrite !mentions_app.
  destruct (changeHistoryLines_sections filePath churn)
    as (-> & -> & -> & -> & -> & -> & -> & ->).
  destruct (verdictLines_sections churn fragile)
    as (-> & -> & -> & -> & -> & -> & -> & ->).
  destruct (ownershipLines_sections ownership)
    as (-> & -> & -> & -> & -> & -> & -> & ->).
  rewrite !orb_false_r. cbn [orb].
  repeat match goal with |- _ /\ _ => split end; try reflexivity.
  unfold looksUnusual.
  destruct (FileChurn.authorCount churn >=? 3); [|apply andb_false_r].
  now rewrite orb_true_r.
Qed.

(** The report begins with its heading, so that it is neither of the two
    fixed answers. *)
Lemma reportLines_head (filePath : string) (churn : FileChurn.t)
    (ownership : option FileOwnership.t) (fragile : option FragileFile.t) :
  exists text,
    String.concat nl (reportLines filePath churn ownership fragile)
    = ("#" ++ text)%string.
Proof.
  unfold reportLines, changeHistoryLines. cbn [app].
  generalize (verdictLines churn fragile ++ ownershipLines ownership).
  intros rest. cbn [String.concat append]. eexists. reflexivity.
Qed.


(** A file has no more authors than commits. *)
Lemma authorCount_le_totalCommits (now : Z) (commits : list CommitInfo.t)
    (file : string) (fc : FileChurn.t) :
  In (file, fc) (analyzeFileChurn now commits) ->
  authorCount fc <= totalCommits fc.
Proof.
  intros Hin. apply analyzeFileChurn_folded in Hin.
  destruct Hin as [fc0 [Hfold ->]].
  apply churnStep_fold_spec in Hfold. destruct Hfold as (_ & Htc & Ha & _).
  cbn [deriveChurn authorCount totalCommits authors]. rewrite Htc, Ha.
  destruct (distinct_spec (map CommitInfo.author (touchList file commits)))
    as [Hnd Hmem].
  unfold JS.len. apply inj_le.
  rewrite <- (length_map CommitInfo.author (touchList file commits)).
  apply NoDup_incl_length; [exact Hnd|].
  intros a Ha'. now apply Hmem.
Qed.

Lemma identifyStableCore_In (fileChurn : Rec.t FileChurn.t) (path : string) :
  In path (identifyStableCore fileChurn) ->
  exists fc, In (path, fc) fileChurn /\ isStable path fc.
Proof.
  intros Hstable.
  unfold identifyStableCore, JS.slice0, Rec.entries in Hstable.
  apply in_map_iff in Hstable. destruct Hstable as [[p fc] [Hp Hin]].
  cbn [fst] in Hp. subst p. apply in_firstn in Hin.
  apply (Permutation_in _ (sort_perm _ _)) in Hin.
  apply filter_In in Hin. destruct Hin as [Hin Htest].
  exists fc. split; [exact Hin|]. now apply stableTest_spec.
Qed.

(** A stable file has fewer than 3 authors, at most 20 commits and fewer
    than 5 commits in the trailing 30 days. *)
Lemma stable_file_numbers (now : Z) (commits : list CommitInfo.t)
    (file : string) (fc : FileChurn.t) :
  In (file, fc) (analyzeFileChurn now commits) ->
  isStable file fc ->
  (churnScore fc >? 30) = false
  /\ (authorCount fc >=? 3) = false
  /\ (totalCommits fc >? 20) = false
  /\ (commitsLast30Days fc >=? 5) = false.
Proof.
  intros Hin (Htc & _ & Hscore & _).
  destruct (churn_score_terms _ _ _ _ Hin) as [Hterms (Hc1 & Hc30 & Hc90)].
  pose proof (authorCount_le_totalCommits _ _ _ _ Hin) as Hac.
  rewrite Z.geb_leb, !Z.gtb_ltb, Z.geb_leb.
  rewrite !Z.ltb_ge, !Z.leb_gt.
  destruct (Z.gtb_spec (authorCount fc) 1);
    destruct (Z.gtb_spec (authorCount fc) 3);
    destruct (JS.gtb (totalChangesOf fc) 500);
    destruct (JS.gtb (totalChangesOf fc) 1000); lia.
Qed.

(** The ownership record that an analysis stores for a file with a churn
    record. *)
Lemma history_ownership (now : Z) (commits : list CommitInfo.t)
    (file : string) (fc : FileChurn.t) :
  Rec.get file (analyzeFileChurn now commits) = Some fc ->
  exists o,
    Rec.get file (analyzeFileOwnership (analyzeFileChurn now commits) commits)
    = Some o
    /\ (FileOwnership.ownershipClarity o = disputed
        <-> 3 <= authorCount fc /\ FileOwnership.primaryAuthorPercent o < 50).
Proof.
  intros Hget. apply get_In in Hget.
  eexists. split.
  - apply analyzeFileOwnership_get; [apply analyzeFileChurn_NoDup|exact Hget].
  - cbn [ownershipOf FileOwnership.ownershipClarity
           FileOwnership.primaryAuthorPercent].
    change (contributorsOf _ (FileChurn.totalCommits fc))
      with (fullContributors commits file fc).
    destruct (contributors_spec _ _ _ _ Hget) as (_ & Hlen & _).
    cbv zeta in Hlen. rewrite <- Hlen.
    exact (proj1 (clarityOf_rule (fullContributors commits file fc))).
Qed.

Lemma find_path_None (fragileFiles : list FragileFile.t) (filePath : string) :
  find (fun f => String.eqb (FragileFile.path f) filePath) fragileFiles = None
  <-> forall f, In f fragileFiles -> FragileFile.path f <> filePath.
Proof.
  split.
  - intros Hnone f Hin Hp.
    apply (find_none _ _ Hnone) in Hin. cbv beta in Hin.
    rewrite Hp, String.eqb_refl in Hin. discriminate.
  - intros Hall.
    destruct (find _ fragileFiles) as [f|] eqn:F; [|reflexivity].
    apply find_some in F. destruct F as [Hin Hp].
    apply String.eqb_eq in Hp. now apply Hall in Hin.
Qed.

(** X22. Asked about a file while the cache holds, for the path asked
    about, the history of an analysis, [whyIsThisWeird] never answers that
    no history is available. For a file that some analyzed commit changed it
    answers with the joined report lines built from the file's churn record
    and its ownership record, which is never missing. For a file that no
    analyzed commit changed it answers that no history was found for the
    file, unless the file is named like a property of [Object.prototype]
    (such as [constructor]), in which case the call fails; and it gives the
    no-history answer for no other file. *)
Theorem report_is_given_for_changed_files {Analysis Snapshot : Type}
    (repoCache : RepoCache.t Analysis Snapshot) (repoPath : option string)
    (w : World.t) (analyzed : string) (commits : list CommitInfo.t)
    (filePath : string) :
  let history := buildHistory w analyzed commits in
  let answer := whyIsThisWeird repoCache filePath repoPath in
  RepoCache.getHistory repoPath repoCache = Some history ->
  answer <> Resolved cannotAnalyze
  /\ ((exists c, In c commits /\ In filePath (CommitInfo.filesChanged c)) ->
      exists churn ownership,
        Rec.get filePath (GitHistory.fileChurn history) = Some churn
        /\ Rec.get filePath (GitHistory.fileOwnership history)
           = Some ownership
        /\ answer
           = Resolved
               (String.concat nl
                  (reportLines filePath churn (Some ownership)
                     (fragileRecord history filePath))))
  /\ ((forall c, In c commits -> ~ In filePath (CommitInfo.filesChanged c)) ->
      answer
      = if inheritedProperty filePath then Rejected "TypeError"
        else Resolved (noHistoryFound filePath))
  /\ (answer = Resolved (noHistoryFound filePath) ->
      forall c, In c commits -> ~ In filePath (CommitInfo.filesChanged c)).
Proof.
  cbv zeta. intros Hcache. unfold whyIsThisWeird. rewrite Hcache.
  unfold fragileRecord.
  cbn [buildHistory GitHistory.fileChurn GitHistory.fileOwnership
         GitHistory.fragileFiles].
  set (churnD := analyzeFileChurn (World.nowChurn w) commits).
  assert (Huntouched :
            Rec.get filePath churnD = None
            <-> forall c,
                  In c commits -> ~ In filePath (CommitInfo.filesChanged c)).
  { unfold churnD. rewrite analyzeFileChurn_get.
    destruct (fold_left _ (touchList filePath commits) None) as [fc|] eqn:F.
    - split; [discriminate|]. intros Hall. exfalso.
      destruct (touchList filePath commits) as [|c l] eqn:T;
        [discriminate F|].
      assert (Hc : In c (touchList filePath commits))
        by (rewrite T; now left).
      apply touchList_In in Hc. destruct Hc as [Hc Hf]. exact (Hall c Hc Hf).
    - split; [|reflexivity]. intros _ c Hc Hf.
      apply churnStep_fold_None in F.
      assert (Hin : In c (touchList filePath commits))
        by (apply touchList_In; now split).
      rewrite F in Hin. exact Hin. }
  destruct (Rec.get filePath churnD) as [churn|] eqn:G.
  - destruct (history_ownership _ _ _ _ G) as [o [Ho _]].
    fold churnD in Ho. rewrite Ho.
    destruct (reportLines_head filePath churn (Some o)
                (find (fun f => String.eqb (FragileFile.path f) filePath)
                   (identifyFragileFiles churnD
                      (analyzeFileOwnership churnD commits) commits)))
      as [text Htext].
    split; [|split; [|split]].
    + rewrite Htext. unfold cannotAnalyze. discriminate.
    + intros _. exists churn, o.
      split; [reflexivity|]. split; reflexivity.
    + intros Hall. apply Huntouched in Hall. discriminate.
    + rewrite Htext. unfold noHistoryFound. discriminate.
  - split; [|split; [|split]].
    + destruct (inheritedProperty filePath); unfold cannotAnalyze;
        discriminate.
    + intros [c [Hc Hf]]. exfalso.
      exact (proj1 Huntouched eq_refl c Hc Hf).
    + reflexivity.
    + intros _. now apply Huntouched.
Qed.

(** X23. In the report on a file of an analysis result, the ownership
    section is always present. The warning that the file has no clear owner
    appears exactly when the file has at least 3 authors and its primary
    author made less than 50 percent of its commits, and then the report
    has the unusual section with its [Many hands] paragraph and not the
    healthy one. The report has exactly one of the unusual and the healthy
    sections. For a file of the stable core the report has no
    [Heavily modified], [Many hands] or [Currently volatile] paragraph and
    no ownership warning, and it has the healthy section exactly when the
    fragile list has no record of the file. *)
Theorem report_sections_follow_the_analysis (w : World.t) (analyzed : string)
    (commits : list CommitInfo.t) (filePath : string) (churn : FileChurn.t) :
  let history := buildHistory w analyzed commits in
  Rec.get filePath (GitHistory.fileChurn history) = Some churn ->
  let lines :=
    reportLines filePath churn
      (Rec.get filePath (GitHistory.fileOwnership history))
      (fragileRecord history filePath) in
  (exists ownership,
      Rec.get filePath (GitHistory.fileOwnership history) = Some ownership
      /\ mentions "## Ownership" lines = true
      /\ (mentions noOwnerTitle lines = true
          <-> 3 <= FileChurn.authorCount churn
              /\ FileOwnership.primaryAuthorPercent ownership < 50))
  /\ (mentions noOwnerTitle lines = true ->
      mentions "**Many hands:**" lines = true
      /\ mentions unusualTitle lines = true)
  /\ mentions healthyTitle lines = negb (mentions unusualTitle lines)
  /\ (In filePath (GitHistory.stableCore history) ->
      mentions "**Heavily modified:**" lines = false
      /\ mentions "**Many hands:**" lines = false
      /\ mentions "**Currently volatile:**" lines = false
      /\ mentions noOwnerTitle lines = false
      /\ (mentions healthyTitle lines = true
          <-> forall f,
                In f (GitHistory.fragileFiles history) ->
                FragileFile.path f <> filePath)).
Proof.
  cbv zeta. unfold fragileRecord.
  cbn [buildHistory GitHistory.fileChurn GitHistory.fileOwnership
         GitHistory.fragileFiles GitHistory.stableCore].
  set (churnD := analyzeFileChurn (World.nowChurn w) commits).
  set (fragileFiles :=
         identifyFragileFiles churnD (analyzeFileOwnership churnD commits)
           commits).
  intros Hget.
  destruct (history_ownership _ _ _ _ Hget) as [o [Ho Hdisputed]].
  fold churnD in Ho. rewrite Ho.
  destruct (reportLines_sections filePath churn (Some o)
              (find (fun f => String.eqb (FragileFile.path f) filePath)
                 fragileFiles))
    as (Hu & Hh & Hhv & Hm & Hv & _ & Hown & Hno).
  cbv zeta in Hu, Hh, Hhv, Hm, Hv, Hown, Hno.
  rewrite Hu, Hh, Hhv, Hm, Hv, Hown, Hno.
  assert (Hwarn :
            match FileOwnership.ownershipClarity o with
            | disputed => true
            | _ => false
            end = true
            <-> 3 <= authorCount churn
                /\ FileOwnership.primaryAuthorPercent o < 50).
  { rewrite <- Hdisputed.
    destruct (FileOwnership.ownershipClarity o);
      split; intros; try reflexivity; discriminate. }
  split; [|split; [|split]].
  - exists o. split; [reflexivity|]. split; [reflexivity|exact Hwarn].
  - intros Hw. apply Hwarn in Hw. destruct Hw as [Hac _].
    assert (E : (authorCount churn >=? 3) = true)
      by (rewrite Z.geb_leb; now apply Z.leb_le).
    unfold looksUnusual. rewrite E, orb_true_r. now split.
  - reflexivity.
  - intros Hstable. apply identifyStableCore_In in Hstable.
    destruct Hstable as [fc [Hfc Hst]].
    assert (fc = churn) as ->.
    { apply NoDup_get in Hfc; [|apply analyzeFileChurn_NoDup].
      congruence. }
    assert (Hin : In (filePath, churn) churnD) by now apply get_In.
    destruct (stable_file_numbers _ _ _ _ Hin Hst)
      as (Hscore & Hac & Htc & Hc30).
    unfold looksUnusual. rewrite Hscore, Hac, Htc, Hc30, !andb_false_r.
    cbn [orb].
    repeat match goal with |- _ /\ _ => split end; try reflexivity.
    + destruct (FileOwnership.ownershipClarity o) eqn:C; try reflexivity.
      assert (Hw : 3 <= authorCount churn
                   /\ FileOwnership.primaryAuthorPercent o < 50)
        by now apply Hdisputed.
      rewrite Z.geb_leb in Hac. apply Z.leb_gt in Hac. lia.
    + rewrite <- find_path_None.
      destruct (find _ fragileFiles); split; intros; try reflexivity;
        discriminate.
Qed.

Lemma report_is_given_for_changed_files_witness :
  whyIsThisWeird
    (RepoCache.set "/repo" tt tt
       (Some (buildHistory lateWorld "/repo" settled)) RepoCache.new)
    "lib/util.ts" None
  <> Resolved cannotAnalyze.
Proof.
  exact (proj1
           (report_is_given_for_changed_files
              (RepoCache.set "/repo" tt tt
                 (Some (buildHistory lateWorld "/repo" settled))
                 RepoCache.new)
              None lateWorld "/repo" settled "lib/util.ts" eq_refl)).
Defined.

Lemma report_sections_follow_the_analysis_witness :
  match
    Rec.get "lib/util.ts"
      (GitHistory.fileChurn (buildHistory lateWorld "/repo" settled))
  with
  | Some churn =>
      mentions healthyTitle
        (reportLines "lib/util.ts" churn
           (Rec.get "lib/util.ts"
              (GitHistory.fileOwnership
                 (buildHistory lateWorld "/repo" settled)))
           (fragileRecord (buildHistory lateWorld "/repo" settled)
              "lib/util.ts"))
      = negb
          (mentions unusualTitle
             (reportLines "lib/util.ts" churn
                (Rec.get "lib/util.ts"
                   (GitHistory.fileOwnership
                      (buildHistory lateWorld "/repo" settled)))
                (fragileRecord (buildHistory lateWorld "/repo" settled)
                   "lib/util.ts")))
  | None => False
  end.
Proof.
  destruct (Rec.get "lib/util.ts"
              (GitHistory.fileChurn (buildHistory lateWorld "/repo" settled)))
    as [churn|] eqn:G.
  - exact (proj1 (proj2 (proj2
             (report_sections_follow_the_analysis lateWorld "/repo" settled
                "lib/util.ts" churn G)))).
  - vm_compute in G. discriminate G.
Defined.


(** ** Churn over a longer log *)

Lemma touchList_app (file : string) (l l' : list CommitInfo.t) :
  touchList file (l ++ l') = touchList file l ++ touchList file l'.
Proof.
  unfold touchList. apply flat_map_app.
Qed.

Lemma gtb_mono (x y : Q) (n : Z) :
  (x <= y)%Q -> JS.gtb x n = true -> JS.gtb y n = true.
Proof.
  unfold JS.gtb. intros Hle.
  destruct (Qcompare_spec x (inject_Z n)) as [| |Hgt]; try discriminate.
  intros _.
  destruct (Qcompare_spec y (inject_Z n)) as [He|Hlt|]; try reflexivity;
    exfalso.
  - rewrite He in Hle. exact (Qlt_not_le _ _ Hgt Hle).
  - apply (Qlt_irrefl x).
    eapply Qle_lt_trans; [exact Hle|]. eapply Qlt_trans; eassumption.
Qed.

(** The score formula grows with each of its five arguments. *)
Lemma specChurnScore_mono (tc tc' ac ac' c30 c30' c90 c90' : Z) (ch ch' : Q) :
  tc <= tc' -> ac <= ac' -> c30 <= c30' -> c90 <= c90' -> (ch <= ch')%Q ->
  specChurnScore tc ac c30 c90 ch <= specChurnScore tc' ac' c30' c90' ch'.
Proof.
  intros Htc Hac H30 H90 Hch. unfold specChurnScore.
  rewrite !Math_round_integer.
  pose proof (gtb_mono _ _ 500 Hch) as H500.
  pose proof (gtb_mono _ _ 1000 Hch) as H1000.
  destruct (JS.gtb ch 500);
    [rewrite (H500 eq_refl)|destruct (JS.gtb ch' 500)];
    (destruct (JS.gtb ch 1000);
     [rewrite (H1000 eq_refl)|destruct (JS.gtb ch' 1000)]);
    destruct (Z.gtb_spec ac 1), (Z.gtb_spec ac 3), (Z.gtb_spec ac' 1),
      (Z.gtb_spec ac' 3); lia.
Qed.

Lemma distinct_length_incl (names names' : list string) :
  incl names names' -> JS.len (distinct names) <= JS.len (distinct names').
Proof.
  intros Hincl. unfold JS.len. apply inj_le.
  destruct (distinct_spec names) as [Hnd Hmem].
  destruct (distinct_spec names') as [_ Hmem'].
  apply NoDup_incl_length; [exact Hnd|].
  intros a Ha. apply Hmem'. apply Hincl. now apply Hmem.
Qed.

(** The sum over a list is at least the sum over a contiguous part of it,
    when the members left out are not negative. *)
Lemma sumQ_part (share : CommitInfo.t -> Q) (a b c : list CommitInfo.t) :
  (forall x, In x (a ++ c) -> (0 <= share x)%Q) ->
  (sumQ (map share b) <= sumQ (map share (a ++ b ++ c)))%Q.
Proof.
  intros Hpos. rewrite !map_app, !sumQ_app.
  assert (Ha : (0 <= sumQ (map share a))%Q).
  { apply sumQ_nonneg. intros q Hq. apply in_map_iff in Hq.
    destruct Hq as [x [<- Hx]]. apply Hpos, in_or_app. now left. }
  assert (Hc : (0 <= sumQ (map share c))%Q).
  { apply sumQ_nonneg. intros q Hq. apply in_map_iff in Hq.
    destruct Hq as [x [<- Hx]]. apply Hpos, in_or_app. now right. }
  rewrite <- (Qplus_0_l (sumQ (map share b))) at 1.
  apply Qplus_le_compat; [exact Ha|].
  rewrite <- (Qplus_0_r (sumQ (map share b))) at 1.
  apply Qplus_le_compat; [apply Qle_refl|exact Hc].
Qed.

Lemma len_filter_part {A : Type} (p : A -> bool) (a b c : list A) :
  JS.len (filter p b) <= JS.len (filter p (a ++ b ++ c)).
Proof.
  unfold JS.len. rewrite !filter_app, !length_app. lia.
Qed.

(** X24. At a given analysis time, a file scores at least as high in a log
    on which the churn pass returns as in any contiguous part of that log,
    provided the commits left out have no negative line counts: the file
    has a record, and its commit count, author count, 30-day and 90-day
    counts and churn score are at least those found in the part. In
    particular, cutting the log to its newest commits can lower these
    numbers but never raise them. *)
Theorem longer_log_never_lowers_churn (now : Z)
    (before commits after : list CommitInfo.t)
    (part whole : Rec.t FileChurn.t) (file : string) (fc : FileChurn.t) :
  Run.analyzeFileChurn now commits = Resolved part ->
  Run.analyzeFileChurn now (before ++ commits ++ after) = Resolved whole ->
  (forall c,
      In c (before ++ after) ->
      0 <= CommitInfo.insertions c /\ 0 <= CommitInfo.deletions c) ->
  Rec.get file part = Some fc ->
  exists fc',
    Rec.get file whole = Some fc'
    /\ totalCommits fc <= totalCommits fc'
    /\ authorCount fc <= authorCount fc'
    /\ commitsLast30Days fc <= commitsLast30Days fc'
    /\ commitsLast90Days fc <= commitsLast90Days fc'
    /\ churnScore fc <= churnScore fc'.
Proof.
  intros Hpart Hwhole Hpos Hget.
  apply Run_analyzeFileChurn_resolved in Hpart. destruct Hpart as [-> _].
  apply Run_analyzeFileChurn_resolved in Hwhole. destruct Hwhole as [-> _].
  rewrite analyzeFileChurn_get in Hget.
  rewrite analyzeFileChurn_get, !touchList_app.
  set (a := touchList file before). set (b := touchList file commits).
  set (c := touchList file after). fold b in Hget.
  destruct (fold_left (churnStep now file) b None) as [fc0|] eqn:F;
    [|discriminate].
  injection Hget as <-.
  destruct (fold_left (churnStep now file) (a ++ b ++ c) None)
    as [fc0'|] eqn:F'.
  2:{ apply churnStep_fold_None in F'.
      apply app_eq_nil in F'. destruct F' as [_ F'].
      apply app_eq_nil in F'. destruct F' as [F' _].
      rewrite F' in F. discriminate. }
  exists (deriveChurn now fc0'). split; [reflexivity|].
  apply churnStep_fold_spec in F.
  destruct F as (_ & Htc & Ha & H30 & H90 & Hins & Hdel & _).
  apply churnStep_fold_spec in F'.
  destruct F' as (_ & Htc' & Ha' & H30' & H90' & Hins' & Hdel' & _).
  assert (Hlen : JS.len b <= JS.len (a ++ b ++ c))
    by (unfold JS.len; rewrite !length_app; lia).
  assert (Hauthors :
            JS.len (authors fc0) <= JS.len (authors fc0')).
  { rewrite Ha, Ha'. apply distinct_length_incl.
    rewrite !map_app. intros x Hx. apply in_or_app. right.
    apply in_or_app. now left. }
  assert (Hvisit : forall x, In x (a ++ c) -> In x (before ++ after)).
  { intros x Hx. apply in_app_or in Hx. apply in_or_app.
    destruct Hx as [Hx|Hx]; apply touchList_In in Hx; tauto. }
  assert (Hchanges :
            (totalChangesOf (deriveChurn now fc0)
             <= totalChangesOf (deriveChurn now fc0'))%Q).
  { unfold totalChangesOf. cbn [deriveChurn totalInsertions totalDeletions].
    rewrite Hins, Hdel, Hins', Hdel'. apply Qplus_le_compat.
    - apply sumQ_part. intros x Hx. apply share_nonneg.
      now apply Hpos, Hvisit.
    - apply sumQ_part. intros x Hx. apply share_nonneg.
      now apply Hpos, Hvisit. }
  assert (Hc30 : commitsLast30Days fc0 <= commitsLast30Days fc0')
    by (rewrite H30, H30'; apply len_filter_part).
  assert (Hc90 : commitsLast90Days fc0 <= commitsLast90Days fc0')
    by (rewrite H90, H90'; apply len_filter_part).
  pose proof (deriveChurn_score now fc0) as Hs.
  pose proof (deriveChurn_score now fc0') as Hs'.
  cbv zeta in Hs, Hs'. rewrite Hs, Hs'.
  cbn [deriveChurn totalCommits authorCount commitsLast30Days
         commitsLast90Days].
  repeat match goal with |- _ /\ _ => split end; try lia.
  apply specChurnScore_mono; try lia. exact Hchanges.
Qed.

Lemma longer_log_never_lowers_churn_witness :
  match
    Run.analyzeFileChurn 3000 (firstn 1 settled),
    Run.analyzeFileChurn 3000 settled
  with
  | Resolved part, Resolved whole =>
      match Rec.get "lib/util.ts" part with
      | Some fc =>
          exists fc',
            Rec.get "lib/util.ts" whole = Some fc'
            /\ totalCommits fc <= totalCommits fc'
            /\ authorCount fc <= authorCount fc'
            /\ commitsLast30Days fc <= commitsLast30Days fc'
            /\ commitsLast90Days fc <= commitsLast90Days fc'
            /\ churnScore fc <= churnScore fc'
      | None => False
      end
  | _, _ => False
  end.
Proof.
  destruct (Run.analyzeFileChurn 3000 (firstn 1 settled)) as [part|e] eqn:R1;
    [|vm_compute in R1; discriminate R1].
  destruct (Run.analyzeFileChurn 3000 settled) as [whole|e] eqn:R2;
    [|vm_compute in R2; discriminate R2].
  destruct (Rec.get "lib/util.ts" part) as [fc|] eqn:G.
  - apply (longer_log_never_lowers_churn 3000 [] (firstn 1 settled)
             (skipn 1 settled) part whole "lib/util.ts" fc R1 R2);
      [|exact G].
    intros c [<-|[]]. split; discriminate.
  - vm_compute in R1. injection R1 as <-. vm_compute in G. discriminate G.
Defined.


(** * The top-level analysis *)













